(** * qwsv-lua: the entity dictionary (server/lua_edict.c)

    A shallow embedding of the edict store, the Lua bridge and the entity
    text parser of [src/server/lua_edict.c], and the properties of the
    design document checked against it.

    Conventions of the embedding.
    - A C [float] or [double] value is the rational ([Q]) it denotes, an
      infinity or a NaN ([number]); the sign of zero is not kept.  [float]
      is the binary32 format of IEC 60559 and [double] the binary64 format:
      a value stored into a [float] is rounded to the nearest binary32
      value ([to_float]), what the C library converts to a [double] to the
      nearest binary64 value ([to_double]), ties to even, overflow to an
      infinity.
    - An [edict_t *] is the index of the edict in [sv.edicts].
    - The Lua state is explicit: the value stack, the registry, the heap of
      tables and of [vec3_t] userdata, and the global namespace.
    - [SV_Error] never returns: it is the [Fatal] outcome.  A Lua error
      raised by a [luaL_check*] function is the [LuaError] outcome.  [Fault]
      is a use of the Lua API or of a pointer that C leaves undefined, and
      [NoFuel] a loop stopped by the bound the embedding puts on it. *)

From Stdlib Require Import ZArith QArith Qpower Qround Qabs String Ascii List Lia Lqa.
From stdpp Require Import base functions gmap strings list fin_maps.

Local Open Scope string_scope.
Local Open Scope Z_scope.

(** ** Numbers *)

Inductive number :=
| NFin (q : Q)
| NInf (neg : bool)
| NNaN.

Definition num_of_Z (z : Z) : number := NFin (inject_Z z).

(** [vec3_t]: an array of three [vec_t]. *)
Definition vec3_t : Type := number * number * number.

(** [vec3_origin] of mathlib.c. *)
Definition vec3_origin : vec3_t := (NFin 0, NFin 0, NFin 0).

Definition Qltb (x y : Q) : bool := negb (Qle_bool y x).

(** [x < y] and [x - y] of C on [float] and [double] values. *)
Definition num_ltb (x y : number) : bool :=
  match x, y with
  | NNaN, _ | _, NNaN => false
  | NFin a, NFin b => Qltb a b
  | NInf true, NInf true => false
  | NInf true, _ => true
  | NFin _, NInf false => true
  | _, _ => false
  end.

Definition num_sub (x y : number) : number :=
  match x, y with
  | NNaN, _ | _, NNaN => NNaN
  | NFin a, NFin b => NFin (a - b)
  | NInf s, NFin _ => NInf s
  | NFin _, NInf s => NInf (negb s)
  | NInf s, NInf s' => if Bool.eqb s s' then NNaN else NInf s
  end.

(** *** Rounding to a binary format

    A binary format with [prec] bits of precision and largest exponent
    [emax] (24 and 127 for [float], 53 and 1023 for [double]). *)

(** The integer part of the binary logarithm of [a > 0]. *)
Definition Qlog2 (a : Q) : Z :=
  let e := Z.log2 (Qnum a) - Z.log2 (Zpos (Qden a)) in
  if Qle_bool (Qpower 2 e) a then e else e - 1.

(** The integer nearest to [x >= 0], the even one of two. *)
Definition round_half_even (x : Q) : Z :=
  let f := Qfloor x in
  match Qcompare (x - inject_Z f) (1 # 2) with
  | Lt => f
  | Gt => f + 1
  | Eq => if Z.even f then f else f + 1
  end.

(** The value of the format nearest to [x].  A value of the format is
    returned as it is. *)
Definition round_binary (prec emax : Z) (x : number) : number :=
  match x with
  | NFin q =>
      if Qeq_bool q 0 then NFin 0
      else
        let a := Qabs q in
        (* the exponent of [a], or the one of the subnormal numbers *)
        let e := Z.max (Qlog2 a) (1 - emax) in
        let ulp := Qpower 2 (e - prec + 1) in
        let r := (inject_Z (round_half_even (a / ulp)) * ulp)%Q in
        if Qle_bool (Qpower 2 (emax + 1)) r then NInf (Qltb q 0)
        else if Qeq_bool r a then NFin q
        else NFin (Qred (if Qltb q 0 then - r else r))
  | _ => x
  end.

Definition to_float : number -> number := round_binary 24 127.
Definition to_double : number -> number := round_binary 53 1023.

(** ** Outcomes *)

Inductive result (A : Type) :=
| Ok (a : A)
| Fatal (msg : string)
| LuaError (msg : string)
| Fault
| NoFuel.
Arguments Ok {A} a.
Arguments Fatal {A} msg.
Arguments LuaError {A} msg.
Arguments Fault {A}.
Arguments NoFuel {A}.

#[global] Instance result_ret : MRet result := fun A a => Ok a.

#[global] Instance result_bind : MBind result := fun A B k r =>
  match r with
  | Ok a => k a
  | Fatal m => Fatal m
  | LuaError m => LuaError m
  | Fault => Fault
  | NoFuel => NoFuel
  end.

Definition is_fatal {A} (r : result A) : bool :=
  match r with Fatal _ => true | _ => false end.

(** ** The Lua state *)

(** Lua values.  Userdata are told apart by their metatable: ["edict_t"]
    userdata hold an [edict_t *], ["vec3_t"] userdata are three floats in
    the userdata heap, addressed by [a]. *)
Inductive lua_value :=
| LNil
| LBoolean (b : bool)
| LNumber (n : number)
| LString (s : string)
| LFunction (f : nat)
| LTable (a : nat)
| LVec3 (a : nat)
| LEdict (n : nat).

Record lua_State := {
  stack : list lua_value;                  (* top of the stack first *)
  registry : gmap positive lua_value;      (* LUA_REGISTRYINDEX, integer keys *)
  tables : gmap nat (gmap string lua_value);
  vectors : gmap nat vec3_t;
  globals : gmap string lua_value }.

Definition LUA_REFNIL : Z := -1.
Definition LUA_NOREF : Z := -2.

Definition set_stack (s : list lua_value) (L : lua_State) : lua_State :=
  {| stack := s; registry := registry L; tables := tables L;
     vectors := vectors L; globals := globals L |}.

Definition set_registry (r : gmap positive lua_value) (L : lua_State) : lua_State :=
  {| stack := stack L; registry := r; tables := tables L;
     vectors := vectors L; globals := globals L |}.

Definition set_tables (t : gmap nat (gmap string lua_value)) (L : lua_State) : lua_State :=
  {| stack := stack L; registry := registry L; tables := t;
     vectors := vectors L; globals := globals L |}.

Definition set_vectors (v : gmap nat vec3_t) (L : lua_State) : lua_State :=
  {| stack := stack L; registry := registry L; tables := tables L;
     vectors := v; globals := globals L |}.

Definition set_globals (g : gmap string lua_value) (L : lua_State) : lua_State :=
  {| stack := stack L; registry := registry L; tables := tables L;
     vectors := vectors L; globals := g |}.

Definition lua_push (v : lua_value) (L : lua_State) : lua_State :=
  set_stack (v :: stack L) L.

Definition lua_pushnil := lua_push LNil.
Definition lua_pushnumber (n : number) := lua_push (LNumber n).
Definition lua_pushstring (s : string) := lua_push (LString s).
Definition lua_pushboolean (b : bool) := lua_push (LBoolean b).

Definition lua_pop (n : nat) (L : lua_State) : lua_State :=
  set_stack (drop n (stack L)) L.

(** Position in [stack] of an acceptable index: negative indices count from
    the top, positive ones from the bottom. *)
Definition stack_pos (idx : Z) (L : lua_State) : option nat :=
  if idx <? 0 then Some (Z.to_nat (- idx - 1))
  else if (0 <? idx) && (idx <=? Z.of_nat (length (stack L)))
       then Some (length (stack L) - Z.to_nat idx)%nat
       else None.

Definition lua_index (idx : Z) (L : lua_State) : option lua_value :=
  match stack_pos idx L with
  | Some p => stack L !! p
  | None => None
  end.

Definition lua_isnil (idx : Z) (L : lua_State) : bool :=
  match lua_index idx L with Some LNil => true | _ => false end.

Definition lua_isfunction (idx : Z) (L : lua_State) : bool :=
  match lua_index idx L with Some (LFunction _) => true | _ => false end.

Definition lua_pushvalue (idx : Z) (L : lua_State) : result lua_State :=
  match lua_index idx L with
  | Some v => Ok (lua_push v L)
  | None => Fault
  end.

Definition lua_remove (idx : Z) (L : lua_State) : result lua_State :=
  match stack_pos idx L with
  | Some p => if (p <? length (stack L))%nat
              then Ok (set_stack (delete p (stack L)) L) else Fault
  | None => Fault
  end.

(** Value held by the registry under an integer key ([nil] when absent). *)
Definition registry_get (n : Z) (L : lua_State) : lua_value :=
  match n with
  | Zpos p => default LNil (registry L !! p)
  | _ => LNil
  end.

(** [lua_rawgeti(L, LUA_REGISTRYINDEX, n)] *)
Definition lua_rawgeti_registry (n : Z) (L : lua_State) : lua_State :=
  lua_push (registry_get n L) L.

(** [luaL_ref(L, LUA_REGISTRYINDEX)]: pops the value on the top of the stack
    and returns a reference to it, a unique integer key of the registry;
    [nil] has the fixed reference [LUA_REFNIL]. *)
Definition luaL_ref (L : lua_State) : result (Z * lua_State) :=
  match stack L with
  | [] => Fault
  | LNil :: s => Ok (LUA_REFNIL, set_stack s L)
  | v :: s =>
      let r := fresh (dom (registry L)) in
      Ok (Zpos r, set_registry (<[r := v]> (registry L)) (set_stack s L))
  end.

(** [luaL_unref(L, LUA_REGISTRYINDEX, ref)]: the entry is removed from the
    registry and the reference is free to be used again. *)
Definition luaL_unref (ref : Z) (L : lua_State) : lua_State :=
  match ref with
  | Zpos p => set_registry (delete p (registry L)) L
  | _ => L
  end.

(** A reference is live when the registry holds a value under it. *)
Definition live (ref : Z) (L : lua_State) : bool :=
  match ref with
  | Zpos p => bool_decide (is_Some (registry L !! p))
  | _ => false
  end.

(** [lua_newtable] *)
Definition lua_newtable (L : lua_State) : lua_State :=
  let a := fresh (dom (tables L)) in
  lua_push (LTable a) (set_tables (<[a := ∅]> (tables L)) L).

(** [lua_rawset(L, idx)]: [t[k] = v] with [v] on the top of the stack and
    [k] just below; both are popped.  Storing [nil] removes the key.  Only
    string keys are modelled. *)
Definition lua_rawset (idx : Z) (L : lua_State) : result lua_State :=
  match lua_index idx L, stack L with
  | Some (LTable a), v :: LString k :: s =>
      match tables L !! a with
      | Some t =>
          let t' := match v with LNil => delete k t | _ => <[k := v]> t end in
          Ok (set_tables (<[a := t']> (tables L)) (set_stack s L))
      | None => Fault
      end
  | _, _ => Fault
  end.

(** [lua_rawget(L, idx)]: replaces the key on the top of the stack by [t[k]]. *)
Definition lua_rawget (idx : Z) (L : lua_State) : result lua_State :=
  match lua_index idx L, stack L with
  | Some (LTable a), LString k :: s =>
      match tables L !! a with
      | Some t => Ok (set_stack (default LNil (t !! k) :: s) L)
      | None => Fault
      end
  | _, _ => Fault
  end.

(** [lua_tostring] on a string; the conversion of a number to its decimal
    spelling is not modelled. *)
Definition lua_tostring (idx : Z) (L : lua_State) : result string :=
  match lua_index idx L with
  | Some (LString s) => Ok s
  | _ => Fault
  end.

Definition luaL_checknumber (idx : Z) (L : lua_State) : result number :=
  match lua_index idx L with
  | Some (LNumber n) => Ok n
  | Some _ => LuaError "number expected"
  | None => Fault
  end.

Definition lua_toboolean (idx : Z) (L : lua_State) : bool :=
  match lua_index idx L with
  | Some LNil | Some (LBoolean false) | None => false
  | Some _ => true
  end.

(** [luaL_checkudata(L, idx, "edict_t")]: the [edict_t *] in the userdata. *)
Definition luaL_checkudata_edict (idx : Z) (L : lua_State) : result nat :=
  match lua_index idx L with
  | Some (LEdict n) => Ok n
  | Some _ => LuaError "edict_t expected"
  | None => Fault
  end.

(** [luaL_testudata(L, idx, "vec3_t")] *)
Definition luaL_testudata_vec3 (idx : Z) (L : lua_State) : bool :=
  match lua_index idx L with Some (LVec3 _) => true | _ => false end.

Definition lua_setglobal (name : string) (L : lua_State) : result lua_State :=
  match stack L with
  | v :: s =>
      Ok (set_globals (match v with LNil => delete name (globals L)
                                  | _ => <[name := v]> (globals L) end)
                      (set_stack s L))
  | [] => Fault
  end.

Definition lua_getglobal (name : string) (L : lua_State) : lua_State :=
  lua_push (default LNil (globals L !! name)) L.

(** ** The vector helper library (pr_vec3, not part of this file)

    Modelled from the spec: [PR_Vec3_New], [PR_Vec3_ToVec] and
    [PR_Vec3_Push] of the vector value collaborator, which "constructs and
    extracts three-component vector values compatible with the scripting
    value model".  A vector value is a userdata with the ["vec3_t"]
    metatable, holding its three components. *)

(** Pushes a new vector userdata and returns its address. *)
Definition PR_Vec3_New (L : lua_State) : nat * lua_State :=
  let a := fresh (dom (vectors L)) in
  (a, lua_push (LVec3 a) (set_vectors (<[a := vec3_origin]> (vectors L)) L)).

(** Address of the vector userdata at [idx]. *)
Definition PR_Vec3_ToVec (idx : Z) (L : lua_State) : result nat :=
  match lua_index idx L with
  | Some (LVec3 a) => Ok a
  | Some _ => LuaError "vec3_t expected"
  | None => Fault
  end.

(** [memcpy(dst, src, sizeof(vec3_t))] between two vector userdata. *)
Definition memcpy_vec3 (dst src : nat) (L : lua_State) : result lua_State :=
  match vectors L !! src with
  | Some v => Ok (set_vectors (<[dst := v]> (vectors L)) L)
  | None => Fault
  end.

(** [memcpy(dst, v, sizeof(vec3_t))] from native storage. *)
Definition store_vec3 (dst : nat) (v : vec3_t) (L : lua_State) : lua_State :=
  set_vectors (<[dst := v]> (vectors L)) L.

(** Pushes a new vector userdata holding a copy of [v]. *)
Definition PR_Vec3_Push (v : vec3_t) (L : lua_State) : lua_State :=
  let '(a, L1) := PR_Vec3_New L in store_vec3 a v L1.

(** A script writing the components of a vector value ([v.x = ...]). *)
Definition vec3_write (a : nat) (v : vec3_t) (L : lua_State) : lua_State :=
  match vectors L !! a with
  | Some _ => store_vec3 a v L
  | None => L
  end.

(** ** The C library: scanning floating-point numbers

    [sscanf] and [atof] belong to the C library.  They are modelled after
    ISO C (7.21.6.2 and 7.22.1.3): a [%f] directive skips white space and
    then takes the longest prefix of the input that is, or is a prefix of, a
    floating-point subject sequence; the directive fails when what it took
    is not itself a subject sequence.  [strtod] takes the longest prefix
    that is a subject sequence.  The flag [pok] tells the two apart, as in
    the scanner of the musl library. *)

Definition isspace (c : ascii) : bool :=
  let n := nat_of_ascii c in ((n =? 32) || ((9 <=? n) && (n <=? 13)))%nat.

Definition tolower (c : ascii) : ascii :=
  let n := nat_of_ascii c in
  if ((65 <=? n) && (n <=? 90))%nat then ascii_of_nat (n + 32) else c.

Definition digit_val (c : ascii) : option Z :=
  let n := Z.of_nat (nat_of_ascii c) in
  if (48 <=? n) && (n <=? 57) then Some (n - 48) else None.

Definition xdigit_val (c : ascii) : option Z :=
  let n := Z.of_nat (nat_of_ascii (tolower c)) in
  if (48 <=? n) && (n <=? 57) then Some (n - 48)
  else if (97 <=? n) && (n <=? 102) then Some (n - 87) else None.

(** Letters, digits and the underscore: the characters of [nan(...)]. *)
Definition isnchar (c : ascii) : bool :=
  let n := nat_of_ascii (tolower c) in
  (((48 <=? n) && (n <=? 57)) || ((97 <=? n) && (n <=? 122)) || (n =? 95))%nat.

Fixpoint skip_space (s : string) : string :=
  match s with
  | String c r => if isspace c then skip_space r else s
  | EmptyString => s
  end.

(** Digits in base [b]: the value read, how many digits, and the rest. *)
Fixpoint scan_digits (val : ascii -> option Z) (b acc : Z) (n : nat) (s : string)
  : Z * nat * string :=
  match s with
  | String c r =>
      match val c with
      | Some d => scan_digits val b (b * acc + d) (S n) r
      | None => (acc, n, s)
      end
  | EmptyString => (acc, n, s)
  end.

(** Drops [p] when [s] starts with it, whatever the case of the letters. *)
Fixpoint strip_prefix_nocase (p s : string) : option string :=
  match p, s with
  | EmptyString, _ => Some s
  | String a p', String c s' =>
      if Ascii.eqb a (tolower c) then strip_prefix_nocase p' s' else None
  | String _ _, EmptyString => None
  end.

(** An exponent: an optional sign and at least one decimal digit. *)
Definition scanexp (s : string) : option (Z * string) :=
  let '(neg, s1) :=
    match s with
    | String "+" r => (false, r)
    | String "-" r => (true, r)
    | _ => (false, s)
    end in
  let '(e, n, s2) := scan_digits digit_val 10 0 0 s1 in
  if (n =? 0)%nat then None else Some (if neg then - e else e, s2).

(** Digits with an optional radix point, then an optional exponent
    introduced by [ec]; the value is [mantissa * eb ^ exponent]. *)
Definition scan_mantissa (val : ascii -> option Z) (b : Z) (ec : ascii) (eb : Q)
    (pok : bool) (s : string) : option (Q * string) :=
  let '(ip, ni, s1) := scan_digits val b 0 0 s in
  let '(fp, nf, s2) :=
    match s1 with
    | String "." r => scan_digits val b 0 0 r
    | _ => (0, 0%nat, s1)
    end in
  if (ni + nf =? 0)%nat then None
  else
    let m := (inject_Z ip + inject_Z fp / inject_Z (b ^ Z.of_nat nf))%Q in
    match s2 with
    | String c r =>
        if Ascii.eqb (tolower c) ec then
          match scanexp r with
          | Some (e, s3) => Some ((m * eb ^ e)%Q, s3)
          | None => if pok then Some (m, s2) else None
          end
        else Some (m, s2)
    | EmptyString => Some (m, s2)
    end.

Fixpoint skip_nchars (s : string) : string :=
  match s with
  | String c r => if isnchar c then skip_nchars r else s
  | EmptyString => s
  end.

(** [nan] or [nan(n-char-sequence)]. *)
Definition scan_nan (pok : bool) (s : string) : option (number * string) :=
  match strip_prefix_nocase "nan" s with
  | Some (String "(" r as s1) =>
      match skip_nchars r with
      | String ")" s2 => Some (NNaN, s2)
      | _ => if pok then Some (NNaN, s1) else None
      end
  | Some s1 => Some (NNaN, s1)
  | None => None
  end.

(** [inf] or [infinity]. *)
Definition scan_inf (pok neg : bool) (s : string) : option (number * string) :=
  match strip_prefix_nocase "inf" s with
  | Some s1 =>
      match strip_prefix_nocase "inity" s1 with
      | Some s2 => Some (NInf neg, s2)
      | None =>
          match strip_prefix_nocase "i" s1 with
          | Some _ => if pok then Some (NInf neg, s1) else None
          | None => Some (NInf neg, s1)
          end
      end
  | None => None
  end.

Definition Qsigned (neg : bool) (q : Q) : Q := if neg then (- q)%Q else q.

(** The subject sequence at the head of [s] (no white space is skipped). *)
Definition floatscan (pok : bool) (s : string) : option (number * string) :=
  let '(neg, s1) :=
    match s with
    | String "+" r => (false, r)
    | String "-" r => (true, r)
    | _ => (false, s)
    end in
  match strip_prefix_nocase "0x" s1 with
  | Some s2 =>
      match scan_mantissa xdigit_val 16 "p" 2 pok s2 with
      | Some (q, s3) => Some (NFin (Qsigned neg q), s3)
      | None =>
          (* strtod converts the zero and leaves the [x] unread *)
          match s1 with
          | String _ r => if pok then Some (NFin 0, r) else None
          | EmptyString => None
          end
      end
  | None =>
      match scan_mantissa digit_val 10 "e" 10 pok s1 with
      | Some (q, s3) => Some (NFin (Qsigned neg q), s3)
      | None =>
          match scan_inf pok neg s1 with
          | Some r => Some r
          | None => scan_nan pok s1
          end
      end
  end.

(** [atof(s)], that is [strtod(s, NULL)]: zero when nothing converts. *)
Definition atof (s : string) : number :=
  match floatscan true (skip_space s) with
  | Some (n, _) => to_double n
  | None => NFin 0
  end.

Definition EOF : Z := -1.

(** The [%f] and [%lf] directives: the number the input spells, before it
    is rounded to the type of the argument, and the unread input.
    [inl true] is an input failure (end of input), [inl false] a matching
    failure. *)
Definition scan_f (s : string) : bool + number * string :=
  match skip_space s with
  | EmptyString => inl true
  | s1 => match floatscan false s1 with
          | Some r => inr r
          | None => inl false
          end
  end.

(** [sscanf(s, "%lf", &d)]: the return value and what [d] receives. *)
Definition sscanf_lf (s : string) : Z * option number :=
  match scan_f s with
  | inr (d, _) => (1, Some (to_double d))
  | inl true => (EOF, None)
  | inl false => (0, None)
  end.

(** [sscanf(s, "%f %f %f", &v[0], &v[1], &v[2])]: the return value and the
    components assigned, in order.  The white space of the format matches any
    amount of white space, which the following [%f] would skip anyway. *)
Definition sscanf_fff (s : string) : Z * list number :=
  match scan_f s with
  | inl true => (EOF, [])
  | inl false => (0, [])
  | inr (x, s1) =>
      match scan_f (skip_space s1) with
      | inl _ => (1, [to_float x])
      | inr (y, s2) =>
          match scan_f (skip_space s2) with
          | inl _ => (2, [to_float x; to_float y])
          | inr (z, _) => (3, [to_float x; to_float y; to_float z])
          end
      end
  end.

(** [str_tonumber]: the static [d] when one number was scanned, else [NULL]. *)
Definition str_tonumber (s : string) : option number :=
  match sscanf_lf s with
  | (1, Some d) => Some d
  | _ => None
  end.

(** [str_tovector]: the static [v] when three numbers were scanned, else
    [NULL]. *)
Definition str_tovector (s : string) : option vec3_t :=
  match sscanf_fff s with
  | (3, [x; y; z]) => Some (x, y, z)
  | _ => None
  end.

(** What [sscanf(s, "%lf", &d)] leaves unread after a successful conversion. *)
Definition str_tonumber_rest (s : string) : option string :=
  match scan_f s with
  | inr (_, r) => Some r
  | inl _ => None
  end.

(** ** Entity variables

    [entvars_t] is declared in a header that is not part of this file; its
    members and their types are the ones the accessor macros of
    [ED_mt_index] and [ED_mt_newindex] name.  The members are grouped by
    type: [float] members, [vec3_t] members, and the [int] members holding
    registry references ([string_t], [func_t] and edict references). *)
Module V.
Inductive float :=
| modelindex | ltime | lastruntime | movetype | solid | frame | skin
| effects | nextthink | health | frags | weapon | weaponframe
| currentammo | ammo_shells | ammo_nails | ammo_rockets | ammo_cells
| items | takedamage | deadflag | button0 | button1 | button2 | impulse
| fixangle | flags | colormap | team | max_health | teleport_time
| armortype | armorvalue | waterlevel | watertype | ideal_yaw
| yaw_speed | spawnflags | dmg_take | dmg_save | sounds.

Inductive vec :=
| absmin | absmax | origin | oldorigin | velocity | angles | avelocity
| mins | maxs | size | view_ofs | v_angle | movedir.

Inductive int :=
| classname | model | touch | use | think | blocked | groundentity
| weaponmodel | chain | netname | enemy | aiment | goalentity | target
| targetname | dmg_inflictor | owner | message | noise | noise1
| noise2 | noise3.

#[global] Instance float_eq_dec : EqDecision float.
Proof. solve_decision. Defined.
#[global] Instance vec_eq_dec : EqDecision vec.
Proof. solve_decision. Defined.
#[global] Instance int_eq_dec : EqDecision int.
Proof. solve_decision. Defined.

(** The stringification [#s] of the macros. *)
Definition float_name (s : float) : string :=
  match s with
  | modelindex => "modelindex"
  | ltime => "ltime"
  | lastruntime => "lastruntime"
  | movetype => "movetype"
  | solid => "solid"
  | frame => "frame"
  | skin => "skin"
  | effects => "effects"
  | nextthink => "nextthink"
  | health => "health"
  | frags => "frags"
  | weapon => "weapon"
  | weaponframe => "weaponframe"
  | currentammo => "currentammo"
  | ammo_shells => "ammo_shells"
  | ammo_nails => "ammo_nails"
  | ammo_rockets => "ammo_rockets"
  | ammo_cells => "ammo_cells"
  | items => "items"
  | takedamage => "takedamage"
  | deadflag => "deadflag"
  | button0 => "button0"
  | button1 => "button1"
  | button2 => "button2"
  | impulse => "impulse"
  | fixangle => "fixangle"
  | flags => "flags"
  | colormap => "colormap"
  | team => "team"
  | max_health => "max_health"
  | teleport_time => "teleport_time"
  | armortype => "armortype"
  | armorvalue => "armorvalue"
  | waterlevel => "waterlevel"
  | watertype => "watertype"
  | ideal_yaw => "ideal_yaw"
  | yaw_speed => "yaw_speed"
  | spawnflags => "spawnflags"
  | dmg_take => "dmg_take"
  | dmg_save => "dmg_save"
  | sounds => "sounds"
  end.

Definition vec_name (s : vec) : string :=
  match s with
  | absmin => "absmin"
  | absmax => "absmax"
  | origin => "origin"
  | oldorigin => "oldorigin"
  | velocity => "velocity"
  | angles => "angles"
  | avelocity => "avelocity"
  | mins => "mins"
  | maxs => "maxs"
  | size => "size"
  | view_ofs => "view_ofs"
  | v_angle => "v_angle"
  | movedir => "movedir"
  end.

Definition int_name (s : int) : string :=
  match s with
  | classname => "classname"
  | model => "model"
  | touch => "touch"
  | use => "use"
  | think => "think"
  | blocked => "blocked"
  | groundentity => "groundentity"
  | weaponmodel => "weaponmodel"
  | chain => "chain"
  | netname => "netname"
  | enemy => "enemy"
  | aiment => "aiment"
  | goalentity => "goalentity"
  | target => "target"
  | targetname => "targetname"
  | dmg_inflictor => "dmg_inflictor"
  | owner => "owner"
  | message => "message"
  | noise => "noise"
  | noise1 => "noise1"
  | noise2 => "noise2"
  | noise3 => "noise3"
  end.

End V.

Record entvars_t := {
  v_float : V.float -> number;
  v_vec : V.vec -> vec3_t;
  v_int : V.int -> Z }.

(** [memset(&e->v, 0, sizeof(entvars_t))] *)
Definition entvars_zero : entvars_t :=
  {| v_float := fun _ => NFin 0; v_vec := fun _ => vec3_origin; v_int := fun _ => 0 |}.

Definition set_float (s : V.float) (x : number) (ev : entvars_t) : entvars_t :=
  {| v_float := <[s := x]> (v_float ev); v_vec := v_vec ev; v_int := v_int ev |}.

Definition set_vec (s : V.vec) (x : vec3_t) (ev : entvars_t) : entvars_t :=
  {| v_float := v_float ev; v_vec := <[s := x]> (v_vec ev); v_int := v_int ev |}.

Definition set_int (s : V.int) (x : Z) (ev : entvars_t) : entvars_t :=
  {| v_float := v_float ev; v_vec := v_vec ev; v_int := <[s := x]> (v_int ev) |}.

(** ** Edicts and the server

    [edict_t] and [server_t] are declared in headers that are not part of
    this file; the members below are the ones this file uses.  [area_linked]
    stands for the [area] link of the edict in the world's area lists. *)
Record edict_t := {
  free : bool;
  area_linked : bool;
  freetime : number;
  v : entvars_t;
  ref : Z;
  fields : Z }.

Definition set_free (b : bool) (e : edict_t) : edict_t :=
  {| free := b; area_linked := area_linked e; freetime := freetime e;
     v := v e; ref := ref e; fields := fields e |}.

Definition set_area_linked (b : bool) (e : edict_t) : edict_t :=
  {| free := free e; area_linked := b; freetime := freetime e;
     v := v e; ref := ref e; fields := fields e |}.

Definition set_freetime (t : number) (e : edict_t) : edict_t :=
  {| free := free e; area_linked := area_linked e; freetime := t;
     v := v e; ref := ref e; fields := fields e |}.

Definition set_v (ev : entvars_t) (e : edict_t) : edict_t :=
  {| free := free e; area_linked := area_linked e; freetime := freetime e;
     v := ev; ref := ref e; fields := fields e |}.

Definition set_ref (r : Z) (e : edict_t) : edict_t :=
  {| free := free e; area_linked := area_linked e; freetime := freetime e;
     v := v e; ref := r; fields := fields e |}.

Definition set_fields (r : Z) (e : edict_t) : edict_t :=
  {| free := free e; area_linked := area_linked e; freetime := freetime e;
     v := v e; ref := ref e; fields := r |}.

Inductive server_state_t := ss_dead | ss_loading | ss_active.

#[global] Instance server_state_eq_dec : EqDecision server_state_t.
Proof. solve_decision. Defined.

Record server_t := {
  state : server_state_t;
  time : Q;
  num_edicts : Z;
  edicts : list edict_t }.

Definition set_num_edicts (n : Z) (s : server_t) : server_t :=
  {| state := state s; time := time s; num_edicts := n; edicts := edicts s |}.

Definition set_edicts (es : list edict_t) (s : server_t) : server_t :=
  {| state := state s; time := time s; num_edicts := num_edicts s; edicts := es |}.

Definition set_time (t : Q) (s : server_t) : server_t :=
  {| state := state s; time := t; num_edicts := num_edicts s; edicts := edicts s |}.

(** ** Global variables of the program

    [globalvars_t] is declared in a header that is not part of this file.
    Its [int] members are registry references (the entities [self], [other]
    and [world], the string [mapname], and the entry points found by
    [PR_LoadProgs]); the others are [float]. *)
Module G.
Inductive int :=
| self | other | world | mapname
| main | StartFrame | PlayerPreThink | PlayerPostThink | ClientKill
| ClientConnect | PutClientInServer | ClientDisconnect | SetNewParms
| SetChangeParms.

Inductive float :=
| time | force_retouch | serverflags | total_secrets | total_monsters
| found_secrets | killed_monsters
| parm1 | parm2 | parm3 | parm4 | parm5 | parm6 | parm7 | parm8 | parm9.

#[global] Instance int_eq_dec : EqDecision int.
Proof. solve_decision. Defined.
#[global] Instance float_eq_dec : EqDecision float.
Proof. solve_decision. Defined.

Definition int_name (s : int) : string :=
  match s with
  | self => "self" | other => "other" | world => "world"
  | mapname => "mapname" | main => "main" | StartFrame => "StartFrame"
  | PlayerPreThink => "PlayerPreThink" | PlayerPostThink => "PlayerPostThink"
  | ClientKill => "ClientKill" | ClientConnect => "ClientConnect"
  | PutClientInServer => "PutClientInServer"
  | ClientDisconnect => "ClientDisconnect" | SetNewParms => "SetNewParms"
  | SetChangeParms => "SetChangeParms"
  end.

Definition float_name (s : float) : string :=
  match s with
  | time => "time" | force_retouch => "force_retouch"
  | serverflags => "serverflags" | total_secrets => "total_secrets"
  | total_monsters => "total_monsters" | found_secrets => "found_secrets"
  | killed_monsters => "killed_monsters"
  | parm1 => "parm1" | parm2 => "parm2" | parm3 => "parm3"
  | parm4 => "parm4" | parm5 => "parm5" | parm6 => "parm6"
  | parm7 => "parm7" | parm8 => "parm8" | parm9 => "parm9"
  end.
End G.

Record globalvars_t := {
  g_int : G.int -> Z;
  g_float : G.float -> number }.

Definition set_g_int (s : G.int) (x : Z) (g : globalvars_t) : globalvars_t :=
  {| g_int := <[s := x]> (g_int g); g_float := g_float g |}.

Definition set_g_float (s : G.float) (x : number) (g : globalvars_t) : globalvars_t :=
  {| g_int := g_int g; g_float := <[s := x]> (g_float g) |}.

(** ** The process state: the globals [L], [sv] and [pr_global_struct], and
    what [Con_Printf] has written. *)
Record World := {
  L : lua_State;
  sv : server_t;
  pr_global_struct : globalvars_t;
  console : list string }.

Definition set_L (l : lua_State) (w : World) : World :=
  {| L := l; sv := sv w; pr_global_struct := pr_global_struct w; console := console w |}.

Definition set_sv (s : server_t) (w : World) : World :=
  {| L := L w; sv := s; pr_global_struct := pr_global_struct w; console := console w |}.

Definition set_pr_global_struct (g : globalvars_t) (w : World) : World :=
  {| L := L w; sv := sv w; pr_global_struct := g; console := console w |}.

Definition Con_Printf (msg : string) (w : World) : World :=
  {| L := L w; sv := sv w; pr_global_struct := pr_global_struct w;
     console := console w ++ [msg] |}.

(** Dereferencing an [edict_t *]; a pointer outside the array is a fault. *)
Definition edict_at (p : nat) (w : World) : result edict_t :=
  match edicts (sv w) !! p with
  | Some e => Ok e
  | None => Fault
  end.

Definition put_edict (p : nat) (e : edict_t) (w : World) : World :=
  set_sv (set_edicts (<[p := e]> (edicts (sv w))) (sv w)) w.

(** Runs on the edict [p] points to a function of the edict and the Lua
    state, and stores what it returns. *)
Definition on_edict (f : edict_t -> lua_State -> result (edict_t * lua_State))
    (p : nat) (w : World) : result World :=
  e ← edict_at p w;
  '(e', l') ← f e (L w);
  Ok (put_edict p e' (set_L l' w)).

(** Modelled from the spec: [SV_UnlinkEdict], the spatial linking
    collaborator (world.c is not part of this file): "unlink(edict) ...
    idempotent if already unlinked". *)
Definition SV_UnlinkEdict (e : edict_t) : edict_t := set_area_linked false e.

(** ** Clearing, allocating and freeing edicts *)

(** [ED_EnsureFields]; [p] is the pointer [ed] itself, stored in the
    userdata. *)
Definition ED_EnsureFields (p : nat) (ed : edict_t) (l : lua_State)
  : result (edict_t * lua_State) :=
  '(ed1, l1) ←
    (if ref ed =? 0 then
       (* lua_newuserdata; *ud = ed; lua_setmetatable "edict_t" *)
       let l1 := lua_push (LEdict p) l in
       '(r, l2) ← luaL_ref l1;
       Ok (set_ref r ed, l2)
     else Ok (ed, l));
  if fields ed1 =? 0 then
    let l2 := lua_newtable l1 in
    '(r, l3) ← luaL_ref l2;
    Ok (set_fields r ed1, l3)
  else Ok (ed1, l1).

(** [ED_ClearEdict] *)
Definition ED_ClearEdict (p : nat) (e : edict_t) (l : lua_State)
  : result (edict_t * lua_State) :=
  let e := set_free false e in
  let e := set_v entvars_zero e in
  let l := if fields e =? 0 then l else luaL_unref (fields e) l in
  let e := set_fields 0 e in
  ED_EnsureFields p e l.

(** [FREE_REF(n)] *)
Definition FREE_REF (n : V.int) (el : edict_t * lua_State) : edict_t * lua_State :=
  let '(e, l) := el in
  if v_int (v e) n =? 0 then (e, l)
  else (set_v (set_int n 0 (v e)) e, luaL_unref (v_int (v e) n) l).

(** The members [ED_Free] releases, in the order of the source. *)
Definition ED_Free_refs : list V.int :=
  [V.classname; V.model; V.touch; V.use; V.think; V.blocked; V.weaponmodel;
   V.netname; V.target; V.targetname; V.message; V.noise; V.noise1;
   V.noise2; V.noise3].

(** The [FREE_REF] of the members of [ns], in order. *)
Definition free_refs (ns : list V.int) (el : edict_t * lua_State) : edict_t * lua_State :=
  foldl (fun el n => FREE_REF n el) el ns.

(** The body of [ED_Free] on the edict [e] points to, at time [sv.time]. *)
Definition ED_Free_edict (now : Q) (e : edict_t) (l : lua_State)
  : result (edict_t * lua_State) :=
  let e := SV_UnlinkEdict e in
  let '(e, l) := free_refs ED_Free_refs (e, l) in
  let e := set_free true e in
  let e := set_v (set_int V.model 0 (v e)) e in
  let e := set_v (set_float V.takedamage (NFin 0) (v e)) e in
  let e := set_v (set_float V.modelindex (NFin 0) (v e)) e in
  let e := set_v (set_float V.colormap (NFin 0) (v e)) e in
  let e := set_v (set_float V.skin (NFin 0) (v e)) e in
  let e := set_v (set_float V.frame (NFin 0) (v e)) e in
  let e := set_v (set_vec V.origin vec3_origin (v e)) e in
  let e := set_v (set_vec V.angles vec3_origin (v e)) e in
  let e := set_v (set_float V.nextthink (NFin (-1)) (v e)) e in
  let e := set_v (set_float V.solid (NFin 0) (v e)) e in
  let e := set_freetime (to_float (NFin now)) e in
  Ok (e, l).

(** [ED_Free] *)
Definition ED_Free (p : nat) (w : World) : result World :=
  on_edict (ED_Free_edict (time (sv w))) p w.

Section Store.

(** [MAX_CLIENTS] and [MAX_EDICTS] are defined in a header that is not part
    of this file. *)
Variables MAX_CLIENTS MAX_EDICTS : Z.

(** [EDICT_NUM] *)
Definition EDICT_NUM (n : Z) : result nat :=
  if (n <? 0) || (n >=? MAX_EDICTS) then Fatal "EDICT_NUM: bad number %i"
  else Ok (Z.to_nat n).

(** [e->freetime < 2 || sv.time - e->freetime > 0.5]: the [float] stamp is
    compared with 2, and the difference is the one of two [double]. *)
Definition cooled (now : Q) (stamp : number) : bool :=
  num_ltb stamp (NFin 2) || num_ltb (NFin 0.5) (to_double (num_sub (NFin now) stamp)).

(** The test of the scan of [ED_Alloc] on one edict. *)
Definition reusable (now : Q) (e : edict_t) : bool :=
  free e && cooled now (freetime e).

(** The loop of [ED_Alloc], from [i], for [n] more rounds: the value of [i]
    when the loop is left, and the edict it returns if it returns one. *)
Fixpoint ED_Alloc_scan (n : nat) (i : Z) (w : World) : result (Z * option nat) :=
  match n with
  | O => Ok (i, None)
  | S n' =>
      p ← EDICT_NUM i;
      e ← edict_at p w;
      if reusable (time (sv w)) e then Ok (i, Some p)
      else ED_Alloc_scan n' (i + 1) w
  end.

(** [ED_Alloc] *)
Definition ED_Alloc (w : World) : result (nat * World) :=
  '(i, found) ← ED_Alloc_scan (Z.to_nat (num_edicts (sv w) - (MAX_CLIENTS + 1)))
                               (MAX_CLIENTS + 1) w;
  match found with
  | Some p =>
      w ← on_edict (ED_ClearEdict p) p w;
      Ok (p, w)
  | None =>
      '(i, w) ←
        (if i =? MAX_EDICTS then
           let w := Con_Printf "WARNING: ED_Alloc: no free edicts" w in
           let i := i - 1 in
           p ← EDICT_NUM i;
           w ← on_edict (fun e l => Ok (SV_UnlinkEdict e, l)) p w;
           Ok (i, w)
         else Ok (i, set_sv (set_num_edicts (num_edicts (sv w) + 1) (sv w)) w));
      p ← EDICT_NUM i;
      w ← on_edict (ED_ClearEdict p) p w;
      Ok (p, w)
  end.

End Store.

(** ** Setting a field from text *)

(** [PR_SetString] *)
Definition PR_SetString (s : string) (l : lua_State) : result (Z * lua_State) :=
  luaL_ref (lua_pushstring s l).

Definition newline : ascii := "010"%char.
Definition backslash : ascii := "\"%char.

(** The loop of [ED_SetField] that rewrites a backslash followed by [n] into
    a new line, in place: [prev] is [*(v - 1)] ([None] while [v == value]),
    [v] what is left to read, and [w] what has been written, last character
    first. *)
Fixpoint unescape_loop (prev : option ascii) (v0 : string) (w : list ascii) : string :=
  match v0 with
  | EmptyString => string_of_list_ascii (rev w)
  | String c v' =>
      if bool_decide (prev = Some backslash) && Ascii.eqb c "n"
      then unescape_loop (Some c) v' (newline :: tail w)
      else unescape_loop (Some c) v' (c :: w)
  end.

Definition unescape (value : string) : string := unescape_loop None value [].

(** Modelled from the spec: the macros [FIELD_FLOAT], [FIELD_STRING] and
    [FIELD_VEC] of [ED_SetField] are defined in a header that is not part of
    this file.  Each compares the key with the name of a native member and,
    when they are equal, stores the value there ("hot fields ... write the
    native block directly") and returns [true]: a [float] through [atof], a
    string as a new registry reference ([PR_SetString]), a vector through
    the three [%f] of [sscanf]. *)
Inductive field_macro :=
| FIELD_FLOAT (s : V.float)
| FIELD_STRING (s : V.int)
| FIELD_VEC (s : V.vec).

Definition field_macro_key (m : field_macro) : string :=
  match m with
  | FIELD_FLOAT s => V.float_name s
  | FIELD_STRING s => V.int_name s
  | FIELD_VEC s => V.vec_name s
  end.

(** The native fields of [ED_SetField], in the order of the source. *)
Definition ED_SetField_fields : list field_macro :=
  [FIELD_FLOAT V.sounds; FIELD_STRING V.classname; FIELD_STRING V.message;
   FIELD_VEC V.origin; FIELD_VEC V.angles; FIELD_STRING V.target;
   FIELD_STRING V.model; FIELD_STRING V.targetname;
   FIELD_FLOAT V.spawnflags; FIELD_FLOAT V.health].

(** [strcmp(key, #s) == 0] for the first macro of the list that matches. *)
Definition ED_SetField_native (key : string) : option field_macro :=
  find (fun m => String.eqb key (field_macro_key m)) ED_SetField_fields.

(** The components [sscanf] assigned overwrite the first ones of [old]. *)
Definition assign_vec (old : vec3_t) (ns : list number) : vec3_t :=
  let '(x, y, z) := old in
  match ns with
  | [] => (x, y, z)
  | [a] => (a, y, z)
  | [a; b] => (a, b, z)
  | a :: b :: c :: _ => (a, b, c)
  end.

(** [ED_SetField].  The value is unescaped in the caller's buffer; the
    source returns [true] on every path. *)
Definition ED_SetField (key value : string) (e : edict_t) (l : lua_State)
  : result (bool * edict_t * lua_State) :=
  (* badly unescape NL in value *)
  let value := unescape value in
  (* first handle C fields *)
  match ED_SetField_native key with
  | Some (FIELD_FLOAT s) =>
      Ok (true, set_v (set_float s (to_float (atof value)) (v e)) e, l)
  | Some (FIELD_STRING s) =>
      '(r, l) ← PR_SetString value l;
      Ok (true, set_v (set_int s r (v e)) e, l)
  | Some (FIELD_VEC s) =>
      Ok (true, set_v (set_vec s (assign_vec (v_vec (v e) s) (sscanf_fff value).2) (v e)) e, l)
  | None =>
      let l := lua_rawgeti_registry (fields e) l in
      let l := lua_pushstring key l in
      let l :=
        match str_tovector value with
        | Some vec =>
            let '(nvec, l) := PR_Vec3_New l in
            store_vec3 nvec vec l
        | None =>
            match str_tonumber value with
            | Some num => lua_pushnumber num l
            | None => lua_pushstring value l
            end
        end in
      l ← lua_rawset (-3) l;
      Ok (true, e, lua_pop 1 l)
  end.

(** ** Parsing an entity block *)

Definition first_char_is (c : ascii) (s : string) : bool :=
  match s with
  | String c' _ => Ascii.eqb c' c
  | EmptyString => false
  end.

Section Parser.

(** The tokenizer of common.c, which is not part of this file:
    [COM_Parse data] is the new position ([None] for [NULL]) and the token
    left in [com_token]. *)
Variable COM_Parse : string -> option string * string.

(** The [while (1)] loop of [ED_ParseEdict], bounded by [fuel] rounds: the
    position after the closing brace, [init], and the edict.  A token that
    does not fit the array it is copied into is a [Fault]. *)
Fixpoint ED_ParseEdict_loop (fuel : nat) (data : string) (init : bool)
    (e : edict_t) (l : lua_State) : result (option string * bool * edict_t * lua_State) :=
  match fuel with
  | O => NoFuel
  | S fuel =>
      (* parse key *)
      let '(data, com_token) := COM_Parse data in
      if first_char_is "}" com_token then Ok (data, init, e, l)
      else
        match data with
        | None => Fatal "ED_ParseEntity: EOF without closing brace"
        | Some data =>
            let '(com_token, anglehack) :=
              if String.eqb com_token "angle" then ("angles", true)
              else (com_token, false) in
            let com_token :=
              if String.eqb com_token "light" then "light_lev" else com_token in
            (* strcpy(keyname, com_token) with char keyname[256] *)
            if (256 <=? String.length com_token)%nat then Fault
            else
            let keyname := com_token in
            (* parse value *)
            let '(data, com_token) := COM_Parse data in
            match data with
            | None => Fatal "ED_ParseEntity: EOF without closing brace"
            | Some data =>
                if first_char_is "}" com_token
                then Fatal "ED_ParseEntity: closing brace without data"
                else
                  let init := true in
                  if first_char_is "_" keyname
                  then ED_ParseEdict_loop fuel data init e l
                  else
                    com_token ←
                      (if anglehack then
                         (* strcpy(temp, com_token) with char temp[32] *)
                         if (32 <=? String.length com_token)%nat then Fault
                         else Ok ("0 " ++ com_token ++ " 0")
                       else Ok com_token);
                    '(ok, e, l) ← ED_SetField keyname com_token e l;
                    if (ok : bool) then ED_ParseEdict_loop fuel data init e l
                    else Fatal "ED_ParseEdict: parse error, can't set field '%s' to '%s'"
            end
        end
  end.

(** [ED_ParseEdict]; [sv.edicts] is the pointer [0]. *)
Definition ED_ParseEdict (fuel : nat) (data : string) (ent : nat) (w : World)
  : result (option string * World) :=
  e ← edict_at ent w;
  (* clear it *)
  let e := if bool_decide (ent = 0%nat) then e else set_v entvars_zero e in
  '(data, init, e, l) ← ED_ParseEdict_loop fuel data false e (L w);
  let e := if (init : bool) then e else set_free true e in
  Ok (data, put_edict ent e (set_L l w)).

End Parser.

(** Modelled from the spec: the tokenizer [COM_Parse] of common.c, "a
    whitespace/comment-skipping tokenizer [that] yields one token per call;
    [{] opens a block, [}] closes it, any other token is alternately a key
    then a value".  White space is every character up to the space, a
    comment runs from two slashes to the end of the line, a token in double
    quotes is what stands between them, a brace is a token of its own, and
    any other token runs to the next white space or brace. *)
Definition quote : ascii := "034"%char.

Definition is_brace (c : ascii) : bool := Ascii.eqb c "{" || Ascii.eqb c "}".

Fixpoint com_quoted (s : string) : string * string :=
  match s with
  | EmptyString => (EmptyString, EmptyString)
  | String c r =>
      if Ascii.eqb c quote then (EmptyString, r)
      else let '(tok, r') := com_quoted r in (String c tok, r')
  end.

Fixpoint com_word (s : string) : string * string :=
  match s with
  | EmptyString => (EmptyString, EmptyString)
  | String c r =>
      if (nat_of_ascii c <=? 32)%nat || is_brace c then (EmptyString, s)
      else let '(tok, r') := com_word r in (String c tok, r')
  end.

Fixpoint COM_Parse_from (comment : bool) (s : string) : option string * string :=
  match s with
  | EmptyString => (None, EmptyString)
  | String c r =>
      if comment then COM_Parse_from (negb (Ascii.eqb c newline)) r
      else if (nat_of_ascii c <=? 32)%nat then COM_Parse_from false r
      else if Ascii.eqb c "/" && first_char_is "/" r then COM_Parse_from true r
      else if Ascii.eqb c quote then
        let '(tok, r') := com_quoted r in (Some r', tok)
      else if is_brace c then (Some r, String c EmptyString)
      else let '(tok, r') := com_word r in (Some r', String c tok)
  end.

Definition COM_Parse_spec (data : string) : option string * string :=
  COM_Parse_from false data.

(** ** The entity bridge: the metamethods of ["edict_t"] userdata *)

(** Conversion of a [float] to [int]: the fraction is discarded, and C
    leaves the conversion undefined ([None]) when the integer is not a
    value of [int], which has 32 bits, or the number is not finite. *)
Definition int_of_number (n : number) : option Z :=
  match n with
  | NFin q =>
      let z := Z.quot (Qnum q) (Zpos (Qden q)) in
      if (- 2 ^ 31 <=? z) && (z <? 2 ^ 31) then Some z else None
  | _ => None
  end.

(** A string Lua converts to a number: a numeral and nothing else. *)
Definition lua_str2number (s : string) : option number :=
  match scan_f s with
  | inr (NFin q, r) =>
      match skip_space r with
      | EmptyString => Some (to_double (NFin q))
      | _ => None
      end
  | _ => None
  end.

Definition luaL_checknumber3 (l : lua_State) : result number :=
  match lua_index 3 l with
  | Some (LNumber n) => Ok n
  | Some (LString s) =>
      match lua_str2number s with
      | Some n => Ok n
      | None => LuaError "number expected"
      end
  | Some _ => LuaError "number expected"
  | None => Fault
  end.

(** The macros of [ED_mt_index], applied to a member of [entvars_t]. *)
Inductive push_macro :=
| PUSH_BOOLEAN (s : V.float)
| PUSH_FLOAT (s : V.float)
| PUSH_REF (s : V.int)
| PUSH_VEC3 (s : V.vec).

Definition push_macro_key (m : push_macro) : string :=
  match m with
  | PUSH_BOOLEAN s | PUSH_FLOAT s => V.float_name s
  | PUSH_REF s => V.int_name s
  | PUSH_VEC3 s => V.vec_name s
  end.

(** The native fields of [ED_mt_index], in the order of the source. *)
Definition ED_mt_index_fields : list push_macro :=
  [PUSH_FLOAT V.modelindex; PUSH_VEC3 V.absmin; PUSH_VEC3 V.absmax;
   PUSH_FLOAT V.ltime; PUSH_FLOAT V.lastruntime; PUSH_FLOAT V.movetype;
   PUSH_FLOAT V.solid; PUSH_VEC3 V.origin; PUSH_VEC3 V.oldorigin;
   PUSH_VEC3 V.velocity; PUSH_VEC3 V.angles; PUSH_VEC3 V.avelocity;
   PUSH_REF V.classname; PUSH_REF V.model; PUSH_FLOAT V.frame;
   PUSH_FLOAT V.skin; PUSH_FLOAT V.effects; PUSH_VEC3 V.mins;
   PUSH_VEC3 V.maxs; PUSH_VEC3 V.size; PUSH_REF V.touch; PUSH_REF V.use;
   PUSH_REF V.think; PUSH_REF V.blocked; PUSH_FLOAT V.nextthink;
   PUSH_REF V.groundentity; PUSH_FLOAT V.health; PUSH_FLOAT V.frags;
   PUSH_FLOAT V.weapon; PUSH_REF V.weaponmodel; PUSH_FLOAT V.weaponframe;
   PUSH_FLOAT V.currentammo; PUSH_FLOAT V.ammo_shells;
   PUSH_FLOAT V.ammo_nails; PUSH_FLOAT V.ammo_rockets;
   PUSH_FLOAT V.ammo_cells; PUSH_FLOAT V.items; PUSH_FLOAT V.takedamage;
   PUSH_REF V.chain; PUSH_FLOAT V.deadflag; PUSH_VEC3 V.view_ofs;
   PUSH_FLOAT V.button0; PUSH_FLOAT V.button1; PUSH_FLOAT V.button2;
   PUSH_FLOAT V.impulse; PUSH_BOOLEAN V.fixangle; PUSH_VEC3 V.v_angle;
   PUSH_REF V.netname; PUSH_REF V.enemy; PUSH_FLOAT V.flags;
   PUSH_FLOAT V.colormap; PUSH_FLOAT V.team; PUSH_FLOAT V.max_health;
   PUSH_FLOAT V.teleport_time; PUSH_FLOAT V.armortype;
   PUSH_FLOAT V.armorvalue; PUSH_FLOAT V.waterlevel; PUSH_FLOAT V.watertype;
   PUSH_FLOAT V.ideal_yaw; PUSH_FLOAT V.yaw_speed; PUSH_REF V.aiment;
   PUSH_REF V.goalentity; PUSH_FLOAT V.spawnflags; PUSH_REF V.target;
   PUSH_REF V.targetname; PUSH_FLOAT V.dmg_take; PUSH_FLOAT V.dmg_save;
   PUSH_REF V.dmg_inflictor; PUSH_REF V.owner; PUSH_VEC3 V.movedir;
   PUSH_REF V.message; PUSH_FLOAT V.sounds; PUSH_REF V.noise;
   PUSH_REF V.noise1; PUSH_REF V.noise2; PUSH_REF V.noise3].

(** [strcmp(key, #s) == 0] for the first macro of the list that matches. *)
Definition ED_mt_index_native (key : string) : option push_macro :=
  find (fun m => String.eqb key (push_macro_key m)) ED_mt_index_fields.

(** What a [PUSH_*] macro pushes when its key matches. *)
Definition push_field (m : push_macro) (ent : edict_t) (l : lua_State)
  : result lua_State :=
  match m with
  | PUSH_BOOLEAN s =>
      (* the [float] is converted to the [int] parameter *)
      match int_of_number (v_float (v ent) s) with
      | Some b => Ok (lua_pushboolean (negb (b =? 0)) l)
      | None => Fault
      end
  | PUSH_FLOAT s => Ok (lua_pushnumber (v_float (v ent) s) l)
  | PUSH_REF s =>
      if v_int (v ent) s =? 0 then Ok (lua_pushnil l)
      else Ok (lua_rawgeti_registry (v_int (v ent) s) l)
  | PUSH_VEC3 s => Ok (PR_Vec3_Push (v_vec (v ent) s) l)
  end.

(** [ED_mt_index]: called with the userdata at index 1 and the key at index
    2; the one value it returns is left on the top of the stack. *)
Definition ED_mt_index (w : World) : result World :=
  e ← luaL_checkudata_edict 1 (L w);
  key ← lua_tostring 2 (L w);
  ent ← edict_at e w;
  (* first handle C fields *)
  match ED_mt_index_native key with
  | Some m =>
      l ← push_field m ent (L w);
      Ok (set_L l w)
  | None =>
      let l := lua_rawgeti_registry (fields ent) (L w) in
      let l := lua_pushstring key l in
      l ← lua_rawget (-2) l;
      l ← lua_remove (-2) l;
      Ok (set_L l w)
  end.

(** The macros of [ED_mt_newindex]. *)
Inductive set_macro :=
| SET_BOOLEAN (s : V.float)
| SET_FLOAT (s : V.float)
| SET_VEC3 (s : V.vec)
| SET_REF (s : V.int)
| SET_EDICT (s : V.int).

Definition set_macro_key (m : set_macro) : string :=
  match m with
  | SET_BOOLEAN s | SET_FLOAT s => V.float_name s
  | SET_VEC3 s => V.vec_name s
  | SET_REF s | SET_EDICT s => V.int_name s
  end.

(** The native fields of [ED_mt_newindex], in the order of the source. *)
Definition ED_mt_newindex_fields : list set_macro :=
  [SET_FLOAT V.modelindex; SET_VEC3 V.absmin; SET_VEC3 V.absmax;
   SET_FLOAT V.ltime; SET_FLOAT V.lastruntime; SET_FLOAT V.movetype;
   SET_FLOAT V.solid; SET_VEC3 V.origin; SET_VEC3 V.oldorigin;
   SET_VEC3 V.velocity; SET_VEC3 V.angles; SET_VEC3 V.avelocity;
   SET_REF V.classname; SET_REF V.model; SET_FLOAT V.frame;
   SET_FLOAT V.skin; SET_FLOAT V.effects; SET_VEC3 V.mins; SET_VEC3 V.maxs;
   SET_VEC3 V.size; SET_REF V.touch; SET_REF V.use; SET_REF V.think;
   SET_REF V.blocked; SET_FLOAT V.nextthink; SET_EDICT V.groundentity;
   SET_FLOAT V.health; SET_FLOAT V.frags; SET_FLOAT V.weapon;
   SET_REF V.weaponmodel; SET_FLOAT V.weaponframe; SET_FLOAT V.currentammo;
   SET_FLOAT V.ammo_shells; SET_FLOAT V.ammo_nails;
   SET_FLOAT V.ammo_rockets; SET_FLOAT V.ammo_cells; SET_FLOAT V.items;
   SET_FLOAT V.takedamage; SET_EDICT V.chain; SET_FLOAT V.deadflag;
   SET_VEC3 V.view_ofs; SET_FLOAT V.button0; SET_FLOAT V.button1;
   SET_FLOAT V.button2; SET_FLOAT V.impulse; SET_BOOLEAN V.fixangle;
   SET_VEC3 V.v_angle; SET_REF V.netname; SET_EDICT V.enemy;
   SET_FLOAT V.flags; SET_FLOAT V.colormap; SET_FLOAT V.team;
   SET_FLOAT V.max_health; SET_FLOAT V.teleport_time; SET_FLOAT V.armortype;
   SET_FLOAT V.armorvalue; SET_FLOAT V.waterlevel; SET_FLOAT V.watertype;
   SET_FLOAT V.ideal_yaw; SET_FLOAT V.yaw_speed; SET_EDICT V.aiment;
   SET_EDICT V.goalentity; SET_FLOAT V.spawnflags; SET_REF V.target;
   SET_REF V.targetname; SET_FLOAT V.dmg_take; SET_FLOAT V.dmg_save;
   SET_EDICT V.dmg_inflictor; SET_EDICT V.owner; SET_VEC3 V.movedir;
   SET_REF V.message; SET_FLOAT V.sounds; SET_REF V.noise; SET_REF V.noise1;
   SET_REF V.noise2; SET_REF V.noise3].

Definition ED_mt_newindex_native (key : string) : option set_macro :=
  find (fun m => String.eqb key (set_macro_key m)) ED_mt_newindex_fields.

(** What a [SET_*] macro does when its key matches; the value assigned is
    at index 3.  [e2] of [SET_EDICT] is dereferenced in [w]. *)
Definition set_field (m : set_macro) (w : World) (ent : edict_t) (l : lua_State)
  : result (edict_t * lua_State) :=
  match m with
  | SET_BOOLEAN s =>
      match lua_index 3 l with
      | Some (LBoolean b) =>
          Ok (set_v (set_float s (NFin (if b then 1 else 0)) (v ent)) ent, l)
      | Some _ => LuaError "boolean expected"
      | None => Fault
      end
  | SET_FLOAT s =>
      n ← luaL_checknumber3 l;
      (* the [lua_Number], a [double], is stored in a [float] *)
      Ok (set_v (set_float s (to_float n) (v ent)) ent, l)
  | SET_VEC3 s =>
      a ← PR_Vec3_ToVec 3 l;
      match vectors l !! a with
      | Some x => Ok (set_v (set_vec s x (v ent)) ent, l)
      | None => Fault
      end
  | SET_REF s =>
      let l := if v_int (v ent) s =? 0 then l else luaL_unref (v_int (v ent) s) l in
      let ent := set_v (set_int s 0 (v ent)) ent in
      if lua_isnil 3 l then Ok (ent, l)
      else
        l ← lua_pushvalue 3 l;
        '(r, l) ← luaL_ref l;
        Ok (set_v (set_int s r (v ent)) ent, l)
  | SET_EDICT s =>
      let ent := set_v (set_int s 0 (v ent)) ent in
      if lua_isnil 3 l then Ok (ent, l)
      else
        e2 ← luaL_checkudata_edict 3 l;
        ent2 ← edict_at e2 w;
        Ok (set_v (set_int s (ref ent2) (v ent)) ent, l)
  end.

(** [ED_mt_newindex]: called with the userdata at index 1, the key at index
    2 and the value at index 3; it returns no value. *)
Definition ED_mt_newindex (w : World) : result World :=
  e ← luaL_checkudata_edict 1 (L w);
  key ← lua_tostring 2 (L w);
  (* first handle C fields *)
  match ED_mt_newindex_native key with
  | Some m => on_edict (set_field m w) e w
  | None =>
      ent ← edict_at e w;
      let l := lua_rawgeti_registry (fields ent) (L w) in
      let l := lua_pushstring key l in
      (* deep copy of vec3_t when assigning *)
      l ← (if luaL_testudata_vec3 3 l then
             ovec ← PR_Vec3_ToVec 3 l;
             let '(nvec, l) := PR_Vec3_New l in
             memcpy_vec3 nvec ovec l
           else lua_pushvalue 3 l);
      l ← lua_rawset (-3) l;
      Ok (set_L (lua_pop 1 l) w)
  end.

(** ** Running a function of the program *)

(** Modelled from the spec: the macros [PUSH_GREF], [PUSH_GFLOAT] and
    [GET_GFLOAT] are defined in a header that is not part of this file.
    They "publish ... into the scripting global namespace" a member of
    [pr_global_struct] under its own name, and read one back "from the
    scripting namespace ... into native context". *)
Definition PUSH_GREF (s : G.int) (w : World) : result World :=
  let l := lua_rawgeti_registry (g_int (pr_global_struct w) s) (L w) in
  l ← lua_setglobal (G.int_name s) l;
  Ok (set_L l w).

Definition PUSH_GFLOAT (s : G.float) (w : World) : result World :=
  let l := lua_pushnumber (g_float (pr_global_struct w) s) (L w) in
  l ← lua_setglobal (G.float_name s) l;
  Ok (set_L l w).

Definition lua_tonumber (idx : Z) (l : lua_State) : number :=
  match lua_index idx l with
  | Some (LNumber n) => n
  | Some (LString s) => default (NFin 0) (lua_str2number s)
  | _ => NFin 0
  end.

Definition GET_GFLOAT (s : G.float) (w : World) : result World :=
  let l := lua_getglobal (G.float_name s) (L w) in
  let x := lua_tonumber (-1) l in
  Ok (set_pr_global_struct (set_g_float s (to_float x) (pr_global_struct w))
        (set_L (lua_pop 1 l) w)).

(** Runs the steps of [ms] in order, stopping at the first that fails. *)
Definition run_all {A} (f : A -> World -> result World) (ms : list A) (w : World)
  : result World :=
  foldl (fun r m => w ← r; f m w) (Ok w) ms.

Definition parms : list G.float :=
  [G.parm1; G.parm2; G.parm3; G.parm4; G.parm5; G.parm6; G.parm7; G.parm8; G.parm9].

Section Exec.

Variable MAX_EDICTS : Z.

(** What calling the Lua function [f] with no argument does to the process:
    [Ok] when [lua_pcall] returns [LUA_OK], [LuaError] with the error message
    when it returns another status. *)
Variable lua_call : nat -> World -> result World.

(** [lua_pcall(L, 0, 0, 0)]: pops the function on the top of the stack and
    calls it. *)
Definition lua_pcall (w : World) : result World :=
  match stack (L w) with
  | LFunction f :: s => lua_call f (set_L (set_stack s (L w)) w)
  | _ => Fault
  end.

(** [PR_ExecuteProgram] *)
Definition PR_ExecuteProgram (fnum : Z) (w : World) : result World :=
  (* if thinking without a valid function, we still get called *)
  if fnum =? 0 then Ok w
  else if fnum <? 0
  then Fatal "PR_ExecuteProgram(%d) got invalid fnum, this is a bug."
  else
    let w := set_L (lua_rawgeti_registry fnum (L w)) w in
    if negb (lua_isfunction (-1) (L w))
    then Fatal "PR_ExecuteProgram(%d) did not get a function, got '%s' instead"
    else
      w ←
        (if bool_decide (state (sv w) = ss_loading) then
           p ← EDICT_NUM MAX_EDICTS 0;
           world ← edict_at p w;
           if ref world =? 0 then
             w ← on_edict (ED_EnsureFields p) p w;
             world ← edict_at p w;
             let g := pr_global_struct w in
             let g := set_g_int G.self (ref world) g in
             let g := set_g_int G.other (ref world) g in
             let g := set_g_int G.world (ref world) g in
             let w := set_pr_global_struct g w in
             w ← PUSH_GREF G.world w;
             w ← PUSH_GREF G.mapname w;
             w ← PUSH_GFLOAT G.serverflags w;
             (* push them but we ignore the values for now *)
             w ← PUSH_GFLOAT G.total_secrets w;
             w ← PUSH_GFLOAT G.total_monsters w;
             w ← PUSH_GFLOAT G.found_secrets w;
             PUSH_GFLOAT G.killed_monsters w
           else Ok w
         else Ok w);
      w ←
        (if fnum =? g_int (pr_global_struct w) G.StartFrame
         then GET_GFLOAT G.force_retouch w else Ok w);
      if g_int (pr_global_struct w) G.self =? 0
      then Fatal "Executing a function with zero self, this is a bug."
      else
        (* self and other always need to be pushed *)
        w ← PUSH_GREF G.self w;
        w ← PUSH_GREF G.other w;
        w ← PUSH_GFLOAT G.force_retouch w;
        w ← PUSH_GFLOAT G.time w;
        w ←
          (if fnum =? g_int (pr_global_struct w) G.PutClientInServer
           then run_all PUSH_GFLOAT parms w else Ok w);
        w ←
          match lua_pcall w with
          | LuaError msg => Fatal msg
          | r => r
          end;
        if (fnum =? g_int (pr_global_struct w) G.SetChangeParms)
           || (fnum =? g_int (pr_global_struct w) G.SetNewParms)
        then run_all GET_GFLOAT parms w
        else Ok w.

End Exec.

(** ** Concrete states used by the examples *)

Definition lua_empty : lua_State :=
  {| stack := []; registry := ∅; tables := ∅; vectors := ∅; globals := ∅ |}.

(** An edict as the zeroed memory of [sv.edicts] holds it. *)
Definition edict_zero : edict_t :=
  {| free := false; area_linked := false; freetime := NFin 0; v := entvars_zero;
     ref := 0; fields := 0 |}.

Definition globals_zero : globalvars_t :=
  {| g_int := fun _ => 0; g_float := fun _ => NFin 0 |}.

(** A server at time [t] with [n] edicts in use out of [es]. *)
Definition world_of (st : server_state_t) (t : Q) (n : Z) (es : list edict_t) : World :=
  {| L := lua_empty;
     sv := {| state := st; time := t; num_edicts := n; edicts := es |};
     pr_global_struct := globals_zero;
     console := [] |}.

(** An edict freed at time [t]. *)
Definition edict_freed (t : Q) : edict_t :=
  set_freetime (to_float (NFin t)) (set_free true edict_zero).

(** ** Statements *)

(** The members of [entvars_t] that hold the reference of another edict
    (the ones [ED_mt_newindex] sets with [SET_EDICT]). *)
Definition edict_refs : list V.int :=
  [V.groundentity; V.chain; V.enemy; V.aiment; V.goalentity; V.dmg_inflictor;
   V.owner].

(** The [float] members [ED_Free] resets. *)
Definition ED_Free_floats : list V.float :=
  [V.takedamage; V.modelindex; V.colormap; V.skin; V.frame; V.nextthink; V.solid].

(** What [ED_Free] establishes: [e] and [w] are the edict and the process
    before the call, [e'] and [w'] after it. *)
Definition ED_Free_post (w : World) (e : edict_t) (w' : World) (e' : edict_t) : Prop :=
  area_linked e' = false /\
  Forall (fun n => v_int (v e') n = 0 /\ live (v_int (v e) n) (L w') = false)
         ED_Free_refs /\
  Forall (fun n => v_int (v e') n = v_int (v e) n) edict_refs /\
  (* no other reference is released, and nothing else of Lua changes *)
  (forall h, Forall (fun n => v_int (v e) n <> h) ED_Free_refs ->
     live h (L w') = live h (L w) /\ registry_get h (L w') = registry_get h (L w)) /\
  stack (L w') = stack (L w) /\ tables (L w') = tables (L w) /\
  vectors (L w') = vectors (L w) /\ globals (L w') = globals (L w) /\
  (* the userdata and the table of the edict stay its own *)
  ref e' = ref e /\ fields e' = fields e /\
  (* the other members keep their value *)
  (forall s, s ∉ ED_Free_floats -> v_float (v e') s = v_float (v e) s) /\
  (forall s, s ∉ [V.origin; V.angles] -> v_vec (v e') s = v_vec (v e) s) /\
  v_int (v e') V.model = 0 /\
  v_float (v e') V.takedamage = NFin 0 /\
  v_float (v e') V.modelindex = NFin 0 /\
  v_float (v e') V.colormap = NFin 0 /\
  v_float (v e') V.skin = NFin 0 /\
  v_float (v e') V.frame = NFin 0 /\
  v_vec (v e') V.origin = vec3_origin /\
  v_vec (v e') V.angles = vec3_origin /\
  v_float (v e') V.solid = NFin 0 /\
  v_float (v e') V.nextthink = NFin (-1) /\
  free e' = true /\
  freetime e' = to_float (NFin (time (sv w))).

Section StoreStatements.

Variables MAX_CLIENTS MAX_EDICTS : Z.

(** No edict that the scan of [ED_Alloc] visits can be reused. *)
Definition none_reusable (w : World) : Prop :=
  forall j : nat, MAX_CLIENTS < Z.of_nat j < num_edicts (sv w) ->
    exists ej, edicts (sv w) !! j = Some ej /\ reusable (time (sv w)) ej = false.

(** [ED_Alloc] returned [p] from its scan: [p] is the first edict above the
    clients' that is free and either was freed before time 2 or has been
    free for more than half a second. *)
Definition alloc_by_scan (w : World) (p : nat) (w' : World) : Prop :=
  Z.of_nat p < num_edicts (sv w) /\
  (exists e, edicts (sv w) !! p = Some e /\ free e = true /\
             cooled (time (sv w)) (freetime e) = true) /\
  (forall j : nat, MAX_CLIENTS < Z.of_nat j < Z.of_nat p ->
     exists ej, edicts (sv w) !! j = Some ej /\ reusable (time (sv w)) ej = false) /\
  num_edicts (sv w') = num_edicts (sv w) /\
  console w' = console w.

(** [ED_Alloc] took one more edict into use. *)
Definition alloc_by_growth (w : World) (p : nat) (w' : World) : Prop :=
  none_reusable w /\
  Z.of_nat p = Z.max (MAX_CLIENTS + 1) (num_edicts (sv w)) /\
  Z.of_nat p < MAX_EDICTS /\
  num_edicts (sv w') = num_edicts (sv w) + 1 /\
  console w' = console w.

(** [ED_Alloc] stepped on the last edict, whatever its state. *)
Definition alloc_by_eviction (w : World) (p : nat) (w' : World) : Prop :=
  none_reusable w /\
  Z.max (MAX_CLIENTS + 1) (num_edicts (sv w)) = MAX_EDICTS /\
  Z.of_nat p = MAX_EDICTS - 1 /\
  num_edicts (sv w') = num_edicts (sv w) /\
  console w' = (console w ++ ["WARNING: ED_Alloc: no free edicts"])%list /\
  (exists e', edicts (sv w') !! p = Some e' /\ area_linked e' = false).

(** What [ED_Alloc] establishes when it returns [p]. *)
Definition ED_Alloc_post (w : World) (p : nat) (w' : World) : Prop :=
  MAX_CLIENTS < Z.of_nat p /\
  (exists e', edicts (sv w') !! p = Some e' /\ free e' = false /\ v e' = entvars_zero) /\
  (alloc_by_scan w p w' \/ alloc_by_growth w p w' \/ alloc_by_eviction w p w').

(** Calls of [ED_Alloc] and [ED_Free], and the clock of the server moving
    between them. *)
Inductive store_op :=
| OpAlloc
| OpFree (p : nat)
| OpTime (t : Q).

Definition store_step (o : store_op) (w : World) : result World :=
  match o with
  | OpAlloc => '(_, w') ← ED_Alloc MAX_CLIENTS MAX_EDICTS w; Ok w'
  | OpFree p => ED_Free p w
  | OpTime t => Ok (set_sv (set_time t (sv w)) w)
  end.

Fixpoint store_run (ops : list store_op) (w : World) : result World :=
  match ops with
  | [] => Ok w
  | o :: ops => w' ← store_step o w; store_run ops w'
  end.

Definition frees (p : nat) (o : store_op) : bool :=
  match o with
  | OpFree q => (p =? q)%nat
  | _ => false
  end.

End StoreStatements.

(** The edict a call returned. *)
Definition returned {A B} (r : result (A * B)) : option A :=
  match r with
  | Ok (a, _) => Some a
  | _ => None
  end.

(** ** Example states *)

(** Six edicts, all in use, on a server with two clients. *)
Definition six_in_use (t : Q) (n : Z) : World :=
  world_of ss_active t n (replicate 6 edict_zero).

(** Four edicts: the world, a client whose userdata has the reference 2, a
    spare one, and a monster whose [classname] is the reference 1 and whose
    [enemy] is the client. *)
Definition monster_lua : lua_State :=
  {| stack := [];
     registry := {[ 1%positive := LString "monster_dog"; 2%positive := LEdict 1 ]};
     tables := ∅; vectors := ∅; globals := ∅ |}.

Definition monster_edict : edict_t :=
  {| free := false; area_linked := true; freetime := NFin 0;
     v := set_int V.enemy 2 (set_int V.classname 1 entvars_zero);
     ref := 0; fields := 0 |}.

Definition monster_world : World :=
  {| L := monster_lua;
     sv := {| state := ss_active; time := 5; num_edicts := 4;
              edicts := [edict_zero; set_ref 2 edict_zero; edict_zero; monster_edict] |};
     pr_global_struct := globals_zero;
     console := [] |}.

(** The process a call leaves behind; [w] itself when the call fails. *)
Definition world_after (w : World) (r : result World) : World :=
  match r with
  | Ok w' => w'
  | _ => w
  end.

Definition world_after_alloc (w : World) (r : result (nat * World)) : World :=
  match r with
  | Ok (_, w') => w'
  | _ => w
  end.

(** The edict at [p] after a call. *)
Definition edict_after (p : nat) (r : result World) : option edict_t :=
  match r with
  | Ok w' => edicts (sv w') !! p
  | _ => None
  end.

(** An edict freed at time 3 is scanned at time 3.2, when [ED_Alloc] grows
    the store instead, and handed out at time 4. *)
Definition cooldown_ops : list store_op := [OpTime 3.2; OpAlloc; OpTime 4].
Definition cooldown_w0 : World := six_in_use 3 5.
Definition cooldown_w1 : World := world_after cooldown_w0 (ED_Free 4 cooldown_w0).
Definition cooldown_w2 : World :=
  world_after cooldown_w1 (store_run 2 6 cooldown_ops cooldown_w1).
Definition cooldown_w3 : World :=
  world_after_alloc cooldown_w2 (ED_Alloc 2 6 cooldown_w2).

(** An edict freed at time 1.75, and the clock then at 2. *)
Definition warmup_w1 : World :=
  let w := world_after (six_in_use 1.75 5) (ED_Free 4 (six_in_use 1.75 5)) in
  set_sv (set_time 2 (sv w)) w.

(** ** Statements on the entity bridge *)

(** The stack of a C function called from Lua with [args], first argument
    at index 1. *)
Definition call_args (args : list lua_value) (w : World) : World :=
  set_L (set_stack (rev args) (L w)) w.

(** What [ent[key]] evaluates to: the value [ED_mt_index] returns. *)
Definition field_value (p : nat) (key : string) (w : World) : option lua_value :=
  match ED_mt_index (call_args [LEdict p; LString key] w) with
  | Ok w' => head (stack (L w'))
  | _ => None
  end.

(** The components of the vector [ent[key]] evaluates to. *)
Definition field_vector (p : nat) (key : string) (w : World) : option vec3_t :=
  match ED_mt_index (call_args [LEdict p; LString key] w) with
  | Ok w' =>
      match stack (L w') with
      | LVec3 a :: _ => vectors (L w') !! a
      | _ => None
      end
  | _ => None
  end.

(** A script writing [x] into the vector userdata at [a]. *)
Definition write_vector (a : nat) (x : vec3_t) (w : World) : World :=
  set_L (vec3_write a x (L w)) w.

(** The registry once the reference [h] is released. *)
Definition released (h : Z) (reg : gmap positive lua_value) : gmap positive lua_value :=
  match h with
  | Zpos q => delete q reg
  | _ => reg
  end.

(** A member set with [SET_REF]: the reference it held is released, and
    then, unless the value is [nil], a reference to the value is made in the
    registry so left and stored. *)
Definition SET_REF_post (s : V.int) (x : lua_value) (w : World) (e : edict_t)
    (w' : World) (e' : edict_t) : Prop :=
  let reg := released (v_int (v e) s) (registry (L w)) in
  match x with
  | LNil => v_int (v e') s = 0 /\ registry (L w') = reg
  | _ => exists h, v_int (v e') s = Zpos h /\ reg !! h = None /\
                   registry (L w') = <[h := x]> reg
  end.

(** A member set with [SET_EDICT]: the registry is left as it is, and the
    member becomes zero for [nil] and the reference the assigned edict
    already has otherwise. *)
Definition SET_EDICT_post (s : V.int) (x : lua_value) (w : World) (e : edict_t)
    (w' : World) (e' : edict_t) : Prop :=
  registry (L w') = registry (L w) /\
  match x with
  | LNil => v_int (v e') s = 0
  | LEdict q => exists e2, edicts (sv w) !! q = Some e2 /\ v_int (v e') s = ref e2
  | _ => False
  end.

(** The values [SET_EDICT] accepts; [SET_REF] accepts every value. *)
Definition assignable (s : V.int) (x : lua_value) (w : World) : bool :=
  if bool_decide (s ∈ edict_refs) then
    match x with
    | LNil => true
    | LEdict q => bool_decide (is_Some (edicts (sv w) !! q))
    | _ => false
    end
  else true.

(** ** Statements on the text parser *)

(** What the design says of the type of a value: "tried in order: (a) parse
    as a three-component whitespace-separated vector; (b) parse as a single
    floating-point number; (c) otherwise treat as an opaque string". *)
Inductive inferred :=
| AsVector (vec : vec3_t)
| AsNumber (num : number)
| AsString (s : string).

Definition infer (value : string) : inferred :=
  match str_tovector value with
  | Some vec => AsVector vec
  | None =>
      match str_tonumber value with
      | Some num => AsNumber num
      | None => AsString value
      end
  end.

(** The overflow table [a] of an edict, which was [t], holds [x] under
    [key] in [l']; a vector is a new userdata. *)
Definition overflow_holds (a : nat) (t : gmap string lua_value) (key : string)
    (x : inferred) (l l' : lua_State) : Prop :=
  match x with
  | AsVector vec =>
      let nv := fresh (dom (vectors l)) in
      tables l' !! a = Some (<[key := LVec3 nv]> t) /\
      vectors l' = <[nv := vec]> (vectors l)
  | AsNumber num =>
      tables l' !! a = Some (<[key := LNumber num]> t) /\ vectors l' = vectors l
  | AsString s =>
      tables l' !! a = Some (<[key := LString s]> t) /\ vectors l' = vectors l
  end.

(** What the design says of a key/value pair: the field assignment it
    amounts to, if any.  "A key literally equal to "angle" is renamed to
    "angles" and its single scalar value is expanded to a three-component
    vector of the form (0, value, 0); a key literally equal to "light" is
    renamed to "light_lev".  Keys beginning with an underscore are silently
    discarded". *)
Definition legacy_pair (key value : string) : option (string * string) :=
  if first_char_is "_" key then None
  else if String.eqb key "angle" then Some ("angles", "0 " ++ value ++ " 0")
  else if String.eqb key "light" then Some ("light_lev", value)
  else Some (key, value).

(** The pairs the arrays of [ED_ParseEdict] have room for: a key of at most
    255 characters for [keyname[256]], and a value of at most 31 characters
    for [temp[32]] when the key is "angle". *)
Definition pair_fits (p : string * string) : bool :=
  negb (256 <=? String.length p.1)%nat &&
  (if String.eqb p.1 "angle" then negb (32 <=? String.length p.2)%nat else true).

Definition fits (ps : list (string * string)) : bool := forallb pair_fits ps.

(** The field assignments of a list of pairs, in order. *)
Fixpoint assign_pairs (ps : list (string * string)) (e : edict_t) (l : lua_State)
  : result (edict_t * lua_State) :=
  match ps with
  | [] => Ok (e, l)
  | (key, value) :: ps =>
      match legacy_pair key value with
      | None => assign_pairs ps e l
      | Some (k, x) =>
          '(_, e, l) ← ED_SetField k x e l;
          assign_pairs ps e l
      end
  end.

Section ParserStatements.

Variable COM_Parse : string -> option string * string.

(** The tokenizer reads, from [data], the keys and values [ps] and then a
    closing brace, which leaves it at [data']. *)
Fixpoint reads_block (data : string) (ps : list (string * string)) (data' : option string)
  : Prop :=
  match ps with
  | [] =>
      (COM_Parse data).1 = data' /\ first_char_is "}" (COM_Parse data).2 = true
  | (key, value) :: ps =>
      match COM_Parse data with
      | (Some d1, k) =>
          k = key /\ first_char_is "}" k = false /\
          match COM_Parse d1 with
          | (Some d2, x) =>
              x = value /\ first_char_is "}" x = false /\ reads_block d2 ps data'
          | (None, _) => False
          end
      | (None, _) => False
      end
  end.

End ParserStatements.

(** The [free] flag of the edict [ED_ParseEdict] filled. *)
Definition parsed_free {A} (ent : nat) (r : result (A * World)) : option bool :=
  match r with
  | Ok (_, w') => free <$> edicts (sv w') !! ent
  | _ => None
  end.

Definition is_ok {A} (r : result A) : bool :=
  match r with Ok _ => true | _ => false end.

(** An edict as [ED_Alloc] hands it out, with its userdata and its overflow
    table, in an otherwise empty Lua state. *)
Definition spawned : edict_t * lua_State :=
  match ED_ClearEdict 1 edict_zero lua_empty with
  | Ok el => el
  | _ => (edict_zero, lua_empty)
  end.

(** The world and one spawned edict. *)
Definition spawned_world : World :=
  {| L := spawned.2;
     sv := {| state := ss_active; time := 5; num_edicts := 2;
              edicts := [edict_zero; spawned.1] |};
     pr_global_struct := globals_zero;
     console := [] |}.

(** ** Statements on running a function *)

(** The first call while the server is loading and the world has no userdata
    yet: [PR_ExecuteProgram] makes the world [self]. *)
Definition bootstrap (w : World) : bool :=
  bool_decide (state (sv w) = ss_loading) &&
  match edicts (sv w) !! 0%nat with
  | Some world => ref world =? 0
  | None => true
  end.

(** The processes differ in the globals of Lua only. *)
Definition same_but_globals (w w' : World) : Prop :=
  sv w' = sv w /\ pr_global_struct w' = pr_global_struct w /\
  console w' = console w /\ stack (L w') = stack (L w) /\
  registry (L w') = registry (L w) /\ tables (L w') = tables (L w) /\
  vectors (L w') = vectors (L w).

(** What the first call of a loading server has done when it calls the
    function, in the process [w1]: the world of [w], which had no userdata,
    is [world'], with a userdata under the reference [r], which was not in
    use, and an overflow table; [self], [other] and [world] are [r], and
    the world is published under these three names. *)
Definition made_self (w : World) (world : edict_t) (r : Z) (world' : edict_t)
    (w1 : World) : Prop :=
  0 < r /\ live r (L w) = false /\
  registry_get r (L w1) = LEdict 0 /\
  edicts (sv w1) = <[0%nat := world']> (edicts (sv w)) /\
  ref world' = r /\ fields world' <> 0 /\ v world' = v world /\
  free world' = free world /\
  g_int (pr_global_struct w1) G.self = r /\
  g_int (pr_global_struct w1) G.other = r /\
  g_int (pr_global_struct w1) G.world = r /\
  globals (L w1) !! "self" = Some (LEdict 0) /\
  globals (L w1) !! "other" = Some (LEdict 0) /\
  globals (L w1) !! "world" = Some (LEdict 0) /\
  stack (L w1) = stack (L w).

(** The block [classname "foo" origin "1 2 3" _note "x" angle "90"}], as
    [ED_LoadFromFile] hands it to [ED_ParseEdict] once the opening brace is
    read, and its pairs. *)
Definition quoted (s : string) : string :=
  String quote s ++ String quote EmptyString.

Definition example_block : string :=
  "classname " ++ quoted "foo" ++ " origin " ++ quoted "1 2 3" ++
  " _note " ++ quoted "x" ++ " angle " ++ quoted "90" ++ "}".

Definition example_pairs : list (string * string) :=
  [("classname", "foo"); ("origin", "1 2 3"); ("_note", "x"); ("angle", "90")].

(** A block whose angle is spelled with 32 characters, one more than
    [temp[32]] has room for beside its terminator. *)
Definition long_angle : string := "90.00000000000000000000000000000".

Definition long_angle_block : string := "angle " ++ quoted long_angle ++ "}".

(** What [ED_ParseEdict] makes of [example_block] for the edict 1 of
    [spawned_world]: it returns at the end of the text, and the edict has the
    class name "foo", the origin (1, 2, 3) and the angles (0, 90, 0), no
    field [_note], and is in use. *)
Definition example_parsed (r : result (option string * World)) : Prop :=
  match r with
  | Ok (data', w') =>
      data' = Some EmptyString /\
      match edicts (sv w') !! 1%nat with
      | Some e' =>
          registry_get (v_int (v e') V.classname) (L w') = LString "foo" /\
          v_vec (v e') V.origin = (NFin 1, NFin 2, NFin 3) /\
          v_vec (v e') V.angles = (NFin 0, NFin 90, NFin 0) /\
          field_value 1 "_note" w' = Some LNil /\
          free e' = false
      | None => False
      end
  | _ => False
  end.

(** A script clearing the [enemy] of the monster: [monster.enemy = nil]. *)
Definition monster_forgets : result World :=
  ED_mt_newindex (call_args [LEdict 3; LString "enemy"; LNil] monster_world).

(** A script naming the monster: [monster.classname = "monster_cat"]. *)
Definition monster_renamed : World :=
  call_args [LEdict 3; LString "classname"; LString "monster_cat"] monster_world.



(** A server that is loading: the world has no userdata yet, [self] is
    unset, and the reference 1 is a function of the program. *)
Definition loading_world : World :=
  {| L := {| stack := []; registry := {[ 1%positive := LFunction 0 ]};
             tables := ∅; vectors := ∅; globals := ∅ |};
     sv := {| state := ss_loading; time := 0; num_edicts := 1;
              edicts := [edict_zero; edict_zero] |};
     pr_global_struct := globals_zero;
     console := [] |}.

(** The same server when the function under the reference 1 is
    [StartFrame]: the first frame, run before the other edicts are
    initialized. *)
Definition first_frame_world : World :=
  set_pr_global_struct (set_g_int G.StartFrame 1 globals_zero) loading_world.

(** A function of the program that returns at once. *)
Definition returns_at_once (f : nat) (w : World) : result World := Ok w.

(** ** The other functions of the file *)

(** [NUM_FOR_EDICT]: the edict [e] points to is [p] edicts after
    [sv.edicts], that is [p * pr_edict_size] bytes. *)
Definition NUM_FOR_EDICT (pr_edict_size : Z) (p : nat) (w : World) : result Z :=
  let b := Z.of_nat p * pr_edict_size in
  let b := Z.quot b pr_edict_size in
  if (b <? 0) || (b >=? num_edicts (sv w)) then Fatal "NUM_FOR_EDICT: bad pointer"
  else Ok b.

(** [luaL_checkstring] on a string; the conversion of a number to its
    decimal spelling is not modelled. *)
Definition luaL_checkstring (idx : Z) (l : lua_State) : result string :=
  match lua_index idx l with
  | Some (LString s) => Ok s
  | Some (LNumber _) => Fault
  | Some _ => LuaError "string expected"
  | None => Fault
  end.

(** [snprintf(buf, sizeof(buf), "%s", s)] with [char buf[256]]: at most 255
    characters of [s]. *)
Definition snprintf_256 (s : string) : string := String.substring 0 255 s.

(** [PR_GetString]: the text in the static buffer (or the empty literal). *)
Definition PR_GetString (num : Z) (l : lua_State) : result (string * lua_State) :=
  if num =? 0 then Ok (EmptyString, l)
  else
    let l := lua_rawgeti_registry num l in
    s ← luaL_checkstring (-1) l;
    let buf := snprintf_256 s in
    Ok (buf, lua_pop 1 l).

(** [PROG_TO_EDICT]: [None] is [NULL]. *)
Definition PROG_TO_EDICT (ref : Z) (l : lua_State) : result (option nat * lua_State) :=
  if ref =? 0 then Ok (None, l)
  else
    let l := lua_rawgeti_registry ref l in
    e ← luaL_checkudata_edict (-1) l;
    Ok (Some e, lua_pop 1 l).

(** [ED_FindFunction] *)
Definition ED_FindFunction (name : string) (w : World) : result (Z * World) :=
  let l := lua_getglobal name (L w) in
  if lua_isfunction (-1) l then
    '(r, l) ← luaL_ref l;
    Ok (r, set_L l w)
  else
    let w := Con_Printf "Did not find function '%s'" w in
    Ok (LUA_NOREF, set_L (lua_pop 1 l) w).

(** ** Loading the entities of a map *)

Section Loader.

(** [MAX_CLIENTS], [MAX_EDICTS] and the [SPAWNFLAG_] constants are defined
    in headers that are not part of this file; [deathmatch] is whether the
    variable [deathmatch.value] of the server is not zero. *)
Variables MAX_CLIENTS MAX_EDICTS : Z.
Variable COM_Parse : string -> option string * string.
Variable lua_call : nat -> World -> result World.
Variable deathmatch : bool.
Variables SPAWNFLAG_NOT_EASY SPAWNFLAG_NOT_MEDIUM SPAWNFLAG_NOT_HARD
  SPAWNFLAG_NOT_DEATHMATCH : Z.

Definition current_skill : Z := 0.

(** [((int) ent->v.spawnflags & flag)] as a condition. *)
Definition spawnflag (flag : Z) (e : edict_t) : result bool :=
  match int_of_number (v_float (v e) V.spawnflags) with
  | Some n => Ok (negb (Z.land n flag =? 0))
  | None => Fault
  end.

(** The loop of [ED_LoadFromFile] that makes sure every client has its
    userdata and its table. *)
Definition ED_LoadFromFile_clients (w : World) : result World :=
  run_all (fun i w => p ← EDICT_NUM MAX_EDICTS i; on_edict (ED_EnsureFields p) p w)
    (map Z.of_nat (seq 1 (Z.to_nat MAX_CLIENTS))) w.

(** A round of the loop of [ED_LoadFromFile] from the filters on, once
    [ED_ParseEdict] has filled [ent]: the count [inhibit] and the process.
    [SV_FlushSignon], which follows the call of the spawn function, works on
    the messages of the server, which are not part of this state. *)
Definition ED_LoadFromFile_spawn (ent : nat) (inhibit : Z) (w : World)
  : result (Z * World) :=
  e ← edict_at ent w;
  (* remove things from different skill levels or deathmatch; [&&] and
     [||] convert [spawnflags] only where they evaluate their operand *)
  remove ←
    (if deathmatch then spawnflag SPAWNFLAG_NOT_DEATHMATCH e
     else
       easy ← (if current_skill =? 0 then spawnflag SPAWNFLAG_NOT_EASY e
               else Ok false);
       if (easy : bool) then Ok true
       else
         medium ← (if current_skill =? 1 then spawnflag SPAWNFLAG_NOT_MEDIUM e
                   else Ok false);
         if (medium : bool) then Ok true
         else if current_skill >=? 2 then spawnflag SPAWNFLAG_NOT_HARD e
              else Ok false);
  if (remove : bool) then
    w ← ED_Free ent w;
    Ok (inhibit + 1, w)
  else
    (* immediately call spawn function *)
    if v_int (v e) V.classname =? 0 then
      let w := Con_Printf "No classname for:" w in
      w ← ED_Free ent w;
      Ok (inhibit, w)
    else
      (* look for the spawn function *)
      '(name, l) ← PR_GetString (v_int (v e) V.classname) (L w);
      let l := lua_getglobal name l in
      if negb (lua_isfunction (-1) l) then
        '(name, l) ← PR_GetString (v_int (v e) V.classname) l;
        let w := Con_Printf "No spawn function for '%s'" (set_L l w) in
        w ← ED_Free ent w;
        Ok (inhibit, set_L (lua_pop 1 (L w)) w)
      else
        let w := set_pr_global_struct
                   (set_g_int G.self (ref e) (pr_global_struct w)) (set_L l w) in
        '(r, l) ← luaL_ref (L w);
        w ← PR_ExecuteProgram MAX_EDICTS lua_call r (set_L l w);
        Ok (inhibit, set_L (luaL_unref r (L w)) w).

(** The [while (1)] loop of [ED_LoadFromFile], bounded by [fuel] rounds;
    [first] is [!ent], and [pfuel] bounds the loop of [ED_ParseEdict].  What
    [COM_Parse] does with the [NULL] that [ED_ParseEdict] may return is not
    given by this file. *)
Fixpoint ED_LoadFromFile_loop (fuel pfuel : nat) (data : option string) (first : bool)
    (inhibit : Z) (w : World) : result (Z * World) :=
  match fuel with
  | O => NoFuel
  | S fuel =>
      match data with
      | None => Fault
      | Some data =>
          (* parse the opening brace *)
          let '(data, com_token) := COM_Parse data in
          match data with
          | None => Ok (inhibit, w)
          | Some data =>
              if negb (first_char_is "{" com_token)
              then Fatal "ED_LoadFromFile: found %s when expecting {"
              else
                '(ent, w) ←
                  (if first then p ← EDICT_NUM MAX_EDICTS 0; Ok (p, w)
                   else ED_Alloc MAX_CLIENTS MAX_EDICTS w);
                '(data, w) ← ED_ParseEdict COM_Parse pfuel data ent w;
                '(inhibit, w) ← ED_LoadFromFile_spawn ent inhibit w;
                ED_LoadFromFile_loop fuel pfuel data false inhibit w
          end
      end
  end.

(** [ED_LoadFromFile]: the process it leaves and the number of entities
    inhibited, which it hands to [Con_DPrintf]. *)
Definition ED_LoadFromFile (fuel : nat) (data : string) (w : World)
  : result (Z * World) :=
  let w := Con_Printf "ED_LoadFromFile(data=%p)" w in
  (* XXX: this is a stupid place to do this *)
  w ← ED_LoadFromFile_clients w;
  (* parse ents *)
  ED_LoadFromFile_loop fuel fuel (Some data) true 0 w.

End Loader.

(** ** Further statements *)

(** A store as [SV_SpawnServer] sets it up: [MAX_EDICTS] edicts, of which
    the world, the clients' and possibly more are in use. *)
Definition store_ok (MAX_CLIENTS MAX_EDICTS : Z) (w : World) : Prop :=
  0 <= MAX_CLIENTS /\
  MAX_CLIENTS + 1 <= num_edicts (sv w) <= MAX_EDICTS /\
  length (edicts (sv w)) = Z.to_nat MAX_EDICTS.

(** The [OpFree] of [ops] are of edicts of the array. *)
Definition frees_in_range (MAX_EDICTS : Z) (ops : list store_op) : bool :=
  forallb (fun o => match o with
                    | OpFree p => Z.of_nat p <? MAX_EDICTS
                    | _ => true
                    end) ops.


(** The values a [SET_*] macro takes without raising a Lua error. *)
Definition accepts (m : set_macro) (x : lua_value) : bool :=
  match m, x with
  | SET_BOOLEAN _, LBoolean _ => true
  | SET_FLOAT _, LNumber _ => true
  | SET_FLOAT _, LString s => bool_decide (is_Some (lua_str2number s))
  | SET_VEC3 _, LVec3 _ => true
  | SET_REF _, _ => true
  | SET_EDICT _, (LNil | LEdict _) => true
  | _, _ => false
  end.

(** The scanner of numbers, by parts: the tests of [scanexp], [floatscan],
    [scan_mantissa] and [scan_nan] on one character. *)
Definition scan_sign (s : string) : bool * string :=
  match s with
  | String "+" r => (false, r)
  | String "-" r => (true, r)
  | _ => (false, s)
  end.

Definition scan_point (val : ascii -> option Z) (b : Z) (s : string)
  : Z * nat * string :=
  match s with
  | String "." r => scan_digits val b 0 0 r
  | _ => (0, 0%nat, s)
  end.

Definition scan_open (s : string) : option string :=
  match s with String "(" r => Some r | _ => None end.

Definition scan_close (s : string) : option string :=
  match s with String ")" r => Some r | _ => None end.

(** A backslash followed by [n] becomes a new line, from left to right. *)
Fixpoint replace_backslash_n (s : string) : string :=
  match s with
  | String c r =>
      match r with
      | String c' r' =>
          if Ascii.eqb c backslash && Ascii.eqb c' "n"
          then String newline (replace_backslash_n r')
          else String c (replace_backslash_n r)
      | EmptyString => String c EmptyString
      end
  | EmptyString => EmptyString
  end.

(** The tokenizer moves forward: what it leaves is shorter than what it
    was given. *)
Definition consumes (COM_Parse : string -> option string * string) : Prop :=
  forall data data' tok, COM_Parse data = (Some data', tok) ->
    (String.length data' < String.length data)%nat.

(** A script assigning 7 to the [health] of the spawned edict. *)
Definition health_assign : World :=
  call_args [LEdict 1; LString "health"; LNumber (NFin 7)] spawned_world.

(** A script assigning [true], and one assigning 1, to its [fixangle]. *)
Definition fixangle_assign (x : lua_value) : World :=
  call_args [LEdict 1; LString "fixangle"; x] spawned_world.

(** A script assigning the vector at the address 0 to its [velocity]. *)
Definition velocity_assign : World :=
  call_args [LEdict 1; LString "velocity"; LVec3 0]
    (set_L (PR_Vec3_Push (NFin 1, NFin 2, NFin 3) (L spawned_world)) spawned_world).


(** What the loop of [ED_ParseEdict] returns for [example_block] and the
    spawned edict. *)
Definition example_read : option string * bool * edict_t * lua_State :=
  match ED_ParseEdict_loop COM_Parse_spec 5 example_block false spawned.1 spawned.2 with
  | Ok r => r
  | _ => (None, false, edict_zero, lua_empty)
  end.

(** The Lua state a call left. *)
Definition lua_after {A} (l : lua_State) (r : result (A * lua_State)) : lua_State :=
  match r with
  | Ok (_, l') => l'
  | _ => l
  end.

(** The Lua state after the name "ogre" and then the name "knight" are made
    strings of the program. *)
Definition one_string : lua_State := lua_after lua_empty (PR_SetString "ogre" lua_empty).
Definition two_strings : lua_State := lua_after one_string (PR_SetString "knight" one_string).

(** A running server: the program has the function [think], which the
    reference 1 also names, and [self] is the client, whose userdata has the
    reference 2. *)
Definition running_world : World :=
  {| L := {| stack := [];
             registry := {[ 1%positive := LFunction 7; 2%positive := LEdict 1 ]};
             tables := ∅; vectors := ∅;
             globals := {[ "think" := LFunction 7 ]} |};
     sv := {| state := ss_active; time := 5; num_edicts := 2;
              edicts := [edict_zero; set_ref 2 edict_zero] |};
     pr_global_struct := set_g_int G.self 2 globals_zero;
     console := [] |}.

(** The names under which [PR_ExecuteProgram] publishes members of
    [pr_global_struct] before every call. *)
Definition published : list string := ["self"; "other"; "force_retouch"; "time"].

(** The process [w'] once the clients [1] to [k] of [w] have their userdata
    and their overflow table.  The edict of a client differs in the two
    references only, and in those it did not have: a new reference is one
    that was not in use, the one of the userdata holds the userdata of the
    edict, the one of the table a new, empty table, which no other client
    has.  The other edicts and the rest of the process are as they were:
    every entry of the registry and every table is kept. *)
Definition clients_ensured (k : nat) (w w' : World) : Prop :=
  sv w' = set_edicts (edicts (sv w')) (sv w) /\
  length (edicts (sv w')) = length (edicts (sv w)) /\
  pr_global_struct w' = pr_global_struct w /\
  console w' = console w /\
  stack (L w') = stack (L w) /\
  vectors (L w') = vectors (L w) /\
  globals (L w') = globals (L w) /\
  registry (L w) ⊆ registry (L w') /\
  tables (L w) ⊆ tables (L w') /\
  (forall i e, edicts (sv w) !! i = Some e ->
     exists e', edicts (sv w') !! i = Some e' /\
       if bool_decide (1 <= i <= k)%nat then
         free e' = free e /\ area_linked e' = area_linked e /\
         freetime e' = freetime e /\ v e' = v e /\
         (if ref e =? 0
          then live (ref e') (L w) = false /\ registry_get (ref e') (L w') = LEdict i
          else ref e' = ref e) /\
         (if fields e =? 0
          then live (fields e') (L w) = false /\
               exists a, registry_get (fields e') (L w') = LTable a /\
                 tables (L w) !! a = None /\ tables (L w') !! a = Some ∅
          else fields e' = fields e)
       else e' = e) /\
  (forall i j ei ej ei' ej' a,
     (1 <= i <= k)%nat -> (1 <= j <= k)%nat -> i <> j ->
     edicts (sv w) !! i = Some ei -> edicts (sv w) !! j = Some ej ->
     fields ei = 0 -> fields ej = 0 ->
     edicts (sv w') !! i = Some ei' -> edicts (sv w') !! j = Some ej' ->
     registry_get (fields ei') (L w') = LTable a ->
     registry_get (fields ej') (L w') <> LTable a).

(** A map of one entity, the world. *)
Definition example_map : string := "{ classname " ++ quoted "worldspawn" ++ " }".

(** The entity is removed for its spawn flags: in a deathmatch when it has
    the flag [NOT_DEATHMATCH], otherwise when it has the flag [NOT_EASY]. *)
Definition filtered (deathmatch : bool) (NOT_EASY NOT_DEATHMATCH : Z) (e : edict_t)
  : result bool :=
  spawnflag (if deathmatch then NOT_DEATHMATCH else NOT_EASY) e.

(** The entity has no class name, or one that is not the name of a function
    of the program. *)
Definition no_spawn_function (e : edict_t) (l : lua_State) : Prop :=
  v_int (v e) V.classname = 0 \/
  exists s, registry_get (v_int (v e) V.classname) l = LString s /\
    forall f, globals l !! snprintf_256 s <> Some (LFunction f).

(** A reference as [ED_FindFunction] returns it and the registry still has
    it: [LUA_NOREF] (or the 0 of a member that is not set), or a reference
    under which the registry holds a value. *)
Definition held (r : Z) (l : lua_State) : Prop := r <= 0 \/ live r l = true.

(** A running server with an entity of the class [monster_dog], for which
    the program has a spawn function; the userdata of the entity has the
    reference 2. *)
Definition spawning_edict : edict_t :=
  {| free := false; area_linked := false; freetime := NFin 0;
     v := set_int V.classname 1 entvars_zero; ref := 2; fields := 0 |}.

Definition spawning_world : World :=
  {| L := {| stack := [];
             registry := {[ 1%positive := LString "monster_dog"; 2%positive := LEdict 1 ]};
             tables := ∅; vectors := ∅;
             globals := {[ "monster_dog" := LFunction 7 ]} |};
     sv := {| state := ss_active; time := 5; num_edicts := 2;
              edicts := [edict_zero; spawning_edict] |};
     pr_global_struct := globals_zero;
     console := [] |}.

(** * Proofs *)
(** ** Releasing references *)

Lemma live_unref_same h l : live h (luaL_unref h l) = false.
Proof.
  destruct h as [|q|q]; simpl; try reflexivity.
  apply bool_decide_eq_false. rewrite lookup_delete_eq. intros [? ?]; discriminate.
Qed.

Lemma live_unref_mono r h l : live r (luaL_unref h l) = true -> live r l = true.
Proof.
  destruct h as [|q|q]; simpl; try done.
  destruct r as [|q'|q']; simpl; try done.
  rewrite !bool_decide_eq_true. intros [x Hx].
  apply lookup_delete_Some in Hx as [_ Hx]. by exists x.
Qed.

Lemma live_unref_ne r h l : r <> h -> live r (luaL_unref h l) = live r l.
Proof.
  intros Hne. destruct h as [|q|q]; simpl; try done.
  destruct r as [|q'|q']; simpl; try done.
  rewrite lookup_delete_ne; [done | congruence].
Qed.

Lemma FREE_REF_int n e l m :
  v_int (v (FREE_REF n (e, l)).1) m = if decide (n = m) then 0 else v_int (v e) m.
Proof.
  unfold FREE_REF. destruct (v_int (v e) n =? 0) eqn:Hz; simpl.
  - case_decide; [subst; lia | done].
  - case_decide; [subst; apply fn_lookup_insert | by apply fn_lookup_insert_ne].
Qed.

Lemma FREE_REF_lua n e l :
  (FREE_REF n (e, l)).2 = luaL_unref (v_int (v e) n) l.
Proof.
  unfold FREE_REF. destruct (v_int (v e) n =? 0) eqn:Hz; simpl; [|done].
  apply Z.eqb_eq in Hz. by rewrite Hz.
Qed.

(** What [FREE_REF] leaves alone. *)
Definition same_but_refs (e e' : edict_t) : Prop :=
  free e' = free e /\ area_linked e' = area_linked e /\ freetime e' = freetime e /\
  ref e' = ref e /\ fields e' = fields e /\
  v_float (v e') = v_float (v e) /\ v_vec (v e') = v_vec (v e).

Lemma free_refs_cons n ns el : free_refs (n :: ns) el = free_refs ns (FREE_REF n el).
Proof. reflexivity. Qed.

Lemma FREE_REF_frame n e l : same_but_refs e (FREE_REF n (e, l)).1.
Proof.
  unfold FREE_REF, same_but_refs. by destruct (v_int (v e) n =? 0).
Qed.

Lemma free_refs_frame ns e l : same_but_refs e (free_refs ns (e, l)).1.
Proof.
  revert e l. induction ns as [|n ns IH]; intros e l.
  - by unfold same_but_refs.
  - rewrite free_refs_cons.
    pose proof (FREE_REF_frame n e l) as F1.
    destruct (FREE_REF n (e, l)) as [e1 l1]. simpl in F1.
    specialize (IH e1 l1).
    unfold same_but_refs in *. intuition congruence.
Qed.

Lemma free_refs_live_mono ns e l r :
  live r (free_refs ns (e, l)).2 = true -> live r l = true.
Proof.
  revert e l. induction ns as [|n ns IH]; intros e l; [done|].
  rewrite free_refs_cons.
  pose proof (FREE_REF_lua n e l) as H2.
  destruct (FREE_REF n (e, l)) as [e1 l1]. intros H.
  apply IH in H. simpl in H2. subst l1. by apply live_unref_mono in H.
Qed.

Lemma free_refs_int_notin ns e l m :
  m ∉ ns -> v_int (v (free_refs ns (e, l)).1) m = v_int (v e) m.
Proof.
  revert e l. induction ns as [|n ns IH]; intros e l Hm; [done|].
  apply not_elem_of_cons in Hm as [Hne Hm].
  rewrite free_refs_cons.
  pose proof (FREE_REF_int n e l m) as H2.
  destruct (FREE_REF n (e, l)) as [e1 l1]. simpl in H2.
  rewrite IH by done. rewrite H2. by rewrite decide_False.
Qed.

Lemma free_refs_int_in ns e l m :
  m ∈ ns ->
  v_int (v (free_refs ns (e, l)).1) m = 0 /\
  live (v_int (v e) m) (free_refs ns (e, l)).2 = false.
Proof.
  revert e l. induction ns as [|n ns IH]; intros e l Hm.
  - by apply elem_of_nil in Hm.
  - rewrite free_refs_cons.
    pose proof (FREE_REF_int n e l m) as Hi.
    pose proof (FREE_REF_lua n e l) as Hl.
    destruct (FREE_REF n (e, l)) as [e1 l1]. simpl in Hi, Hl.
    destruct (decide (n = m)) as [->|Hne].
    + (* released by this step *)
      assert (live (v_int (v e) m) (free_refs ns (e1, l1)).2 = false) as Hdead.
      { destruct (live _ (free_refs ns (e1, l1)).2) eqn:Hlive; [|done].
        apply free_refs_live_mono in Hlive. subst l1.
        by rewrite live_unref_same in Hlive. }
      split; [|done].
      destruct (decide (m ∈ ns)) as [Hin|Hnot].
      * by apply IH.
      * by rewrite free_refs_int_notin.
    + apply elem_of_cons in Hm as [->|Hm]; [done|].
      destruct (IH e1 l1 Hm) as [IH1 IH2]. by rewrite Hi in IH2.
Qed.

(** A live reference that no released member holds stays live. *)
Lemma free_refs_live_other ns e l r :
  live r l = true ->
  Forall (fun n => v_int (v e) n <> r) ns ->
  live r (free_refs ns (e, l)).2 = true.
Proof.
  revert e l. induction ns as [|n ns IH]; intros e l Hr Hall; [done|].
  apply Forall_cons in Hall as [Hn Hall].
  rewrite free_refs_cons.
  pose proof (FREE_REF_lua n e l) as Hl.
  pose proof (fun m => FREE_REF_int n e l m) as Hi.
  destruct (FREE_REF n (e, l)) as [e1 l1]. simpl in Hi, Hl.
  apply IH.
  - subst l1. rewrite live_unref_ne; [done | congruence].
  - apply Forall_forall. intros m Hm. rewrite Hi. case_decide.
    + intros <-. by simpl in Hr.
    + by apply (proj1 (Forall_forall _ _) Hall).
Qed.

Lemma free_refs_lua_frame ns e l :
  let l' := (free_refs ns (e, l)).2 in
  stack l' = stack l /\ tables l' = tables l /\ vectors l' = vectors l /\
  globals l' = globals l.
Proof.
  revert e l. induction ns as [|n ns IH]; intros e l; [done|].
  rewrite free_refs_cons.
  pose proof (FREE_REF_lua n e l) as Hl.
  destruct (FREE_REF n (e, l)) as [e1 l1]. simpl in Hl.
  specialize (IH e1 l1). simpl in IH. simpl. subst l1.
  destruct (v_int (v e) n); simpl in IH; intuition congruence.
Qed.

(** An entry of the registry that no released member refers to stays. *)
Lemma free_refs_lookup_other ns e l q :
  Forall (fun n => v_int (v e) n <> Z.pos q) ns ->
  registry (free_refs ns (e, l)).2 !! q = registry l !! q.
Proof.
  revert e l. induction ns as [|n ns IH]; intros e l Hall; [done|].
  apply Forall_cons in Hall as [Hn Hall].
  rewrite free_refs_cons.
  pose proof (FREE_REF_lua n e l) as Hl.
  pose proof (fun m => FREE_REF_int n e l m) as Hi.
  destruct (FREE_REF n (e, l)) as [e1 l1]. simpl in Hi, Hl.
  rewrite IH.
  - subst l1. destruct (v_int (v e) n) as [|q'|q']; simpl; try done.
    rewrite lookup_delete_ne; [done|congruence].
  - apply Forall_forall. intros m Hm. rewrite Hi. case_decide; [done|].
    by apply (proj1 (Forall_forall _ _) Hall).
Qed.

Lemma free_refs_other ns e l h :
  Forall (fun n => v_int (v e) n <> h) ns ->
  live h (free_refs ns (e, l)).2 = live h l /\
  registry_get h (free_refs ns (e, l)).2 = registry_get h l.
Proof.
  intros Hall. destruct h as [|q|q]; try done. simpl.
  by rewrite free_refs_lookup_other.
Qed.

(** ** [ED_Free] *)

Lemma lookup_put_edict p e w :
  (p < length (edicts (sv w)))%nat -> edicts (sv (put_edict p e w)) !! p = Some e.
Proof. intros H. simpl. by apply list_lookup_insert_eq. Qed.

Lemma lookup_put_edict_ne p q e w :
  p <> q -> edicts (sv (put_edict p e w)) !! q = edicts (sv w) !! q.
Proof. intros H. simpl. by apply list_lookup_insert_ne. Qed.

Lemma ED_Free_spec p w e :
  edicts (sv w) !! p = Some e ->
  exists w' e', ED_Free p w = Ok w' /\ edicts (sv w') !! p = Some e' /\
                ED_Free_post w e w' e'.
Proof.
  intros He. unfold ED_Free, on_edict, edict_at. rewrite He. simpl.
  unfold ED_Free_edict.
  pose proof (free_refs_frame ED_Free_refs (SV_UnlinkEdict e) (L w)) as Hf.
  pose proof (fun m => free_refs_int_in ED_Free_refs (SV_UnlinkEdict e) (L w) m) as Hin.
  pose proof (fun m => free_refs_int_notin ED_Free_refs (SV_UnlinkEdict e) (L w) m) as Hout.
  pose proof (fun h => free_refs_other ED_Free_refs (SV_UnlinkEdict e) (L w) h) as Hoth.
  pose proof (free_refs_lua_frame ED_Free_refs (SV_UnlinkEdict e) (L w)) as Hlua.
  destruct (free_refs ED_Free_refs (SV_UnlinkEdict e, L w)) as [e1 l1].
  simpl in Hf, Hin, Hout, Hoth, Hlua. simpl.
  eexists _, _. split; [reflexivity|]. split.
  { apply list_lookup_insert_eq. by eapply lookup_lt_Some. }
  destruct Hf as (Hfree & Hlink & Hft & Href & Hfields & Hfl & Hvec).
  unfold ED_Free_post; simpl.
  split; [done|]. split.
  { apply Forall_forall. intros n Hn. destruct (Hin n Hn) as [H0 Hlive].
    split; [|done].
    destruct (decide (V.model = n)) as [<-|Hne];
      [apply fn_lookup_insert | by rewrite fn_lookup_insert_ne]. }
  split.
  { apply Forall_forall. intros n Hn.
    rewrite fn_lookup_insert_ne.
    - apply Hout. revert Hn. clear. unfold edict_refs, ED_Free_refs.
      rewrite !elem_of_cons, !elem_of_nil. intros H1 H2.
      intuition (subst; discriminate).
    - intros <-. revert Hn. clear. unfold edict_refs.
      rewrite !elem_of_cons, !elem_of_nil. intuition discriminate. }
  split; [exact Hoth|].
  destruct Hlua as (? & ? & ? & ?).
  split; [done|]. split; [done|]. split; [done|]. split; [done|].
  split; [done|]. split; [done|].
  split.
  { intros s Hs. unfold ED_Free_floats in Hs. rewrite !not_elem_of_cons in Hs.
    destruct Hs as (? & ? & ? & ? & ? & ? & ? & _).
    rewrite !fn_lookup_insert_ne by done. by rewrite Hfl. }
  split.
  { intros s Hs. rewrite !not_elem_of_cons in Hs. destruct Hs as (? & ? & _).
    rewrite !fn_lookup_insert_ne by done. by rewrite Hvec. }
  repeat split; reflexivity.
Qed.
(** ** Allocation *)

Lemma Qltb_lt x y : Qltb x y = true <-> (x < y)%Q.
Proof.
  unfold Qltb. rewrite negb_true_iff. split.
  - intros H. apply Qnot_le_lt. intros Hle.
    apply Qle_bool_iff in Hle. congruence.
  - intros H. destruct (Qle_bool y x) eqn:E; [|done].
    apply Qle_bool_iff in E. exfalso. by apply (Qlt_not_le _ _ H).
Qed.

Lemma reusable_true now e :
  reusable now e = true -> free e = true /\ cooled now (freetime e) = true.
Proof. unfold reusable. by rewrite andb_true_iff. Qed.

Lemma EDICT_NUM_Ok MAXE i p :
  EDICT_NUM MAXE i = Ok p -> 0 <= i < MAXE /\ p = Z.to_nat i.
Proof.
  unfold EDICT_NUM. destruct (_ || _) eqn:E; [done|].
  apply orb_false_iff in E as [E1 E2]. intros [= <-]. lia.
Qed.

Lemma EDICT_NUM_in MAXE i : 0 <= i < MAXE -> EDICT_NUM MAXE i = Ok (Z.to_nat i).
Proof.
  intros H. unfold EDICT_NUM.
  replace (i <? 0) with false by lia. by replace (i >=? MAXE) with false by lia.
Qed.

Lemma edict_at_Ok p w e : edict_at p w = Ok e -> edicts (sv w) !! p = Some e.
Proof. unfold edict_at. by destruct (_ !! _); intros [= ->]. Qed.

Lemma ED_Alloc_scan_spec MAXE n : forall i w j found,
  ED_Alloc_scan MAXE n i w = Ok (j, found) ->
  i <= j <= i + Z.of_nat n /\
  (forall k, i <= k < j ->
     exists ek, edicts (sv w) !! Z.to_nat k = Some ek /\
                reusable (time (sv w)) ek = false /\ 0 <= k) /\
  match found with
  | Some p => 0 <= j < i + Z.of_nat n /\ p = Z.to_nat j /\
              exists e, edicts (sv w) !! p = Some e /\ reusable (time (sv w)) e = true
  | None => j = i + Z.of_nat n
  end.
Proof.
  induction n as [|n IH]; intros i w j found; simpl.
  - intros [= <- <-]. repeat split; lia.
  - destruct (EDICT_NUM MAXE i) as [p| | | |] eqn:Hp; try done. simpl.
    apply EDICT_NUM_Ok in Hp as [Hi ->].
    destruct (edict_at (Z.to_nat i) w) as [e| | | |] eqn:He; try done. simpl.
    apply edict_at_Ok in He.
    destruct (reusable (time (sv w)) e) eqn:Hr.
    + intros [= <- <-].
      split; [lia|]. split; [lia|]. split; [lia|]. split; [done|]. by exists e.
    + intros H. apply IH in H as (Hj & Hbefore & Hfound).
      split; [lia|]. split.
      * intros k Hk. destruct (decide (k = i)) as [->|Hne].
        -- exists e. repeat split; try done. lia.
        -- apply Hbefore. lia.
      * destruct found; [|lia]. destruct Hfound as (? & ? & ?).
        repeat split; try done; lia.
Qed.

(** ** Clearing *)

Lemma ED_EnsureFields_spec p e l :
  exists e' l', ED_EnsureFields p e l = Ok (e', l') /\
    free e' = free e /\ area_linked e' = area_linked e /\
    freetime e' = freetime e /\ v e' = v e.
Proof.
  unfold ED_EnsureFields.
  destruct (ref e =? 0); simpl.
  - destruct (fields e =? 0); simpl; eauto 10.
  - destruct (fields e =? 0); simpl; eauto 10.
Qed.

Lemma ED_ClearEdict_spec p e l :
  exists e' l', ED_ClearEdict p e l = Ok (e', l') /\
    free e' = false /\ area_linked e' = area_linked e /\
    freetime e' = freetime e /\ v e' = entvars_zero.
Proof.
  unfold ED_ClearEdict.
  destruct (ED_EnsureFields_spec p
              (set_fields 0 (set_v entvars_zero (set_free false e)))
              (if fields (set_v entvars_zero (set_free false e)) =? 0 then l
               else luaL_unref (fields (set_v entvars_zero (set_free false e))) l))
    as (e' & l' & H & ? & ? & ? & ?).
  exists e', l'. by rewrite H.
Qed.

Lemma on_edict_Ok f p w w' :
  on_edict f p w = Ok w' ->
  exists e e' l', edicts (sv w) !! p = Some e /\ f e (L w) = Ok (e', l') /\
                  w' = put_edict p e' (set_L l' w).
Proof.
  unfold on_edict. destruct (edict_at p w) as [e| | | |] eqn:He; try done. simpl.
  apply edict_at_Ok in He.
  destruct (f e (L w)) as [[e' l']| | | |] eqn:Hf; try done. simpl.
  intros [= <-]. eauto 10.
Qed.

Lemma on_edict_ClearEdict p w w' :
  on_edict (ED_ClearEdict p) p w = Ok w' ->
  exists e e', edicts (sv w) !! p = Some e /\
    edicts (sv w') = <[p := e']> (edicts (sv w)) /\
    free e' = false /\ area_linked e' = area_linked e /\
    freetime e' = freetime e /\ v e' = entvars_zero /\
    num_edicts (sv w') = num_edicts (sv w) /\ time (sv w') = time (sv w) /\
    state (sv w') = state (sv w) /\
    console w' = console w /\ pr_global_struct w' = pr_global_struct w.
Proof.
  intros H. apply on_edict_Ok in H as (e & e' & l' & He & Hf & ->).
  destruct (ED_ClearEdict_spec p e (L w)) as (e2 & l2 & H2 & ?).
  rewrite H2 in Hf. injection Hf as <- <-.
  exists e, e2. simpl. intuition.
Qed.

Section Alloc.
Variables MAX_CLIENTS MAX_EDICTS : Z.

Lemma ED_Alloc_cases w p w' :
  ED_Alloc MAX_CLIENTS MAX_EDICTS w = Ok (p, w') ->
  (MAX_CLIENTS + 1 < MAX_EDICTS -> MAX_CLIENTS < Z.of_nat p) /\
  (exists e', edicts (sv w') !! p = Some e' /\ free e' = false /\ v e' = entvars_zero) /\
  (alloc_by_scan MAX_CLIENTS w p w' \/ alloc_by_growth MAX_CLIENTS MAX_EDICTS w p w' \/
   alloc_by_eviction MAX_CLIENTS MAX_EDICTS w p w').
Proof.
  unfold ED_Alloc.
  set (n := Z.to_nat (num_edicts (sv w) - (MAX_CLIENTS + 1))).
  destruct (ED_Alloc_scan MAX_EDICTS n (MAX_CLIENTS + 1) w)
    as [[i found]| | | |] eqn:Hscan; try done. simpl.
  apply ED_Alloc_scan_spec in Hscan as (Hi & Hbefore & Hfound).
  assert (Hnone : forall j : nat, MAX_CLIENTS < Z.of_nat j < i ->
            exists ej, edicts (sv w) !! j = Some ej /\
                       reusable (time (sv w)) ej = false).
  { intros j Hj. destruct (Hbefore (Z.of_nat j)) as (ej & H1 & H2 & _); [lia|].
    rewrite Nat2Z.id in H1. eauto. }
  destruct found as [q|].
  - (* the scan returned *)
    destruct Hfound as (Hj & -> & e & He & Hr).
    destruct (on_edict (ED_ClearEdict (Z.to_nat i)) (Z.to_nat i) w)
      as [w1| | | |] eqn:Hc; try done. simpl. intros [= <- <-].
    apply on_edict_ClearEdict in Hc
      as (e0 & e' & He0 & Hes & Hfree & _ & _ & Hv & Hnum & _ & _ & Hcon & _).
    apply reusable_true in Hr as [Hf Ht].
    split; [lia|]. split.
    { exists e'. rewrite Hes. split; [|done].
      apply list_lookup_insert_eq. by eapply lookup_lt_Some. }
    left. unfold alloc_by_scan. rewrite Z2Nat.id by lia.
    split; [subst n; lia|]. split; [eauto|]. split; [|done].
    intros j0 Hj0. apply Hnone. lia.
  - subst i.
    assert (Hmaxi : MAX_CLIENTS + 1 + Z.of_nat n
                    = Z.max (MAX_CLIENTS + 1) (num_edicts (sv w))) by (subst n; lia).
    assert (Hnr : none_reusable MAX_CLIENTS w).
    { intros j Hj. apply Hnone. lia. }
    destruct (MAX_CLIENTS + 1 + Z.of_nat n =? MAX_EDICTS) eqn:Hcap; simpl.
    + (* the last edict is stepped on *)
      apply Z.eqb_eq in Hcap.
      destruct (EDICT_NUM MAX_EDICTS (MAX_CLIENTS + 1 + Z.of_nat n - 1))
        as [q| | | |] eqn:Hq; try done. simpl.
      destruct (on_edict _ q (Con_Printf _ w)) as [w1| | | |] eqn:Hu; try done. simpl.
      rewrite Hq. simpl.
      destruct (on_edict (ED_ClearEdict q) q w1) as [w2| | | |] eqn:Hc; try done.
      simpl. intros [= <- <-].
      apply EDICT_NUM_Ok in Hq as [Hrange Hq].
      apply on_edict_Ok in Hu as (e & eu & lu & He & Hf & ->).
      simpl in Hf. injection Hf as <- <-.
      apply on_edict_ClearEdict in Hc
        as (e0 & e' & He0 & Hes & Hfree & Hlink & _ & Hv & Hnum & _ & _ & Hcon & _).
      simpl in He, He0, Hes, Hnum, Hcon.
      assert (Hlen : (q < length (edicts (sv w)))%nat) by (by eapply lookup_lt_Some).
      rewrite list_lookup_insert_eq in He0 by done. injection He0 as <-.
      assert (Hlk : edicts (sv w2) !! q = Some e').
      { rewrite Hes. apply list_lookup_insert_eq. by rewrite length_insert. }
      split; [intros; lia|]. split; [eauto|].
      right; right. unfold alloc_by_eviction.
      split; [done|]. split; [lia|]. split; [lia|]. split; [done|]. split; [done|].
      exists e'. split; [done|]. by rewrite Hlink.
    + apply Z.eqb_neq in Hcap.
      destruct (EDICT_NUM MAX_EDICTS (MAX_CLIENTS + 1 + Z.of_nat n))
        as [q| | | |] eqn:Hq; try done. simpl.
      destruct (on_edict (ED_ClearEdict q) q _) as [w2| | | |] eqn:Hc; try done.
      simpl. intros [= <- <-].
      apply EDICT_NUM_Ok in Hq as [Hrange Hq].
      apply on_edict_ClearEdict in Hc
        as (e0 & e' & He0 & Hes & Hfree & _ & _ & Hv & Hnum & _ & _ & Hcon & _).
      simpl in He0, Hes, Hnum, Hcon.
      split; [lia|]. split.
      { exists e'. rewrite Hes. split; [|done].
        apply list_lookup_insert_eq. by eapply lookup_lt_Some. }
      right; left. unfold alloc_by_growth.
      split; [done|]. split; [lia|]. split; [lia|]. by split.
Qed.

Lemma ED_Alloc_spec w p w' :
  MAX_CLIENTS + 1 < MAX_EDICTS ->
  ED_Alloc MAX_CLIENTS MAX_EDICTS w = Ok (p, w') ->
  ED_Alloc_post MAX_CLIENTS MAX_EDICTS w p w'.
Proof.
  intros Hmax H. apply ED_Alloc_cases in H as (H1 & H2 & H3).
  split; [auto | by split].
Qed.

(** *** The free time stamps along a run *)

(** Every edict of [w] is still there in [w'], with the same [freetime]. *)
Definition same_freetimes (w w' : World) : Prop :=
  forall q e, edicts (sv w) !! q = Some e ->
    exists e', edicts (sv w') !! q = Some e' /\ freetime e' = freetime e.

Lemma same_freetimes_refl w : same_freetimes w w.
Proof. intros q e H. eauto. Qed.

Lemma same_freetimes_trans w1 w2 w3 :
  same_freetimes w1 w2 -> same_freetimes w2 w3 -> same_freetimes w1 w3.
Proof.
  intros H12 H23 q e H. apply H12 in H as (e2 & H2 & E2).
  apply H23 in H2 as (e3 & H3 & E3). exists e3. split; [done | congruence].
Qed.

Lemma on_edict_same_freetimes f p w w' :
  (forall e l e' l', f e l = Ok (e', l') -> freetime e' = freetime e) ->
  on_edict f p w = Ok w' -> same_freetimes w w'.
Proof.
  intros Hf H. apply on_edict_Ok in H as (e & e' & l' & He & Hfe & ->).
  intros q eq Hq. simpl. destruct (decide (p = q)) as [<-|Hne].
  - exists e'. split.
    + apply list_lookup_insert_eq. by eapply lookup_lt_Some.
    + rewrite He in Hq. injection Hq as <-. eauto.
  - exists eq. by rewrite list_lookup_insert_ne.
Qed.

Lemma ED_ClearEdict_freetime p e l e' l' :
  ED_ClearEdict p e l = Ok (e', l') -> freetime e' = freetime e.
Proof.
  intros H. destruct (ED_ClearEdict_spec p e l) as (e2 & l2 & H2 & _ & _ & Hft & _).
  congruence.
Qed.

Lemma ED_Alloc_same_freetimes w p w' :
  ED_Alloc MAX_CLIENTS MAX_EDICTS w = Ok (p, w') -> same_freetimes w w'.
Proof.
  unfold ED_Alloc.
  destruct (ED_Alloc_scan _ _ _ w) as [[i found]| | | |]; try done. simpl.
  destruct found as [q|].
  - destruct (on_edict (ED_ClearEdict q) q w) as [w1| | | |] eqn:Hc; try done.
    simpl. intros [= <- <-].
    eapply on_edict_same_freetimes; [|exact Hc]. apply ED_ClearEdict_freetime.
  - destruct (i =? MAX_EDICTS); simpl.
    + destruct (EDICT_NUM MAX_EDICTS (i - 1)) as [q| | | |] eqn:Hq; try done. simpl.
      destruct (on_edict _ q (Con_Printf _ w)) as [w1| | | |] eqn:Hu; try done. simpl.
      rewrite Hq. simpl.
      destruct (on_edict (ED_ClearEdict q) q w1) as [w2| | | |] eqn:Hc; try done.
      simpl. intros [= <- <-].
      apply (same_freetimes_trans _ (Con_Printf "WARNING: ED_Alloc: no free edicts" w));
        [intros q' e' H'; simpl; eauto|].
      eapply same_freetimes_trans.
      * eapply on_edict_same_freetimes; [|exact Hu].
        by intros e l e' l' [= <- <-].
      * eapply on_edict_same_freetimes; [|exact Hc]. apply ED_ClearEdict_freetime.
    + destruct (EDICT_NUM MAX_EDICTS i) as [q| | | |]; try done. simpl.
      destruct (on_edict (ED_ClearEdict q) q _) as [w2| | | |] eqn:Hc; try done.
      simpl. intros [= <- <-].
      eapply same_freetimes_trans;
        [|eapply on_edict_same_freetimes; [|exact Hc]; apply ED_ClearEdict_freetime].
      intros q' e' H'; simpl; eauto.
Qed.

Lemma ED_Free_other p q w w' e :
  p <> q -> ED_Free q w = Ok w' -> edicts (sv w) !! p = Some e ->
  edicts (sv w') !! p = Some e.
Proof.
  intros Hne H He. apply on_edict_Ok in H as (eq & e' & l' & _ & _ & ->).
  simpl. by rewrite list_lookup_insert_ne.
Qed.

Lemma store_step_freetime o w w' p e :
  frees p o = false ->
  store_step MAX_CLIENTS MAX_EDICTS o w = Ok w' ->
  edicts (sv w) !! p = Some e ->
  exists e', edicts (sv w') !! p = Some e' /\ freetime e' = freetime e.
Proof.
  intros Hfr Hstep He. destruct o as [|q|t]; simpl in *.
  - destruct (ED_Alloc _ _ w) as [[r w1]| | | |] eqn:Ha; try done.
    simpl in Hstep. injection Hstep as <-.
    by apply (ED_Alloc_same_freetimes _ _ _ Ha).
  - apply Nat.eqb_neq in Hfr. exists e. split; [|done].
    by eapply ED_Free_other.
  - injection Hstep as <-. simpl. eauto.
Qed.

Lemma store_run_freetime ops : forall w w' p e,
  existsb (frees p) ops = false ->
  store_run MAX_CLIENTS MAX_EDICTS ops w = Ok w' ->
  edicts (sv w) !! p = Some e ->
  exists e', edicts (sv w') !! p = Some e' /\ freetime e' = freetime e.
Proof.
  induction ops as [|o ops IH]; intros w w' p e Hfr Hrun He; simpl in *.
  - injection Hrun as <-. eauto.
  - apply orb_false_iff in Hfr as [Ho Hops].
    destruct (store_step _ _ o w) as [w1| | | |] eqn:Hs; try done. simpl in Hrun.
    destruct (store_step_freetime _ _ _ _ _ Ho Hs He) as (e1 & He1 & E1).
    destruct (IH _ _ _ _ Hops Hrun He1) as (e2 & He2 & E2).
    exists e2. split; [done | congruence].
Qed.

End Alloc.

(** ** The claims on the edict store *)

(** C1, as the source has it.  Along every sequence of calls of [ED_Alloc]
    and [ED_Free], with the clock of the server moving in between: when an
    edict is freed at time [T] and, not having been freed again, is handed
    out by the scan of [ED_Alloc] at time [t] (an edict below
    [sv.num_edicts], no warning printed), then the edict still has the
    stamp [ED_Free] left, which is [T] rounded to a [float], and the stamp
    is less than 2, or [t] minus the stamp, a [double], is more than 0.5.
    The relaxation is on the time the edict was freed, not on the current
    time; and as the stamp is a [float], an edict freed at 2.1 is handed
    out at 2.6, which the exact difference 0.5 would not allow. *)
Theorem C1_reuse_after_cooldown (MAX_CLIENTS MAX_EDICTS : Z)
    (w0 w1 w2 w3 : World) (p : nat) (ops : list store_op) :
  ED_Free p w0 = Ok w1 ->
  existsb (frees p) ops = false ->
  store_run MAX_CLIENTS MAX_EDICTS ops w1 = Ok w2 ->
  ED_Alloc MAX_CLIENTS MAX_EDICTS w2 = Ok (p, w3) ->
  Z.of_nat p < num_edicts (sv w2) ->
  console w3 = console w2 ->
  let stamp := to_float (NFin (time (sv w0))) in
  (exists e2, edicts (sv w2) !! p = Some e2 /\ freetime e2 = stamp) /\
  (num_ltb stamp (NFin 2) = true \/
   num_ltb (NFin 0.5) (to_double (num_sub (NFin (time (sv w2))) stamp)) = true) /\
  (to_float (NFin 2.1) = NFin (4404019 # 2097152) /\
   num_ltb (NFin 0.5) (to_double (num_sub (NFin 2.6) (to_float (NFin 2.1)))) = true /\
   num_ltb (NFin 0.5) (num_sub (NFin 2.6) (NFin 2.1)) = false).
Proof.
  intros Hfree Hnofree Hrun Halloc Hin Hquiet stamp. subst stamp.
  (* the stamp left by [ED_Free] *)
  assert (exists e1, edicts (sv w1) !! p = Some e1 /\
                     freetime e1 = to_float (NFin (time (sv w0))))
    as (e1 & He1 & Hstamp).
  { pose proof Hfree as H. apply on_edict_Ok in H as (e & _ & _ & He & _ & _).
    destruct (ED_Free_spec p w0 e He) as (w' & e' & Hf & He' & Hpost).
    rewrite Hfree in Hf. injection Hf as <-. exists e'. split; [done|].
    unfold ED_Free_post in Hpost. tauto. }
  (* it is still there when [ED_Alloc] runs *)
  destruct (store_run_freetime _ _ _ _ _ _ _ Hnofree Hrun He1) as (e2 & He2 & Hsame).
  split; [exists e2; split; [done|congruence]|].
  split; [|repeat split; vm_compute; reflexivity].
  apply orb_true_iff.
  change (cooled (time (sv w2)) (to_float (NFin (time (sv w0)))) = true).
  apply ED_Alloc_cases in Halloc as (_ & _ & [Hscan | [Hgrow | Hevict]]).
  - destruct Hscan as (_ & (e & He & _ & Ht) & _).
    rewrite He2 in He. injection He as <-.
    rewrite Hsame, Hstamp in Ht. exact Ht.
  - destruct Hgrow as (_ & Hp & _). lia.
  - destruct Hevict as (_ & _ & _ & _ & Hcon & _).
    rewrite Hquiet in Hcon. apply (f_equal length) in Hcon.
    rewrite length_app in Hcon. simpl in Hcon. lia.
Qed.

Lemma C1_reuse_after_cooldown_witness :
  let stamp := to_float (NFin (time (sv cooldown_w0))) in
  (exists e2, edicts (sv cooldown_w2) !! 4%nat = Some e2 /\ freetime e2 = stamp) /\
  (num_ltb stamp (NFin 2) = true \/
   num_ltb (NFin 0.5)
     (to_double (num_sub (NFin (time (sv cooldown_w2))) stamp)) = true) /\
  (to_float (NFin 2.1) = NFin (4404019 # 2097152) /\
   num_ltb (NFin 0.5) (to_double (num_sub (NFin 2.6) (to_float (NFin 2.1)))) = true /\
   num_ltb (NFin 0.5) (num_sub (NFin 2.6) (NFin 2.1)) = false).
Proof.
  apply (C1_reuse_after_cooldown 2 6 cooldown_w0 cooldown_w1 cooldown_w2
           cooldown_w3 4%nat cooldown_ops); vm_compute; reflexivity.
Defined.

(** C1 as stated fails: an edict freed at time 1.75 is handed out at time 2,
    which is not less than 2 and is before 1.75 + 0.5. *)
Lemma C1_counterexample :
  is_Some (edict_after 4 (ED_Free 4 (six_in_use 1.75 5))) /\
  time (sv warmup_w1) = 2%Q /\
  returned (ED_Alloc 2 6 warmup_w1) = Some 4%nat /\
  ~ (2 < 2)%Q /\ (2 < 1.75 + 0.5)%Q.
Proof.
  split; [vm_compute; eauto|]. split; [vm_compute; reflexivity|].
  split; [vm_compute; reflexivity|].
  split; [|vm_compute; reflexivity]. intros H. vm_compute in H. discriminate.
Qed.

(** C2, as the source has it.  When [ED_Alloc] returns an edict, its index
    is above [MAX_CLIENTS], and the edict is marked in use and cleared.  The
    scan visits the edicts from [MAX_CLIENTS + 1] up to [sv.num_edicts] in
    increasing order and returns the first that can be reused, which was
    free.  When none can, the store grows by the edict at the end; at
    [MAX_EDICTS] the last edict is unlinked and reused instead, whether it
    was free or not, and a warning is printed. *)
Theorem C2_alloc_above_clients (MAX_CLIENTS MAX_EDICTS : Z) (w w' : World) (p : nat) :
  MAX_CLIENTS + 1 < MAX_EDICTS ->
  ED_Alloc MAX_CLIENTS MAX_EDICTS w = Ok (p, w') ->
  ED_Alloc_post MAX_CLIENTS MAX_EDICTS w p w'.
Proof.
  intros Hmax H. apply ED_Alloc_cases in H as (H1 & H2 & H3).
  split; [auto | by split].
Qed.

Lemma C2_alloc_above_clients_witness :
  ED_Alloc_post 2 6 (six_in_use 10 4) 4
    (world_after_alloc (six_in_use 10 4) (ED_Alloc 2 6 (six_in_use 10 4))).
Proof.
  apply C2_alloc_above_clients; [lia | vm_compute; reflexivity].
Defined.

(** C2 as stated fails: with all [MAX_EDICTS] edicts in use, [ED_Alloc]
    returns the last one, which was not free. *)
Lemma C2_counterexample :
  free <$> edicts (sv (six_in_use 10 6)) !! 5%nat = Some false /\
  returned (ED_Alloc 2 6 (six_in_use 10 6)) = Some 5%nat.
Proof. split; vm_compute; reflexivity. Qed.

(** C3, as the source has it.  After [ED_Free(e)]: [e] is unlinked; each of
    the fifteen members released with [FREE_REF] is zero and the reference
    it held is no longer in the registry; the members holding the reference
    of another edict ([groundentity], [chain], [enemy], [aiment],
    [goalentity], [dmg_inflictor], [owner]) keep their value, and no
    reference but those of the fifteen members is released; [model],
    [takedamage], [modelindex], [colormap], [skin], [frame] and [solid] are
    zero, [origin] and [angles] are the origin, [nextthink] is -1, [free] is
    true and [freetime] is [sv.time] rounded to a [float].  The userdata and
    the overflow table of the edict, its other members, the other edicts
    and the rest of the process are as they were. *)
Theorem C3_free_edict (p : nat) (w : World) (e : edict_t) :
  edicts (sv w) !! p = Some e ->
  exists w' e', ED_Free p w = Ok w' /\
    sv w' = set_edicts (<[p := e']> (edicts (sv w))) (sv w) /\
    pr_global_struct w' = pr_global_struct w /\ console w' = console w /\
    ED_Free_post w e w' e'.
Proof.
  intros He. destruct (ED_Free_spec p w e He) as (w' & e' & Hf & He' & Hpost).
  exists w', e'. split; [done|].
  apply on_edict_Ok in Hf as (e0 & e1 & l1 & He0 & _ & ->).
  simpl in He'. rewrite list_lookup_insert_eq in He' by (by eapply lookup_lt_Some).
  injection He' as ->. done.
Qed.

Lemma C3_free_edict_witness :
  exists w' e', ED_Free 3 monster_world = Ok w' /\
    sv w' = set_edicts (<[3%nat := e']> (edicts (sv monster_world))) (sv monster_world) /\
    pr_global_struct w' = pr_global_struct monster_world /\
    console w' = console monster_world /\
    ED_Free_post monster_world monster_edict w' e'.
Proof. apply (C3_free_edict 3 monster_world monster_edict). reflexivity. Defined.

(** C3 as stated fails: [enemy] is neither zeroed nor released by [ED_Free]. *)
Lemma C3_counterexample :
  (fun e' => v_int (v e') V.enemy) <$> edict_after 3 (ED_Free 3 monster_world)
    = Some 2 /\
  live 2 (L (world_after monster_world (ED_Free 3 monster_world))) = true /\
  In V.enemy edict_refs.
Proof. split; [|split]; vm_compute; auto. Qed.

(** ** Setting a field from text *)

Ltac lua_unfold :=
  unfold lua_rawset, lua_rawget, lua_remove, lua_pushvalue, lua_index, stack_pos,
    lua_isnil, luaL_testudata_vec3, PR_Vec3_ToVec, luaL_checkudata_edict,
    lua_tostring, store_vec3, memcpy_vec3, lua_pop, lua_pushstring,
    lua_pushnumber, lua_pushnil, lua_pushboolean, lua_push,
    lua_rawgeti_registry, set_vectors, set_tables, set_stack, set_registry in *.

(** A key with no native member goes to the overflow table of the edict,
    typed as [infer] says. *)
Lemma ED_SetField_overflow key value e l a t :
  ED_SetField_native key = None ->
  registry_get (fields e) l = LTable a ->
  tables l !! a = Some t ->
  exists l', ED_SetField key value e l = Ok (true, e, l') /\
    stack l' = stack l /\ registry l' = registry l /\ globals l' = globals l /\
    overflow_holds a t key (infer (unescape value)) l l'.
Proof.
  intros Hnat Hreg Ht. unfold ED_SetField. rewrite Hnat.
  unfold lua_rawgeti_registry. rewrite Hreg.
  unfold infer, overflow_holds.
  destruct (str_tovector (unescape value)) as [vec|].
  - unfold PR_Vec3_New. lua_unfold. simpl. rewrite Ht. simpl.
    eexists. split; [reflexivity|]. cbn.
    rewrite lookup_insert_eq, insert_insert_eq. by repeat split.
  - destruct (str_tonumber (unescape value)) as [num|].
    + lua_unfold. simpl. rewrite Ht. simpl.
      eexists. split; [reflexivity|]. cbn.
      rewrite lookup_insert_eq. by repeat split.
    + lua_unfold. simpl. rewrite Ht. simpl.
      eexists. split; [reflexivity|]. cbn.
      rewrite lookup_insert_eq. by repeat split.
Qed.

(** C5.  A key that is no native member of [ED_SetField] and a value: the
    value, once unescaped, is tried as three numbers, then as one number,
    and is a string otherwise; what the first parse that succeeds gives is
    what the overflow table of the edict holds under the key.  So "1 2 3" is
    a vector, "3.5" a number and "foo bar" a string. *)
Theorem C5_type_inference_order (key value : string) (e : edict_t) (l : lua_State)
    (a : nat) (t : gmap string lua_value) :
  ED_SetField_native key = None ->
  registry_get (fields e) l = LTable a ->
  tables l !! a = Some t ->
  (exists l', ED_SetField key value e l = Ok (true, e, l') /\
     overflow_holds a t key
       (match str_tovector (unescape value) with
        | Some vec => AsVector vec
        | None =>
            match str_tonumber (unescape value) with
            | Some num => AsNumber num
            | None => AsString (unescape value)
            end
        end) l l') /\
  infer (unescape "1 2 3") = AsVector (NFin 1, NFin 2, NFin 3) /\
  infer (unescape "3.5") = AsNumber (NFin 3.5) /\
  infer (unescape "foo bar") = AsString "foo bar".
Proof.
  intros Hnat Hreg Ht. split.
  - destruct (ED_SetField_overflow key value e l a t Hnat Hreg Ht)
      as (l' & H & _ & _ & _ & Hold).
    exists l'. by split.
  - repeat split; vm_compute; reflexivity.
Qed.

Lemma C5_type_inference_order_witness :
  exists l', ED_SetField "wait" "3.5" spawned.1 spawned.2 = Ok (true, spawned.1, l') /\
    overflow_holds 0 ∅ "wait" (AsNumber (NFin 3.5)) spawned.2 l'.
Proof.
  destruct (C5_type_inference_order "wait" "3.5" spawned.1 spawned.2 0%nat ∅)
    as [H _]; [vm_compute; reflexivity ..|].
  exact H.
Defined.

(** C10.  A key that is no native member of [ED_SetField] and a value that
    does not scan as three numbers but starts with a number followed by more
    text: the overflow table holds the number, as the [double] nearest to
    it, and nothing of what follows it.  So "1 2" is stored as 1 and
    "3.5abc" as 3.5. *)
Theorem C10_leading_number_wins (key value rest : string) (num : number)
    (e : edict_t) (l : lua_State) (a : nat) (t : gmap string lua_value) :
  ED_SetField_native key = None ->
  registry_get (fields e) l = LTable a ->
  tables l !! a = Some t ->
  str_tovector (unescape value) = None ->
  scan_f (unescape value) = inr (num, rest) ->
  rest <> EmptyString ->
  (exists l', ED_SetField key value e l = Ok (true, e, l') /\
     tables l' !! a = Some (<[key := LNumber (to_double num)]> t) /\
     vectors l' = vectors l /\ registry l' = registry l) /\
  (str_tovector "1 2" = None /\ scan_f "1 2" = inr (NFin 1, " 2") /\
   to_double (NFin 1) = NFin 1) /\
  (str_tovector "3.5abc" = None /\ scan_f "3.5abc" = inr (NFin 3.5, "abc") /\
   to_double (NFin 3.5) = NFin 3.5).
Proof.
  intros Hnat Hreg Ht Hvec Hnum Hrest. split.
  - destruct (ED_SetField_overflow key value e l a t Hnat Hreg Ht)
      as (l' & H & _ & Hr & _ & Hold).
    exists l'. split; [done|].
    unfold infer in Hold. rewrite Hvec in Hold.
    unfold str_tonumber, sscanf_lf in Hold. rewrite Hnum in Hold.
    cbn iota in Hold. unfold overflow_holds in Hold. tauto.
  - repeat split; vm_compute; reflexivity.
Qed.

Lemma C10_leading_number_wins_witness :
  exists l', ED_SetField "delay" "3.5abc" spawned.1 spawned.2
             = Ok (true, spawned.1, l') /\
    tables l' !! 0%nat = Some (<["delay" := LNumber (NFin 3.5)]> ∅) /\
    vectors l' = vectors spawned.2 /\ registry l' = registry spawned.2.
Proof.
  destruct (C10_leading_number_wins "delay" "3.5abc" "abc" (NFin 3.5)
              spawned.1 spawned.2 0%nat ∅) as [H _];
    [vm_compute; reflexivity .. | | exact H].
  discriminate.
Defined.

(** ** The text parser *)

(** [ED_SetField] returns [true] whenever it returns, and leaves everything
    of the edict but its entity variables alone. *)
Lemma ED_SetField_Ok key value e l b e' l' :
  ED_SetField key value e l = Ok (b, e', l') ->
  b = true /\ free e' = free e /\ area_linked e' = area_linked e /\
  freetime e' = freetime e /\ ref e' = ref e /\ fields e' = fields e.
Proof.
  unfold ED_SetField.
  destruct (ED_SetField_native key) as [[s|s|s]|].
  - by intros [= <- <- <-].
  - destruct (PR_SetString (unescape value) l) as [[r l1]| | | |]; try done.
    by intros [= <- <- <-].
  - by intros [= <- <- <-].
  - match goal with |- context [lua_rawset (-3) ?x] =>
      destruct (lua_rawset (-3) x) as [l1| | | |] end; try done.
    by intros [= <- <- <-].
Qed.

Lemma assign_pairs_frame ps : forall e l e' l',
  assign_pairs ps e l = Ok (e', l') ->
  free e' = free e /\ area_linked e' = area_linked e /\
  freetime e' = freetime e /\ ref e' = ref e /\ fields e' = fields e.
Proof.
  induction ps as [|[key value] ps IH]; intros e l e' l'; simpl.
  - by intros [= <- <-].
  - destruct (legacy_pair key value) as [[k x]|]; [|apply IH].
    destruct (ED_SetField k x e l) as [[[b e1] l1]| | | |] eqn:Hs; try done.
    simpl. intros H. apply IH in H. apply ED_SetField_Ok in Hs.
    intuition congruence.
Qed.

Section ParserProofs.

Variable COM_Parse : string -> option string * string.

Opaque ED_SetField.

(** The loop of [ED_ParseEdict] on a block whose tokens fit the arrays they
    are copied into: the field assignments of its pairs, as the design words
    them, in order.  On a block with a token that does not fit, the loop
    does not return. *)
Lemma ED_ParseEdict_loop_block ps : forall fuel data data' init e l,
  reads_block COM_Parse data ps data' ->
  (length ps < fuel)%nat ->
  if fits ps
  then ED_ParseEdict_loop COM_Parse fuel data init e l =
         el ← assign_pairs ps e l;
         Ok (data', match ps with [] => init | _ => true end, el.1, el.2)
  else is_ok (ED_ParseEdict_loop COM_Parse fuel data init e l) = false.
Proof.
  assert (H6 : (256 <=? String.length "angles")%nat = false) by (vm_compute; reflexivity).
  assert (H5 : (256 <=? String.length "angle")%nat = false) by (vm_compute; reflexivity).
  assert (H9 : (256 <=? String.length "light_lev")%nat = false) by (vm_compute; reflexivity).
  assert (HL : (256 <=? String.length "light")%nat = false) by (vm_compute; reflexivity).
  induction ps as [|[key value] ps IH]; intros fuel data data' init e l Hb Hfuel.
  - destruct fuel as [|fuel]; [simpl in Hfuel; lia|]. simpl in *.
    destruct (COM_Parse data) as [d tok]. simpl in Hb. destruct Hb as [-> ->].
    reflexivity.
  - destruct fuel as [|fuel]; [simpl in Hfuel; lia|].
    simpl in Hfuel. assert (Hlt : (length ps < fuel)%nat) by lia.
    cbn [ED_ParseEdict_loop reads_block assign_pairs fits forallb] in *.
    fold (fits ps).
    destruct (COM_Parse data) as [[d1|] k]; [|done].
    destruct Hb as (-> & Hk & Hb). rewrite Hk.
    destruct (COM_Parse d1) as [[d2|] x]; [|done].
    destruct Hb as (-> & Hx & Hb).
    assert (Hrest : forall e1 l1,
      if fits ps
      then ED_ParseEdict_loop COM_Parse fuel d2 true e1 l1 =
             el ← assign_pairs ps e1 l1; Ok (data', true, el.1, el.2)
      else is_ok (ED_ParseEdict_loop COM_Parse fuel d2 true e1 l1) = false).
    { intros e1 l1. generalize (IH fuel d2 data' true e1 l1 Hb Hlt).
      destruct (fits ps); [by destruct ps|done]. }
    unfold legacy_pair, pair_fits. cbn [fst snd].
    destruct (String.eqb key "angle") eqn:Hangle.
    + apply String.eqb_eq in Hangle. subst key.
      cbn [String.eqb Ascii.eqb Bool.eqb first_char_is]. rewrite H5, H6, Hx.
      cbn [negb andb first_char_is Ascii.eqb Bool.eqb].
      destruct (32 <=? String.length value)%nat; cbn [negb mbind result_bind];
        [done|].
      match goal with |- context [ED_SetField ?k ?x e l] =>
        destruct (ED_SetField k x e l) as [[[b e1] l1]| | | |] eqn:Hs end;
        cbn [mbind result_bind is_ok]; try (by destruct (fits ps)).
      apply ED_SetField_Ok in Hs as (-> & _). apply Hrest.
    + destruct (String.eqb key "light") eqn:Hlight.
      * apply String.eqb_eq in Hlight. subst key.
        cbn [String.eqb Ascii.eqb Bool.eqb first_char_is]. rewrite HL, H9, Hx.
        cbn [negb andb first_char_is Ascii.eqb Bool.eqb mbind result_bind].
        match goal with |- context [ED_SetField ?k ?x e l] =>
          destruct (ED_SetField k x e l) as [[[b e1] l1]| | | |] eqn:Hs end;
          cbn [mbind result_bind is_ok]; try (by destruct (fits ps)).
        apply ED_SetField_Ok in Hs as (-> & _). apply Hrest.
      * destruct (256 <=? String.length key)%nat; cbn [negb andb]; [done|].
        rewrite Hx. destruct (first_char_is "_" key); [apply Hrest|].
        cbn [mbind result_bind].
        destruct (ED_SetField key value e l) as [[[b e1] l1]| | | |] eqn:Hs;
          cbn [mbind result_bind is_ok]; try (by destruct (fits ps)).
        apply ED_SetField_Ok in Hs as (-> & _). apply Hrest.
Qed.

(** [ED_ParseEdict] on a block. *)
Lemma ED_ParseEdict_block ps fuel data data' ent w e :
  reads_block COM_Parse data ps data' ->
  (length ps < fuel)%nat ->
  edicts (sv w) !! ent = Some e ->
  if fits ps
  then ED_ParseEdict COM_Parse fuel data ent w =
         el ← assign_pairs ps (if bool_decide (ent = 0%nat) then e else set_v entvars_zero e)
                           (L w);
         Ok (data', put_edict ent (match ps with [] => set_free true el.1 | _ => el.1 end)
                      (set_L el.2 w))
  else is_ok (ED_ParseEdict COM_Parse fuel data ent w) = false.
Proof.
  intros Hb Hfuel He. unfold ED_ParseEdict, edict_at. rewrite He.
  cbn [mbind result_bind].
  generalize (ED_ParseEdict_loop_block ps fuel data data' false
                (if bool_decide (ent = 0%nat) then e else set_v entvars_zero e)
                (L w) Hb Hfuel).
  destruct (fits ps).
  - intros ->.
    destruct (assign_pairs ps _ (L w)) as [[e1 l1]| | | |]; try done.
    cbn. by destruct ps.
  - by destruct (ED_ParseEdict_loop _ _ _ _ _ _) as [[[[? ?] ?] ?]| | | |].
Qed.

Transparent ED_SetField.

End ParserProofs.

(** ** The claims on the text parser *)

(** C8, as the source has it.  When the tokenizer reads the pairs [ps] and a
    closing brace, [ED_ParseEdict] marks the edict free if the block is
    empty; if it holds a pair, even one whose key starts with an underscore,
    the parser leaves the [free] flag of the edict as it was. *)
Theorem C8_only_empty_block_is_freed (COM_Parse : string -> option string * string)
    (ps : list (string * string)) (fuel : nat) (data : string)
    (data' : option string) (ent : nat) (w : World) (e : edict_t) :
  reads_block COM_Parse data ps data' ->
  (length ps < fuel)%nat ->
  edicts (sv w) !! ent = Some e ->
  match ps with
  | [] => parsed_free ent (ED_ParseEdict COM_Parse fuel data ent w) = Some true
  | _ => parsed_free ent (ED_ParseEdict COM_Parse fuel data ent w) = Some (free e) \/
         is_ok (ED_ParseEdict COM_Parse fuel data ent w) = false
  end.
Proof.
  intros Hb Hfuel He.
  generalize (ED_ParseEdict_block COM_Parse ps fuel data data' ent w e Hb Hfuel He).
  destruct (fits ps) eqn:Hfits; [|by destruct ps; [|right]].
  intros ->.
  assert (Hlen : (ent < length (edicts (sv w)))%nat) by (by eapply lookup_lt_Some).
  destruct ps as [|pair ps].
  - simpl. by rewrite list_lookup_insert_eq.
  - destruct (assign_pairs (pair :: ps) _ (L w)) as [[e1 l1]| | | |] eqn:Ha;
      try (by right).
    left. cbn. rewrite list_lookup_insert_eq by done. cbn.
    apply assign_pairs_frame in Ha as (Hf & _). rewrite Hf.
    by destruct (bool_decide (ent = 0%nat)).
Qed.

Lemma C8_only_empty_block_is_freed_witness :
  parsed_free 1 (ED_ParseEdict COM_Parse_spec 1 " }" 1 spawned_world) = Some true.
Proof.
  apply (C8_only_empty_block_is_freed COM_Parse_spec [] 1 " }" (Some EmptyString)
           1%nat spawned_world spawned.1).
  - vm_compute. by split.
  - simpl. lia.
  - reflexivity.
Defined.

(** C8 as stated fails: a block whose only pair has an underscore key does
    not mark the edict free. *)
Lemma C8_counterexample :
  reads_block COM_Parse_spec "_note x }" [("_note", "x")] (Some EmptyString) /\
  free <$> edicts (sv spawned_world) !! 1%nat = Some false /\
  parsed_free 1 (ED_ParseEdict COM_Parse_spec 2 "_note x }" 1 spawned_world)
    = Some false.
Proof. vm_compute. repeat split; reflexivity. Qed.

(** ** The entity bridge *)

(** Which macro of [ED_mt_newindex] and of [ED_mt_index] handles each member
    holding a reference. *)
Lemma ED_mt_newindex_native_int s :
  ED_mt_newindex_native (V.int_name s) =
    Some (if bool_decide (s ∈ edict_refs) then SET_EDICT s else SET_REF s).
Proof. destruct s; vm_compute; reflexivity. Qed.

Lemma ED_mt_index_native_int s :
  ED_mt_index_native (V.int_name s) = Some (PUSH_REF s).
Proof. destruct s; vm_compute; reflexivity. Qed.

Lemma fresh_registry_None (reg : gmap positive lua_value) :
  reg !! fresh (dom reg) = None.
Proof. apply not_elem_of_dom. apply is_fresh. Qed.

Lemma registry_unref h l : registry (luaL_unref h l) = released h (registry l).
Proof. by destruct h. Qed.

(** The arguments of a metamethod called with three values. *)
Lemma args3_udata x k p l :
  stack l = [x; k; LEdict p] -> luaL_checkudata_edict 1 l = Ok p.
Proof. intros H. unfold luaL_checkudata_edict, lua_index, stack_pos. by rewrite H. Qed.

Lemma args3_key x key u l :
  stack l = [x; LString key; u] -> lua_tostring 2 l = Ok key.
Proof. intros H. unfold lua_tostring, lua_index, stack_pos. by rewrite H. Qed.

Lemma args3_value x k u l : stack l = [x; k; u] -> lua_index 3 l = Some x.
Proof. intros H. unfold lua_index, stack_pos. by rewrite H. Qed.

(** [SET_REF] on any value. *)
Lemma set_field_SET_REF s x w e l :
  lua_index 3 l = Some x ->
  exists e' l', set_field (SET_REF s) w e l = Ok (e', l') /\
    free e' = free e /\ ref e' = ref e /\ fields e' = fields e /\
    tables l' = tables l /\ vectors l' = vectors l /\ stack l' = stack l /\
    let reg := released (v_int (v e) s) (registry l) in
    match x with
    | LNil => v_int (v e') s = 0 /\ registry l' = reg
    | _ => exists h, v_int (v e') s = Zpos h /\ reg !! h = None /\
                     registry l' = <[h := x]> reg
    end.
Proof.
  intros Hx. unfold set_field.
  set (l1 := if v_int (v e) s =? 0 then l else luaL_unref (v_int (v e) s) l).
  assert (Hl1 : stack l1 = stack l /\ tables l1 = tables l /\ vectors l1 = vectors l /\
                registry l1 = released (v_int (v e) s) (registry l)).
  { subst l1. destruct (v_int (v e) s =? 0) eqn:Hz.
    - apply Z.eqb_eq in Hz. by rewrite Hz.
    - by destruct (v_int (v e) s). }
  destruct Hl1 as (Hst & Htb & Hvc & Hrg).
  assert (Hx1 : lua_index 3 l1 = Some x).
  { unfold lua_index, stack_pos in *. by rewrite Hst. }
  unfold lua_isnil, lua_pushvalue. rewrite Hx1.
  destruct x; cbn;
    try (eexists _, _; split; [reflexivity|]; cbn;
         rewrite ?fn_lookup_insert, ?Hrg;
         repeat split; try done;
         eexists; split; [reflexivity|]; split; [|reflexivity];
         rewrite <- Hrg; apply fresh_registry_None).
  eexists _, _. split; [reflexivity|]. cbn. rewrite fn_lookup_insert.
  by repeat split.
Qed.

(** [SET_EDICT] on [nil] and on an edict. *)
Lemma set_field_SET_EDICT s x w e l :
  lua_index 3 l = Some x ->
  match x with
  | LNil => true
  | LEdict q => bool_decide (is_Some (edicts (sv w) !! q))
  | _ => false
  end = true ->
  exists e', set_field (SET_EDICT s) w e l = Ok (e', l) /\
    free e' = free e /\ ref e' = ref e /\ fields e' = fields e /\
    match x with
    | LNil => v_int (v e') s = 0
    | LEdict q => exists e2, edicts (sv w) !! q = Some e2 /\ v_int (v e') s = ref e2
    | _ => False
    end.
Proof.
  intros Hx Hok. unfold set_field, lua_isnil, luaL_checkudata_edict. rewrite Hx.
  destruct x; try done.
  - eexists. split; [reflexivity|]. cbn. by rewrite fn_lookup_insert.
  - apply bool_decide_eq_true in Hok as [e2 He2].
    unfold edict_at. cbn. rewrite He2. cbn.
    eexists. split; [reflexivity|]. cbn. rewrite fn_lookup_insert.
    repeat split; try done. by exists e2.
Qed.

(** Reading a member that holds no reference. *)
Lemma field_value_zero_ref s p w e :
  edicts (sv w) !! p = Some e ->
  v_int (v e) s = 0 ->
  field_value p (V.int_name s) w = Some LNil.
Proof.
  intros He Hz. unfold field_value, ED_mt_index, call_args, edict_at.
  lua_unfold. simpl. rewrite He. simpl.
  rewrite ED_mt_index_native_int. simpl. by rewrite Hz.
Qed.

(** C4, as the source has it.  Assigning [x] to a member that holds a
    reference, through [ED_mt_newindex].  For the members set with [SET_REF]
    (the strings and the functions: [classname], [touch], ...), the
    reference held is released first and then, unless [x] is [nil], a
    reference to [x] is made and stored; with [nil] the member is left zero.
    For the members set with [SET_EDICT] ([enemy], [owner], ...), nothing is
    released and no reference is made: the member becomes zero for [nil] and
    the reference the assigned edict already has otherwise.  Reading any of
    these members while it is zero gives [nil]. *)
Theorem C4_reference_fields (w : World) (p : nat) (e : edict_t) (s : V.int)
    (x : lua_value) (wr : World) (pr : nat) (er : edict_t) :
  edicts (sv w) !! p = Some e ->
  stack (L w) = [x; LString (V.int_name s); LEdict p] ->
  assignable s x w = true ->
  edicts (sv wr) !! pr = Some er ->
  v_int (v er) s = 0 ->
  (exists w' e', ED_mt_newindex w = Ok w' /\ edicts (sv w') !! p = Some e' /\
     (if bool_decide (s ∈ edict_refs) then SET_EDICT_post s x w e w' e'
      else SET_REF_post s x w e w' e')) /\
  field_value pr (V.int_name s) wr = Some LNil /\
  (V.enemy ∈ edict_refs) /\ (V.owner ∈ edict_refs) /\
  (V.classname ∉ edict_refs) /\ (V.touch ∉ edict_refs).
Proof.
  intros He Hst Hok Her Hz.
  split; [|split; [by eapply field_value_zero_ref|]].
  - pose proof (args3_value _ _ _ _ Hst) as Hx.
    assert (Hlen : (p < length (edicts (sv w)))%nat) by (by eapply lookup_lt_Some).
    unfold ED_mt_newindex.
    rewrite (args3_udata _ _ _ _ Hst), (args3_key _ _ _ _ Hst).
    cbn [mbind result_bind]. rewrite ED_mt_newindex_native_int.
    unfold assignable in Hok. unfold on_edict, edict_at. rewrite He.
    cbn [mbind result_bind].
    destruct (bool_decide (s ∈ edict_refs)).
    + destruct (set_field_SET_EDICT s x w e (L w) Hx Hok) as (e' & Hs & _ & _ & _ & Hp).
      rewrite Hs. cbn. eexists _, e'. split; [reflexivity|]. cbn.
      split; [by apply list_lookup_insert_eq|]. by split.
    + destruct (set_field_SET_REF s x w e (L w) Hx)
        as (e' & l' & Hs & _ & _ & _ & _ & _ & _ & Hp).
      rewrite Hs. cbn. eexists _, e'. split; [reflexivity|]. cbn.
      split; [by apply list_lookup_insert_eq|]. exact Hp.
  - repeat split; apply (bool_decide_unpack _); by vm_compute.
Qed.

Lemma C4_reference_fields_witness :
  exists w' e', ED_mt_newindex monster_renamed = Ok w' /\
    edicts (sv w') !! 3%nat = Some e' /\
    SET_REF_post V.classname (LString "monster_cat") monster_renamed
      monster_edict w' e'.
Proof.
  refine (proj1 (C4_reference_fields monster_renamed 3 monster_edict V.classname
                   (LString "monster_cat") monster_world 0 edict_zero _ _ _ _ _));
    vm_compute; reflexivity.
Defined.

(** C4 as stated fails for [enemy]: the reference it held is still in the
    registry after the member is set. *)
Lemma C4_counterexample :
  v_int (v monster_edict) V.enemy = 2 /\
  live 2 (L monster_world) = true /\
  (fun e' => v_int (v e') V.enemy) <$> edict_after 3 monster_forgets = Some 0 /\
  live 2 (L (world_after monster_world monster_forgets)) = true.
Proof. repeat split; vm_compute; reflexivity. Qed.






(** * Further properties *)

(** ** The store *)

Lemma on_edict_total f p w e e' l' :
  edicts (sv w) !! p = Some e -> f e (L w) = Ok (e', l') ->
  on_edict f p w = Ok (put_edict p e' (set_L l' w)).
Proof. intros He Hf. unfold on_edict, edict_at. rewrite He. cbn. by rewrite Hf. Qed.

Lemma on_edict_ClearEdict_total p w :
  (p < length (edicts (sv w)))%nat ->
  exists w', on_edict (ED_ClearEdict p) p w = Ok w'.
Proof.
  intros Hp. destruct (lookup_lt_is_Some_2 _ _ Hp) as [e He].
  destruct (ED_ClearEdict_spec p e (L w)) as (e' & l' & Hc & _).
  eexists. by eapply on_edict_total.
Qed.

Section StoreInvariant.

Variables MAX_CLIENTS MAX_EDICTS : Z.

Lemma ED_Alloc_scan_total n : forall i w,
  0 <= i -> i + Z.of_nat n <= MAX_EDICTS ->
  length (edicts (sv w)) = Z.to_nat MAX_EDICTS ->
  exists j found, ED_Alloc_scan MAX_EDICTS n i w = Ok (j, found).
Proof.
  induction n as [|n IH]; intros i w Hi Hn Hlen; simpl; [eauto|].
  rewrite EDICT_NUM_in by lia. cbn.
  assert (Hlt : (Z.to_nat i < length (edicts (sv w)))%nat) by lia.
  destruct (lookup_lt_is_Some_2 _ _ Hlt) as [e He].
  unfold edict_at. rewrite He. cbn.
  destruct (reusable (time (sv w)) e); [eauto|]. apply IH; lia.
Qed.

(** On a store that is set up, [ED_Alloc] returns an edict, leaves the
    store set up, and raises [sv.num_edicts] by at most one. *)
Lemma ED_Alloc_total w :
  store_ok MAX_CLIENTS MAX_EDICTS w ->
  exists p w', ED_Alloc MAX_CLIENTS MAX_EDICTS w = Ok (p, w') /\
    store_ok MAX_CLIENTS MAX_EDICTS w' /\
    num_edicts (sv w) <= num_edicts (sv w') <= num_edicts (sv w) + 1.
Proof.
  intros (Hc & Hn & Hlen). unfold ED_Alloc.
  set (n := Z.to_nat (num_edicts (sv w) - (MAX_CLIENTS + 1))).
  destruct (ED_Alloc_scan_total n (MAX_CLIENTS + 1) w) as (j & found & Hscan);
    [lia | subst n; lia | done |].
  rewrite Hscan. cbn.
  apply ED_Alloc_scan_spec in Hscan as (Hj & _ & Hfound).
  destruct found as [q|].
  - destruct Hfound as (Hj' & -> & e & He & _).
    destruct (on_edict_ClearEdict_total (Z.to_nat j) w) as [w' Hw'];
      [by eapply lookup_lt_Some|].
    rewrite Hw'. cbn. eexists _, _. split; [reflexivity|].
    apply on_edict_ClearEdict in Hw' as (? & ? & _ & Hes & _ & _ & _ & _ & Hnum & _).
    unfold store_ok. rewrite Hes, Hnum, length_insert. lia.
  - subst j. destruct (MAX_CLIENTS + 1 + Z.of_nat n =? MAX_EDICTS) eqn:Hcap.
    + apply Z.eqb_eq in Hcap. cbn.
      rewrite EDICT_NUM_in by lia. cbn.
      set (q := Z.to_nat (MAX_CLIENTS + 1 + Z.of_nat n - 1)).
      assert (Hq : (q < length (edicts (sv w)))%nat) by (subst q; lia).
      destruct (lookup_lt_is_Some_2 _ _ Hq) as [e He].
      rewrite (on_edict_total _ q (Con_Printf _ w) e (SV_UnlinkEdict e) (L w))
        by done.
      cbn. rewrite EDICT_NUM_in by lia. cbn. fold q.
      match goal with |- context [on_edict (ED_ClearEdict q) q ?w1] =>
        destruct (on_edict_ClearEdict_total q w1) as [w' Hw'] end.
      { simpl. by rewrite length_insert. }
      rewrite Hw'. cbn. eexists _, _. split; [reflexivity|].
      apply on_edict_ClearEdict in Hw' as (? & ? & _ & Hes & _ & _ & _ & _ & Hnum & _).
      simpl in Hes, Hnum.
      unfold store_ok. rewrite Hes, Hnum, !length_insert. lia.
    + apply Z.eqb_neq in Hcap. cbn.
      rewrite EDICT_NUM_in by (subst n; lia). cbn.
      set (q := Z.to_nat (MAX_CLIENTS + 1 + Z.of_nat n)).
      match goal with |- context [on_edict (ED_ClearEdict q) q ?w1] =>
        destruct (on_edict_ClearEdict_total q w1) as [w' Hw'] end.
      { simpl. subst q n. lia. }
      rewrite Hw'. cbn. eexists _, _. split; [reflexivity|].
      apply on_edict_ClearEdict in Hw' as (? & ? & _ & Hes & _ & _ & _ & _ & Hnum & _).
      simpl in Hes, Hnum.
      unfold store_ok. rewrite Hes, Hnum, !length_insert. subst n. lia.
Qed.

Lemma ED_Free_total p w :
  (p < length (edicts (sv w)))%nat ->
  exists w', ED_Free p w = Ok w' /\
    num_edicts (sv w') = num_edicts (sv w) /\
    length (edicts (sv w')) = length (edicts (sv w)).
Proof.
  intros Hp. destruct (lookup_lt_is_Some_2 _ _ Hp) as [e He].
  destruct (ED_Free_spec p w e He) as (w' & e' & Hf & _).
  exists w'. split; [done|].
  apply on_edict_Ok in Hf as (? & ? & ? & _ & _ & ->). simpl.
  by rewrite length_insert.
Qed.

(** X1.  On a store that is set up, every sequence of calls of [ED_Alloc],
    of calls of [ED_Free] on edicts of the array and of moves of the clock
    runs to its end: no call is fatal.  The store is set up afterwards, and
    [sv.num_edicts] has not gone down. *)
Theorem X1_store_runs (ops : list store_op) (w : World) :
  store_ok MAX_CLIENTS MAX_EDICTS w ->
  frees_in_range MAX_EDICTS ops = true ->
  exists w', store_run MAX_CLIENTS MAX_EDICTS ops w = Ok w' /\
    store_ok MAX_CLIENTS MAX_EDICTS w' /\
    num_edicts (sv w) <= num_edicts (sv w').
Proof.
  revert w. induction ops as [|o ops IH]; intros w Hok Hfr; simpl.
  - exists w. split; [done|]. split; [done|lia].
  - simpl in Hfr. apply andb_true_iff in Hfr as [Ho Hfr].
    assert (exists w1, store_step MAX_CLIENTS MAX_EDICTS o w = Ok w1 /\
              store_ok MAX_CLIENTS MAX_EDICTS w1 /\
              num_edicts (sv w) <= num_edicts (sv w1)) as (w1 & Hs & Hok1 & Hn1).
    { destruct o as [|p|t]; simpl.
      - destruct (ED_Alloc_total w Hok) as (p & w1 & Ha & Hok1 & Hn).
        rewrite Ha. cbn. exists w1. split; [done|]. split; [done|lia].
      - destruct Hok as (Hc & Hn & Hlen).
        destruct (ED_Free_total p w) as (w1 & Hf & Hnum & Hl); [lia|].
        exists w1. split; [done|]. unfold store_ok. rewrite Hnum, Hl. lia.
      - eexists. split; [reflexivity|]. split; [done|simpl; lia]. }
    rewrite Hs. cbn.
    destruct (IH w1 Hok1 Hfr) as (w' & Hr & Hok' & Hn').
    exists w'. split; [done|]. split; [done|lia].
Qed.

End StoreInvariant.

Lemma X1_store_runs_witness :
  exists w', store_run 2 6 [OpAlloc; OpFree 4; OpTime 9; OpAlloc] (six_in_use 3 5)
             = Ok w' /\
    store_ok 2 6 w' /\ 5 <= num_edicts (sv w').
Proof.
  apply (X1_store_runs 2 6 [OpAlloc; OpFree 4; OpTime 9; OpAlloc] (six_in_use 3 5)).
  - unfold store_ok. simpl. lia.
  - reflexivity.
Defined.

(** ** Clearing and freeing *)

(** What [ED_ClearEdict] returns, in full. *)
Lemma ED_ClearEdict_explicit p e l :
  let reg0 := if fields e =? 0 then registry l else released (fields e) (registry l) in
  let reg1 := if ref e =? 0 then <[fresh (dom reg0) := LEdict p]> reg0 else reg0 in
  let r := if ref e =? 0 then Zpos (fresh (dom reg0)) else ref e in
  let a := fresh (dom (tables l)) in
  let f := fresh (dom reg1) in
  ED_ClearEdict p e l =
    Ok ({| free := false; area_linked := area_linked e; freetime := freetime e;
           v := entvars_zero; ref := r; fields := Zpos f |},
        {| stack := stack l; registry := <[f := LTable a]> reg1;
           tables := <[a := ∅]> (tables l); vectors := vectors l;
           globals := globals l |}).
Proof.
  unfold ED_ClearEdict, ED_EnsureFields. cbn.
  destruct (fields e) as [|q|q]; destruct (ref e =? 0); reflexivity.
Qed.

Lemma released_lookup_ne (h : Z) q reg :
  h <> Zpos q -> released h reg !! q = reg !! q.
Proof.
  intros Hne. destruct h as [|q'|q']; simpl; try done.
  apply lookup_delete_ne. congruence.
Qed.

Lemma live_insert_fresh h (reg0 : gmap positive lua_value) x l l' :
  registry l' = <[fresh (dom reg0) := x]> reg0 ->
  (forall q, h = Zpos q -> is_Some (registry l !! q) -> is_Some (reg0 !! q)) ->
  live h l = true -> live h l' = true.
Proof.
  intros Hr Hsub. destruct h as [|q|q]; simpl; try done.
  rewrite !bool_decide_eq_true. intros Hq. rewrite Hr.
  destruct (decide (fresh (dom reg0) = q)) as [->|Hne].
  - rewrite lookup_insert_eq. eauto.
  - rewrite lookup_insert_ne by done. by apply Hsub.
Qed.

(** X2.  [ED_ClearEdict] releases one reference only, that of the overflow
    table it replaces: any other reference of the registry is still there
    afterwards, also the ones held by the members it zeroes, which nothing
    of the edict refers to any more. *)
Theorem X2_clear_releases_only_the_table (p : nat) (e : edict_t) (l : lua_State)
    (h : Z) :
  live h l = true ->
  h <> fields e ->
  exists e' l', ED_ClearEdict p e l = Ok (e', l') /\
    v e' = entvars_zero /\ live h l' = true.
Proof.
  intros Hlive Hne. rewrite ED_ClearEdict_explicit. cbn zeta.
  eexists _, _. split; [reflexivity|]. split; [done|].
  set (reg0 := if fields e =? 0 then registry l else released (fields e) (registry l)).
  set (reg1 := if ref e =? 0 then <[fresh (dom reg0) := LEdict p]> reg0 else reg0).
  assert (H0 : forall q, fields e <> Zpos q -> reg0 !! q = registry l !! q).
  { intros q Hq. subst reg0. destruct (fields e =? 0); [done|].
    by apply released_lookup_ne. }
  assert (H1 : forall q, is_Some (reg0 !! q) -> is_Some (reg1 !! q)).
  { intros q Hq. subst reg1. destruct (ref e =? 0); [|done].
    destruct (decide (fresh (dom reg0) = q)) as [->|Hq'].
    - rewrite lookup_insert_eq. eauto.
    - by rewrite lookup_insert_ne. }
  destruct h as [|q|q]; simpl in *; try done.
  apply bool_decide_eq_true. apply bool_decide_eq_true in Hlive.
  destruct (decide (fresh (dom reg1) = q)) as [->|Hq].
  - rewrite lookup_insert_eq. eauto.
  - rewrite lookup_insert_ne by done. apply H1. rewrite H0; [done|congruence].
Qed.

Lemma X2_clear_releases_only_the_table_witness :
  exists e' l', ED_ClearEdict 3 monster_edict monster_lua = Ok (e', l') /\
    v e' = entvars_zero /\ live 1 l' = true.
Proof.
  apply (X2_clear_releases_only_the_table 3 monster_edict monster_lua 1).
  - vm_compute. reflexivity.
  - vm_compute. discriminate.
Defined.

(** X3.  The userdata of an edict.  [ED_ClearEdict] makes it when the edict
    has none, and [PROG_TO_EDICT] then finds the edict from its reference;
    an edict that has one keeps it: the edict is the same Lua object from
    one use of the slot to the next. *)
Theorem X3_edict_handle (p : nat) (e : edict_t) (l : lua_State) :
  exists e' l', ED_ClearEdict p e l = Ok (e', l') /\
    if ref e =? 0
    then 0 < ref e' /\ PROG_TO_EDICT (ref e') l' = Ok (Some p, l')
    else ref e' = ref e.
Proof.
  rewrite ED_ClearEdict_explicit. cbn zeta.
  eexists _, _. split; [reflexivity|]. cbn [ref].
  destruct (ref e =? 0); [|done]. split; [lia|].
  set (reg0 := if fields e =? 0 then registry l else released (fields e) (registry l)).
  set (reg1 := <[fresh (dom reg0) := LEdict p]> reg0).
  unfold PROG_TO_EDICT. cbn.
  unfold lua_rawgeti_registry, registry_get. cbn.
  assert (Hne : fresh (dom reg1) <> fresh (dom reg0)).
  { intros Heq. pose proof (fresh_registry_None reg1) as Hf.
    rewrite Heq in Hf. subst reg1. by rewrite lookup_insert_eq in Hf. }
  rewrite lookup_insert_ne by done. subst reg1. rewrite lookup_insert_eq.
  reflexivity.
Qed.

(** Reading a native member. *)
Lemma ED_mt_index_native_read p key w e m :
  edicts (sv w) !! p = Some e ->
  ED_mt_index_native key = Some m ->
  ED_mt_index (call_args [LEdict p; LString key] w) =
    l ← push_field m e (L (call_args [LEdict p; LString key] w));
    Ok (set_L l (call_args [LEdict p; LString key] w)).
Proof.
  intros He Hm. unfold ED_mt_index, call_args, edict_at.
  lua_unfold. simpl. rewrite He. simpl. by rewrite Hm.
Qed.





Lemma free_refs_zero ns e l :
  Forall (fun n => v_int (v e) n = 0) ns -> free_refs ns (e, l) = (e, l).
Proof.
  induction ns as [|n ns IH]; intros Hall; [done|].
  apply Forall_cons in Hall as [Hn Hall].
  rewrite free_refs_cons. unfold FREE_REF at 1. rewrite Hn. simpl. by apply IH.
Qed.

(** X5.  Freeing an edict that is already free releases nothing: the Lua
    state is left as it is, so no reference is released twice. *)
Theorem X5_free_twice_releases_nothing (p : nat) (w w1 : World) :
  ED_Free p w = Ok w1 ->
  exists w2, ED_Free p w1 = Ok w2 /\ L w2 = L w1 /\
    free <$> edicts (sv w2) !! p = Some true.
Proof.
  intros H1. pose proof H1 as H. apply on_edict_Ok in H as (e & _ & _ & He & _ & _).
  destruct (ED_Free_spec p w e He) as (w' & e1 & Hf & He1 & Hpost).
  rewrite H1 in Hf. injection Hf as <-.
  destruct Hpost as (_ & Hrefs & _).
  unfold ED_Free, on_edict, edict_at. rewrite He1. cbn [mbind result_bind].
  unfold ED_Free_edict.
  rewrite free_refs_zero.
  - cbn. eexists. split; [reflexivity|]. simpl. split; [by destruct (L w1)|].
    rewrite list_lookup_insert_eq by (by eapply lookup_lt_Some). done.
  - eapply Forall_impl; [exact Hrefs|]. simpl. tauto.
Qed.

Lemma X5_free_twice_releases_nothing_witness :
  exists w2, ED_Free 3 (world_after monster_world (ED_Free 3 monster_world)) = Ok w2 /\
    L w2 = L (world_after monster_world (ED_Free 3 monster_world)) /\
    free <$> edicts (sv w2) !! 3%nat = Some true.
Proof.
  apply (X5_free_twice_releases_nothing 3 monster_world). vm_compute. reflexivity.
Defined.



(** ** The entity bridge *)

Lemma ED_mt_newindex_native_run x key p w m :
  stack (L w) = [x; LString key; LEdict p] ->
  ED_mt_newindex_native key = Some m ->
  ED_mt_newindex w = on_edict (set_field m w) p w.
Proof.
  intros Hst Hm. unfold ED_mt_newindex.
  rewrite (args3_udata _ _ _ _ Hst), (args3_key _ _ _ _ Hst).
  cbn [mbind result_bind]. by rewrite Hm.
Qed.

(** X7.  Assigning to a member set with [SET_REF] that holds a reference
    does not make the registry grow: a value takes the place of the one
    released, and [nil] leaves one entry less. *)
Theorem X7_reassign_keeps_registry_size (w : World) (p : nat) (e : edict_t)
    (s : V.int) (x : lua_value) :
  edicts (sv w) !! p = Some e ->
  stack (L w) = [x; LString (V.int_name s); LEdict p] ->
  s ∉ edict_refs ->
  live (v_int (v e) s) (L w) = true ->
  exists w', ED_mt_newindex w = Ok w' /\
    size (registry (L w')) =
      match x with
      | LNil => pred (size (registry (L w)))
      | _ => size (registry (L w))
      end.
Proof.
  intros He Hst Hs Hlive.
  rewrite (ED_mt_newindex_native_run x _ p w (SET_REF s) Hst).
  2:{ rewrite ED_mt_newindex_native_int. by rewrite bool_decide_eq_false_2. }
  destruct (set_field_SET_REF s x w e (L w) (args3_value _ _ _ _ Hst))
    as (e' & l' & Hrun & _ & _ & _ & _ & _ & _ & Hpost).
  rewrite (on_edict_total _ p w e e' l' He Hrun).
  eexists. split; [reflexivity|]. simpl.
  destruct (v_int (v e) s) as [|q|q] eqn:Hq; simpl in Hlive; try done.
  apply bool_decide_eq_true in Hlive. simpl in Hpost.
  assert (Hdel : size (delete q (registry (L w))) = pred (size (registry (L w))))
    by (by apply map_size_delete_Some).
  assert (Hpos : (0 < size (registry (L w)))%nat).
  { destruct (size (registry (L w))) eqn:Hsz; [|lia].
    apply map_size_empty_inv in Hsz. rewrite Hsz in Hlive.
    destruct Hlive as [? Hl]. by rewrite lookup_empty in Hl. }
  destruct x; try (destruct Hpost as (h & _ & Hnone & ->);
                   rewrite map_size_insert_None by done; lia).
  destruct Hpost as [_ ->]. done.
Qed.

Lemma X7_reassign_keeps_registry_size_witness :
  exists w', ED_mt_newindex monster_renamed = Ok w' /\
    size (registry (L w')) = size (registry (L monster_renamed)).
Proof.
  apply (X7_reassign_keeps_registry_size monster_renamed 3 monster_edict
           V.classname (LString "monster_cat")).
  - reflexivity.
  - reflexivity.
  - apply (bool_decide_unpack _). vm_compute. exact I.
  - vm_compute. reflexivity.
Defined.

(** Which macros handle the number and the vector members. *)
Lemma natives_float s :
  ED_mt_newindex_native (V.float_name s) =
    Some (if decide (s = V.fixangle) then SET_BOOLEAN s else SET_FLOAT s) /\
  ED_mt_index_native (V.float_name s) =
    Some (if decide (s = V.fixangle) then PUSH_BOOLEAN s else PUSH_FLOAT s).
Proof. destruct s; vm_compute; split; reflexivity. Qed.

Lemma natives_vec s :
  ED_mt_newindex_native (V.vec_name s) = Some (SET_VEC3 s) /\
  ED_mt_index_native (V.vec_name s) = Some (PUSH_VEC3 s).
Proof. destruct s; vm_compute; split; reflexivity. Qed.

(** X8.  A number assigned to a number member is read back as the [float]
    nearest to it, the member being a [float], and nothing else of the
    process changes: not the Lua state, not the other members.  So 7 and 3.5
    are read back as they are, 0.1 as 13421773 / 2^27 and 16777217 as
    16777216.  For [fixangle], the one member set from a boolean, the
    boolean assigned is the boolean read back. *)
Theorem X8_member_round_trip (w : World) (p : nat) (e : edict_t) (s : V.float)
    (n : number) (b : bool) :
  edicts (sv w) !! p = Some e ->
  stack (L w) =
    [if decide (s = V.fixangle) then LBoolean b else LNumber n;
     LString (V.float_name s); LEdict p] ->
  exists w' e', ED_mt_newindex w = Ok w' /\
    field_value p (V.float_name s) w' =
      Some (if decide (s = V.fixangle) then LBoolean b
            else LNumber (to_float n)) /\
    L w' = L w /\
    edicts (sv w') !! p = Some e' /\
    (forall s', s' <> s -> v_float (v e') s' = v_float (v e) s') /\
    v_vec (v e') = v_vec (v e) /\ v_int (v e') = v_int (v e) /\
    to_float (NFin 7) = NFin 7 /\ to_float (NFin 3.5) = NFin 3.5 /\
    to_float (NFin 0.1) = NFin (13421773 # 134217728) /\
    to_float (NFin 16777217) = NFin 16777216.
Proof.
  intros He Hst. destruct (natives_float s) as [Hset Hget].
  assert (Hlen : (p < length (edicts (sv w)))%nat) by (by eapply lookup_lt_Some).
  rewrite (ED_mt_newindex_native_run _ _ p w _ Hst Hset).
  pose proof (args3_value _ _ _ _ Hst) as Hx.
  destruct (decide (s = V.fixangle)) as [->|Hs].
  - erewrite on_edict_total; [|exact He|].
    2:{ unfold set_field. rewrite Hx. reflexivity. }
    eexists _, _. split; [reflexivity|].
    split.
    { unfold field_value. erewrite ED_mt_index_native_read;
        [|simpl; by apply list_lookup_insert_eq|exact Hget].
      simpl. rewrite ?fn_lookup_insert. by destruct b. }
    split; [by destruct (L w)|].
    split; [simpl; by apply list_lookup_insert_eq|].
    split; [intros s' Hs'; simpl; by rewrite fn_lookup_insert_ne|].
    repeat split; vm_compute; reflexivity.
  - erewrite on_edict_total; [|exact He|].
    2:{ unfold set_field, luaL_checknumber3. rewrite Hx. reflexivity. }
    eexists _, _. split; [reflexivity|].
    split.
    { unfold field_value. erewrite ED_mt_index_native_read;
        [|simpl; by apply list_lookup_insert_eq|exact Hget].
      simpl. by rewrite fn_lookup_insert. }
    split; [by destruct (L w)|].
    split; [simpl; by apply list_lookup_insert_eq|].
    split; [intros s' Hs'; simpl; by rewrite fn_lookup_insert_ne|].
    repeat split; vm_compute; reflexivity.
Qed.

Lemma X8_member_round_trip_witness :
  exists w' e', ED_mt_newindex health_assign = Ok w' /\
    field_value 1 "health" w' = Some (LNumber (to_float (NFin 7))) /\
    L w' = L health_assign /\
    edicts (sv w') !! 1%nat = Some e' /\
    (forall s', s' <> V.health -> v_float (v e') s' = v_float (v spawned.1) s') /\
    v_vec (v e') = v_vec (v spawned.1) /\ v_int (v e') = v_int (v spawned.1) /\
    to_float (NFin 7) = NFin 7 /\ to_float (NFin 3.5) = NFin 3.5 /\
    to_float (NFin 0.1) = NFin (13421773 # 134217728) /\
    to_float (NFin 16777217) = NFin 16777216.
Proof.
  apply (X8_member_round_trip health_assign 1 spawned.1 V.health (NFin 7) false);
    reflexivity.
Defined.

Lemma field_vector_native p s w e :
  edicts (sv w) !! p = Some e ->
  field_vector p (V.vec_name s) w = Some (v_vec (v e) s).
Proof.
  intros He. destruct (natives_vec s) as [_ Hget].
  unfold field_vector. rewrite (ED_mt_index_native_read p _ w e _ He Hget).
  simpl. apply lookup_insert_eq.
Qed.

(** X9.  A vector member has its own storage: assigning a vector copies its
    three components into the edict, and every read makes a new vector from
    them.  Whatever a script then writes into a vector it holds, the one it
    assigned or one it read, the member reads as assigned. *)
Theorem X9_vector_member_is_copied (w : World) (p : nat) (e : edict_t) (s : V.vec)
    (o : nat) (vec : vec3_t) :
  edicts (sv w) !! p = Some e ->
  stack (L w) = [LVec3 o; LString (V.vec_name s); LEdict p] ->
  vectors (L w) !! o = Some vec ->
  exists w', ED_mt_newindex w = Ok w' /\
    field_vector p (V.vec_name s) w' = Some vec /\
    forall a x, field_vector p (V.vec_name s) (write_vector a x w') = Some vec.
Proof.
  intros He Hst Ho. destruct (natives_vec s) as [Hset _].
  assert (Hlen : (p < length (edicts (sv w)))%nat) by (by eapply lookup_lt_Some).
  rewrite (ED_mt_newindex_native_run _ _ p w _ Hst Hset).
  erewrite on_edict_total; [|exact He|].
  2:{ unfold set_field, PR_Vec3_ToVec. rewrite (args3_value _ _ _ _ Hst).
      cbn [mbind result_bind]. rewrite Ho. reflexivity. }
  eexists. split; [reflexivity|]. split.
  - erewrite field_vector_native; [|simpl; by apply list_lookup_insert_eq].
    simpl. by rewrite fn_lookup_insert.
  - intros a x. erewrite field_vector_native.
    2:{ unfold write_vector. simpl. by apply list_lookup_insert_eq. }
    simpl. by rewrite fn_lookup_insert.
Qed.

Lemma X9_vector_member_is_copied_witness :
  exists w', ED_mt_newindex velocity_assign = Ok w' /\
    field_vector 1 "velocity" w' = Some (NFin 1, NFin 2, NFin 3) /\
    forall a x, field_vector 1 "velocity" (write_vector a x w')
                = Some (NFin 1, NFin 2, NFin 3).
Proof.
  apply (X9_vector_member_is_copied velocity_assign 1 spawned.1 V.velocity 0);
    vm_compute; reflexivity.
Defined.

(** X10.  Assigning to a native member raises a Lua error exactly when the
    value has the wrong type: anything but a number, or a text that spells
    one, for a number member; anything but a boolean for [fixangle];
    anything but a vector for a vector member; anything but [nil] or an
    edict for a member holding the reference of an edict.  A member set with
    [SET_REF] takes any value. *)
Theorem X10_wrong_type_is_an_error (w : World) (p : nat) (e : edict_t)
    (key : string) (m : set_macro) (x : lua_value) :
  edicts (sv w) !! p = Some e ->
  stack (L w) = [x; LString key; LEdict p] ->
  ED_mt_newindex_native key = Some m ->
  (exists msg, ED_mt_newindex w = LuaError msg) <-> accepts m x = false.
Proof.
  intros He Hst Hm.
  rewrite (ED_mt_newindex_native_run _ _ p w _ Hst Hm).
  pose proof (args3_value _ _ _ _ Hst) as Hx.
  unfold on_edict, edict_at. rewrite He. cbn [mbind result_bind].
  assert (Hno : forall A (r : result A), is_ok r = true \/ r = Fault ->
            (exists msg, r = LuaError msg) <-> true = false).
  { intros A r Hr. split; [|done]. intros [msg Hmsg]. subst r.
    by destruct Hr. }
  assert (Hyes : forall A msg, (exists msg', @LuaError A msg = LuaError msg') <-> false = false).
  { intros A msg. split; eauto. }
  destruct m as [s|s|s|s|s].
  - unfold set_field. rewrite Hx.
    destruct x; simpl; try apply Hyes. apply Hno. by left.
  - unfold set_field, luaL_checknumber3. rewrite Hx.
    destruct x; simpl; try apply Hyes; [apply Hno; by left|].
    destruct (lua_str2number s0) as [n|] eqn:Hn; simpl.
    + apply Hno. by left.
    + apply Hyes.
  - unfold set_field, PR_Vec3_ToVec. rewrite Hx.
    destruct x; simpl; try apply Hyes.
    destruct (vectors (L w) !! a) eqn:Ha; simpl; apply Hno; auto.
  - destruct (set_field_SET_REF s x w e (L w) Hx) as (e' & l' & Hrun & _).
    rewrite Hrun. simpl. apply Hno. by left.
  - unfold set_field, lua_isnil, luaL_checkudata_edict. rewrite Hx.
    destruct x; simpl; try apply Hyes; [apply Hno; by left|].
    unfold edict_at. destruct (edicts (sv w) !! n) eqn:Hn; simpl; apply Hno; auto.
Qed.

Lemma X10_wrong_type_is_an_error_witness :
  exists msg, ED_mt_newindex (fixangle_assign (LNumber (NFin 1))) = LuaError msg.
Proof.
  apply (X10_wrong_type_is_an_error (fixangle_assign (LNumber (NFin 1))) 1 spawned.1
           "fixangle" (SET_BOOLEAN V.fixangle) (LNumber (NFin 1)));
    reflexivity.
Defined.



(** X12.  The text parser and the bridge do not know the same native
    members.  A key that [ED_mt_index] reads from a native member but that
    is none of the ten native keys of [ED_SetField] ([velocity], [noise],
    [nextthink], ...) is stored by the parser in the overflow table, where
    the bridge never looks for it: the edict is unchanged and a script reads
    under the key what it read before. *)
Theorem X12_parsed_value_is_shadowed (p : nat) (key value : string) (w : World)
    (e : edict_t) (a : nat) (t : gmap string lua_value) (m : push_macro) :
  edicts (sv w) !! p = Some e ->
  ED_SetField_native key = None ->
  ED_mt_index_native key = Some m ->
  registry_get (fields e) (L w) = LTable a ->
  tables (L w) !! a = Some t ->
  exists l' t', ED_SetField key value e (L w) = Ok (true, e, l') /\
    tables l' !! a = Some t' /\ is_Some (t' !! key) /\
    match m with
    | PUSH_VEC3 s =>
        field_vector p key (put_edict p e (set_L l' w)) = Some (v_vec (v e) s)
    | _ =>
        field_value p key (put_edict p e (set_L l' w)) = field_value p key w
    end.
Proof.
  intros He Hnat Hidx Hreg Ht.
  assert (Hlen : (p < length (edicts (sv w)))%nat) by (by eapply lookup_lt_Some).
  destruct (ED_SetField_overflow key value e (L w) a t Hnat Hreg Ht)
    as (l' & Hrun & Hst & Hrg & _ & Hold).
  assert (Hstored : exists t', tables l' !! a = Some t' /\ is_Some (t' !! key)).
  { unfold overflow_holds in Hold.
    destruct (infer (unescape value)); destruct Hold as [Htab _];
      eexists; (split; [exact Htab|]); rewrite lookup_insert_eq; eauto. }
  destruct Hstored as (t' & Htab & Hkey).
  exists l', t'. split; [done|]. split; [done|]. split; [done|].
  assert (He' : edicts (sv (put_edict p e (set_L l' w))) !! p = Some e).
  { simpl. by apply list_lookup_insert_eq. }
  unfold field_value, field_vector.
  rewrite (ED_mt_index_native_read p key _ e m He' Hidx).
  rewrite (ED_mt_index_native_read p key w e m He Hidx).
  destruct m; simpl; try done.
  - by destruct (int_of_number (v_float (v e) s)).
  - destruct (v_int (v e) s =? 0); [done|].
    unfold lua_rawgeti_registry, registry_get. simpl. by rewrite Hrg.
  - apply lookup_insert_eq.
Qed.

Lemma X12_parsed_value_is_shadowed_witness :
  exists l' t', ED_SetField "velocity" "1 2 3" spawned.1 (L spawned_world)
                = Ok (true, spawned.1, l') /\
    tables l' !! 0%nat = Some t' /\ is_Some (t' !! "velocity") /\
    field_vector 1 "velocity" (put_edict 1 spawned.1 (set_L l' spawned_world))
      = Some (v_vec (v spawned.1) V.velocity).
Proof.
  apply (X12_parsed_value_is_shadowed 1 "velocity" "1 2 3" spawned_world spawned.1
           0 ∅ (PUSH_VEC3 V.velocity)); vm_compute; reflexivity.
Defined.

(** ** Text *)

Lemma string_app_cons x (a b : string) : String x a ++ b = String x (a ++ b).
Proof. reflexivity. Qed.

Lemma string_of_list_ascii_snoc l c :
  string_of_list_ascii (l ++ [c]) = string_of_list_ascii l ++ String c EmptyString.
Proof.
  induction l as [|a l IH]; [done|]. cbn [app string_of_list_ascii].
  by rewrite IH, string_app_cons.
Qed.

Lemma string_app_assoc (a b c : string) : (a ++ b) ++ c = a ++ (b ++ c).
Proof. induction a as [|x a IH]; [done|]. by rewrite !string_app_cons, IH. Qed.

Lemma string_app_nil_r (a : string) : a ++ EmptyString = a.
Proof. induction a as [|x a IH]; [done|]. by rewrite string_app_cons, IH. Qed.

Lemma written_snoc w c (s : string) :
  string_of_list_ascii (rev (c :: w)) ++ s = string_of_list_ascii (rev w) ++ String c s.
Proof.
  cbn [rev]. rewrite string_of_list_ascii_snoc, string_app_assoc. reflexivity.
Qed.

Lemma replace_other c r :
  c <> backslash -> replace_backslash_n (String c r) = String c (replace_backslash_n r).
Proof.
  intros Hc. destruct r as [|c' r']; simpl; [done|].
  destruct (Ascii.eqb c backslash) eqn:E; [|done].
  apply Ascii.eqb_eq in E. done.
Qed.

Lemma replace_backslash_other c r :
  c <> "n"%char ->
  replace_backslash_n (String backslash (String c r)) =
    String backslash (replace_backslash_n (String c r)).
Proof.
  intros Hc. cbn [replace_backslash_n].
  destruct (Ascii.eqb c "n") eqn:E; [apply Ascii.eqb_eq in E; done|].
  by rewrite andb_false_r.
Qed.

Lemma unescape_loop_spec v0 : forall w,
  (forall prev, prev <> Some backslash ->
     unescape_loop prev v0 w = string_of_list_ascii (rev w) ++ replace_backslash_n v0) /\
  (unescape_loop (Some backslash) v0 (backslash :: w) =
     string_of_list_ascii (rev w) ++ replace_backslash_n (String backslash v0)).
Proof.
  induction v0 as [|c v' IH]; intros w.
  - split.
    + intros prev _. simpl. by rewrite string_app_nil_r.
    + cbn [unescape_loop replace_backslash_n]. by rewrite <- written_snoc, string_app_nil_r.
  - split.
    + intros prev Hprev. cbn [unescape_loop].
      rewrite (bool_decide_eq_false_2 _ Hprev). cbn [andb].
      destruct (decide (c = backslash)) as [->|Hc].
      * apply (IH w).
      * destruct (IH (c :: w)) as [IHa _]. rewrite IHa by congruence.
        rewrite written_snoc. by rewrite replace_other.
    + cbn [unescape_loop]. rewrite bool_decide_eq_true_2 by done. cbn [andb].
      destruct (Ascii.eqb c "n") eqn:Hn.
      * apply Ascii.eqb_eq in Hn. subst c. cbn [tail].
        destruct (IH (newline :: w)) as [IHa _]. rewrite IHa by done.
        rewrite written_snoc. reflexivity.
      * apply Ascii.eqb_neq in Hn.
        rewrite replace_backslash_other by done.
        destruct (decide (c = backslash)) as [->|Hc].
        -- destruct (IH (backslash :: w)) as [_ IHb]. rewrite IHb.
           by rewrite written_snoc.
        -- destruct (IH (c :: backslash :: w)) as [IHa _]. rewrite IHa by congruence.
           rewrite !written_snoc. by rewrite replace_other.
Qed.

(** X13.  The loop that unescapes a value in place does what a plain
    rewriting from left to right does: each backslash followed by [n]
    becomes one new line, and every other character is kept. *)
Theorem X13_unescape_is_replacement (value : string) :
  unescape value = replace_backslash_n value.
Proof.
  unfold unescape. destruct (unescape_loop_spec value []) as [H _].
  by rewrite H.
Qed.



(** ** The text parser *)

Lemma ED_SetField_not_NoFuel key value e l : ED_SetField key value e l <> NoFuel.
Proof.
  unfold ED_SetField.
  destruct (ED_SetField_native key) as [[s|s|s]|]; try done.
  match goal with |- context [lua_rawset (-3) ?x] =>
    assert (Hr : lua_rawset (-3) x <> NoFuel) end.
  { unfold lua_rawset.
    repeat match goal with |- context [match ?y with _ => _ end] =>
      destruct y end; done. }
  match goal with |- context [lua_rawset (-3) ?x] =>
    destruct (lua_rawset (-3) x) end; done.
Qed.

Section ParserTermination.

Variable COM_Parse : string -> option string * string.
Hypothesis COM_Parse_consumes : consumes COM_Parse.

Lemma ED_ParseEdict_loop_fuel fuel : forall data init e l,
  (String.length data < fuel)%nat ->
  ED_ParseEdict_loop COM_Parse fuel data init e l <> NoFuel.
Proof.
  induction fuel as [|fuel IH]; intros data init e l Hfuel; [lia|].
  cbn [ED_ParseEdict_loop].
  destruct (COM_Parse data) as [[d1|] tok] eqn:H1;
    [|by destruct (first_char_is "}" tok)].
  apply COM_Parse_consumes in H1.
  destruct (first_char_is "}" tok); [done|].
  destruct (String.eqb tok "angle"); cbn beta iota zeta;
    (match goal with |- context [(256 <=? ?n)%nat] =>
       destruct (256 <=? n)%nat end; [done|]);
    (destruct (COM_Parse d1) as [[d2|] x] eqn:H2; [|done]);
    apply COM_Parse_consumes in H2;
    (destruct (first_char_is "}" x); [done|]);
    (assert (Hd2 : (String.length d2 < fuel)%nat) by lia);
    (destruct (first_char_is "_" _); [by apply IH|]);
    try (match goal with |- context [(32 <=? ?n)%nat] =>
           destruct (32 <=? n)%nat end; [done|]);
    cbn [mbind result_bind];
    match goal with |- context [ED_SetField ?k ?y e l] =>
      pose proof (ED_SetField_not_NoFuel k y e l) as Hs;
      destruct (ED_SetField k y e l) as [[[b e1] l1]| | | |] end; try done;
    cbn; (destruct b; [by apply IH|done]).
Qed.

End ParserTermination.

(** X15.  With a tokenizer that moves forward at every token, the loop of
    [ED_ParseEdict] ends: as many rounds as the text has characters, and one
    more, are enough for it to return or to stop on an error. *)
Theorem X15_parser_terminates (COM_Parse : string -> option string * string)
    (fuel : nat) (data : string) (ent : nat) (w : World) :
  consumes COM_Parse ->
  (String.length data < fuel)%nat ->
  ED_ParseEdict COM_Parse fuel data ent w <> NoFuel.
Proof.
  intros Hc Hfuel. unfold ED_ParseEdict.
  unfold edict_at. destruct (edicts (sv w) !! ent) as [e|]; cbn; try done.
  match goal with |- context [ED_ParseEdict_loop COM_Parse fuel data false ?e1 ?l1] =>
    pose proof (ED_ParseEdict_loop_fuel COM_Parse Hc fuel data false e1 l1 Hfuel) as H;
    destruct (ED_ParseEdict_loop COM_Parse fuel data false e1 l1)
      as [[[[d i] e2] l2]| | | |] end; cbn; done.
Qed.

Lemma com_quoted_length s : (String.length (com_quoted s).2 <= String.length s)%nat.
Proof.
  induction s as [|c r IH]; simpl; [lia|].
  destruct (Ascii.eqb c quote); simpl; [lia|].
  destruct (com_quoted r) as [tok r']. simpl in *. lia.
Qed.

Lemma com_word_length s : (String.length (com_word s).2 <= String.length s)%nat.
Proof.
  induction s as [|c r IH]; simpl; [lia|].
  destruct (_ || _); simpl; [lia|].
  destruct (com_word r) as [tok r']. simpl in *. lia.
Qed.

Lemma COM_Parse_spec_consumes : consumes COM_Parse_spec.
Proof.
  unfold consumes, COM_Parse_spec. intros data. generalize false.
  induction data as [|c r IH]; intros comment data' tok; simpl; [done|].
  destruct comment.
  { intros H. apply IH in H. lia. }
  destruct (_ <=? _)%nat.
  { intros H. apply IH in H. lia. }
  destruct (_ && _).
  { intros H. apply IH in H. lia. }
  destruct (Ascii.eqb c quote).
  { pose proof (com_quoted_length r). destruct (com_quoted r) as [t r'].
    intros [= <- _]. simpl in *. lia. }
  destruct (is_brace c).
  { intros [= <- _]. lia. }
  pose proof (com_word_length r). destruct (com_word r) as [t r'].
  intros [= <- _]. simpl in *. lia.
Qed.

Lemma X15_parser_terminates_witness :
  ED_ParseEdict COM_Parse_spec (S (String.length example_block)) example_block 1
    spawned_world <> NoFuel.
Proof.
  apply (X15_parser_terminates COM_Parse_spec).
  - exact COM_Parse_spec_consumes.
  - lia.
Defined.

Section ParserReturns.

Variable COM_Parse : string -> option string * string.

Opaque ED_SetField.

Lemma ED_ParseEdict_loop_Ok fuel : forall data init e l data' init' e' l',
  ED_ParseEdict_loop COM_Parse fuel data init e l = Ok (data', init', e', l') ->
  exists ps, reads_block COM_Parse data ps data' /\
    assign_pairs ps e l = Ok (e', l') /\
    init' = match ps with [] => init | _ => true end.
Proof.
  induction fuel as [|fuel IH]; intros data init e l data' init' e' l'; [done|].
  cbn [ED_ParseEdict_loop].
  destruct (COM_Parse data) as [d tok] eqn:H1.
  destruct (first_char_is "}" tok) eqn:Hclose.
  { intros [= <- <- <- <-]. exists []. simpl. by rewrite H1. }
  destruct d as [d1|]; [|done].
  destruct (COM_Parse d1) as [[d2|] x] eqn:H2.
  2:{ destruct (String.eqb tok "angle"); cbn beta iota zeta;
        by match goal with |- context [(256 <=? ?n)%nat] =>
             destruct (256 <=? n)%nat end. }
  assert (Hblock : forall ps, reads_block COM_Parse d2 ps data' ->
            reads_block COM_Parse data ((tok, x) :: ps) data' \/
            first_char_is "}" x = true).
  { intros ps Hps. destruct (first_char_is "}" x) eqn:Hx; [by right|left].
    simpl. rewrite H1, H2. by repeat split. }
  unfold legacy_pair in *.
  destruct (String.eqb tok "angle") eqn:Hangle.
  - apply String.eqb_eq in Hangle. subst tok.
    cbn [String.eqb Ascii.eqb Bool.eqb first_char_is].
    match goal with |- context [(256 <=? ?n)%nat] =>
      destruct (256 <=? n)%nat end; [done|].
    destruct (first_char_is "}" x) eqn:Hx; [done|].
    destruct (32 <=? String.length x)%nat; [done|]. cbn [mbind result_bind].
    destruct (ED_SetField "angles" _ e l) as [[[b e1] l1]| | | |] eqn:Hs; try done.
    cbn [mbind result_bind]. destruct b; [|done].
    intros H. apply IH in H as (ps & Hps & Ha & ->).
    exists (("angle", x) :: ps). split; [|split; [|by destruct ps]].
    + destruct (Hblock ps Hps) as [?|?]; [done|congruence].
    + cbn. unfold legacy_pair. cbn. by rewrite Hs.
  - cbn beta iota zeta. destruct (String.eqb tok "light") eqn:Hlight.
    + apply String.eqb_eq in Hlight. subst tok.
      match goal with |- context [(256 <=? ?n)%nat] =>
        destruct (256 <=? n)%nat end; [done|].
      cbn [first_char_is Ascii.eqb Bool.eqb].
      destruct (first_char_is "}" x) eqn:Hx; [done|]. cbn [mbind result_bind].
      destruct (ED_SetField "light_lev" x e l) as [[[b e1] l1]| | | |] eqn:Hs;
        try done.
      cbn [mbind result_bind]. destruct b; [|done].
      intros H. apply IH in H as (ps & Hps & Ha & ->).
      exists (("light", x) :: ps). split; [|split; [|by destruct ps]].
      * destruct (Hblock ps Hps) as [?|?]; [done|congruence].
      * cbn. unfold legacy_pair. cbn. by rewrite Hs.
    + destruct (256 <=? String.length tok)%nat; [done|].
      destruct (first_char_is "}" x) eqn:Hx; [done|].
      destruct (first_char_is "_" tok) eqn:Hus.
      * intros H. apply IH in H as (ps & Hps & Ha & ->).
        exists ((tok, x) :: ps). split; [|split; [|by destruct ps]].
        -- destruct (Hblock ps Hps) as [?|?]; [done|congruence].
        -- cbn. unfold legacy_pair. by rewrite Hus.
      * cbn [mbind result_bind].
        destruct (ED_SetField tok x e l) as [[[b e1] l1]| | | |] eqn:Hs; try done.
        cbn [mbind result_bind]. destruct b; [|done].
        intros H. apply IH in H as (ps & Hps & Ha & ->).
        exists ((tok, x) :: ps). split; [|split; [|by destruct ps]].
        -- destruct (Hblock ps Hps) as [?|?]; [done|congruence].
        -- cbn. unfold legacy_pair. rewrite Hus, Hangle, Hlight. by rewrite Hs.
Qed.

Transparent ED_SetField.

End ParserReturns.

(** X16.  [ED_ParseEdict] returns only at a closing brace: whenever its loop
    returns, the tokenizer has read some keys and values and then a closing
    brace, the edict has received the field assignments of these pairs, in
    order, and [init] is set if there was a pair.  A text that ends before
    the brace, or has a brace where a value should be, never makes it
    return. *)
Theorem X16_parser_returns_at_closing_brace
    (COM_Parse : string -> option string * string) (fuel : nat) (data : string)
    (init : bool) (e : edict_t) (l : lua_State) (data' : option string)
    (init' : bool) (e' : edict_t) (l' : lua_State) :
  ED_ParseEdict_loop COM_Parse fuel data init e l = Ok (data', init', e', l') ->
  exists ps, reads_block COM_Parse data ps data' /\
    assign_pairs ps e l = Ok (e', l') /\
    init' = match ps with [] => init | _ => true end.
Proof. apply ED_ParseEdict_loop_Ok. Qed.

Lemma X16_parser_returns_at_closing_brace_witness :
  exists ps, reads_block COM_Parse_spec example_block ps example_read.1.1.1 /\
    assign_pairs ps spawned.1 spawned.2 = Ok (example_read.1.2, example_read.2) /\
    example_read.1.1.2 = match ps with [] => false | _ => true end.
Proof.
  apply (X16_parser_returns_at_closing_brace COM_Parse_spec 5 example_block false
           spawned.1 spawned.2).
  vm_compute. reflexivity.
Defined.

(** ** The angle of an entity

    A number followed by a space scans as the number alone does: this is
    what makes "0 v 0" the vector (0, v, 0). *)

Lemma string_app_nil_l (b : string) : EmptyString ++ b = b.
Proof. reflexivity. Qed.

Ltac app_step := rewrite ?string_app_cons, ?string_app_nil_l.

Section ScanThenSpace.

Variable t0 : string.

Local Abbreviation sp := (String " " t0).

Lemma scan_digits_sp val b s : val " "%char = None -> forall acc n,
  scan_digits val b acc n (s ++ sp) =
    let '(a, k, r) := scan_digits val b acc n s in (a, k, r ++ sp).
Proof.
  intros Hval. induction s as [|c r IH]; intros acc n.
  - app_step; cbn [scan_digits]. cbn [scan_digits]. by rewrite Hval.
  - app_step; cbn [scan_digits]. destruct (val c); [apply IH|done].
Qed.

Lemma scan_sign_sp s :
  scan_sign (s ++ sp) = let '(neg, s1) := scan_sign s in (neg, s1 ++ sp).
Proof.
  destruct s as [|c r]; [reflexivity|].
  destruct c as [[] [] [] [] [] [] [] []]; reflexivity.
Qed.

Lemma scan_point_sp val b s : val " "%char = None ->
  scan_point val b (s ++ sp) =
    let '(a, k, r) := scan_point val b s in (a, k, r ++ sp).
Proof.
  intros Hval. destruct s as [|c r]; [reflexivity|].
  destruct c as [[] [] [] [] [] [] [] []]; try reflexivity.
  app_step; cbn [scan_point]. by apply scan_digits_sp.
Qed.

Lemma scan_open_sp s :
  scan_open (s ++ sp) = (fun r => r ++ sp) <$> scan_open s.
Proof.
  destruct s as [|c r]; [reflexivity|].
  destruct c as [[] [] [] [] [] [] [] []]; reflexivity.
Qed.

Lemma scan_close_sp s :
  scan_close (s ++ sp) = (fun r => r ++ sp) <$> scan_close s.
Proof.
  destruct s as [|c r]; [reflexivity|].
  destruct c as [[] [] [] [] [] [] [] []]; reflexivity.
Qed.

Lemma skip_nchars_sp s : skip_nchars (s ++ sp) = skip_nchars s ++ sp.
Proof.
  induction s as [|c r IH]; [reflexivity|].
  app_step; cbn [skip_nchars]. by destruct (isnchar c).
Qed.

Lemma strip_prefix_nocase_sp p : forall s,
  (forall a, In a (list_ascii_of_string p) -> a <> " "%char) ->
  strip_prefix_nocase p (s ++ sp) = (fun r => r ++ sp) <$> strip_prefix_nocase p s.
Proof.
  induction p as [|a p IH]; intros s Hp.
  - by destruct s.
  - destruct s as [|c r].
    + app_step; cbn [strip_prefix_nocase].
      change (tolower " ") with " "%char.
      destruct (Ascii.eqb a " ") eqn:E; [|done].
      apply Ascii.eqb_eq in E. exfalso. apply (Hp a); [by left|done].
    + app_step; cbn [strip_prefix_nocase].
      destruct (Ascii.eqb a (tolower c)); [|done].
      apply IH. intros x Hx. apply Hp. by right.
Qed.

Ltac no_space := intros ? Hin; cbn in Hin; intuition (subst; discriminate).

Lemma scanexp_sp s :
  scanexp (s ++ sp) = (fun er => (er.1, er.2 ++ sp)) <$> scanexp s.
Proof.
  change (scanexp (s ++ sp)) with
    (let '(neg, s1) := scan_sign (s ++ sp) in
     let '(e, n, s2) := scan_digits digit_val 10 0 0 s1 in
     if (n =? 0)%nat then None else Some (if neg then - e else e, s2)).
  change (scanexp s) with
    (let '(neg, s1) := scan_sign s in
     let '(e, n, s2) := scan_digits digit_val 10 0 0 s1 in
     if (n =? 0)%nat then None else Some (if neg then - e else e, s2)).
  rewrite scan_sign_sp. destruct (scan_sign s) as [neg s1].
  rewrite scan_digits_sp by done.
  destruct (scan_digits digit_val 10 0 0 s1) as [[e n] s2].
  by destruct (n =? 0)%nat.
Qed.

Lemma scan_mantissa_sp val b ec eb pok s :
  val " "%char = None -> Ascii.eqb " " ec = false ->
  scan_mantissa val b ec eb pok (s ++ sp) =
    (fun qr => (qr.1, qr.2 ++ sp)) <$> scan_mantissa val b ec eb pok s.
Proof.
  intros Hval Hec.
  assert (Hunfold : forall x, scan_mantissa val b ec eb pok x =
    let '(ip, ni, s1) := scan_digits val b 0 0 x in
    let '(fp, nf, s2) := scan_point val b s1 in
    if (ni + nf =? 0)%nat then None
    else
      let m := (inject_Z ip + inject_Z fp / inject_Z (b ^ Z.of_nat nf))%Q in
      match s2 with
      | String c r =>
          if Ascii.eqb (tolower c) ec then
            match scanexp r with
            | Some (e, s3) => Some ((m * eb ^ e)%Q, s3)
            | None => if pok then Some (m, s2) else None
            end
          else Some (m, s2)
      | EmptyString => Some (m, s2)
      end) by reflexivity.
  rewrite !Hunfold. rewrite scan_digits_sp by done.
  destruct (scan_digits val b 0 0 s) as [[ip ni] s1].
  rewrite scan_point_sp by done.
  destruct (scan_point val b s1) as [[fp nf] s2].
  destruct (ni + nf =? 0)%nat; [done|]. cbn zeta.
  destruct s2 as [|c r].
  - app_step. change (tolower " ") with " "%char.
    by rewrite Hec.
  - app_step. destruct (Ascii.eqb (tolower c) ec); [|done].
    rewrite scanexp_sp. destruct (scanexp r) as [[e s3]|]; [done|].
    by destruct pok.
Qed.

Lemma scan_inf_sp pok neg s :
  scan_inf pok neg (s ++ sp) = (fun xr => (xr.1, xr.2 ++ sp)) <$> scan_inf pok neg s.
Proof.
  unfold scan_inf. rewrite (strip_prefix_nocase_sp "inf") by no_space.
  destruct (strip_prefix_nocase "inf" s) as [s1|]; [|done]. cbn [fmap option_fmap option_map].
  rewrite (strip_prefix_nocase_sp "inity") by no_space.
  destruct (strip_prefix_nocase "inity" s1) as [s2|]; [done|].
  cbn [fmap option_fmap option_map].
  rewrite (strip_prefix_nocase_sp "i") by no_space.
  destruct (strip_prefix_nocase "i" s1) as [s2|]; [by destruct pok|done].
Qed.

Lemma scan_nan_parts pok s :
  scan_nan pok s =
    match strip_prefix_nocase "nan" s with
    | Some s1 =>
        match scan_open s1 with
        | Some r =>
            match scan_close (skip_nchars r) with
            | Some s2 => Some (NNaN, s2)
            | None => if pok then Some (NNaN, s1) else None
            end
        | None => Some (NNaN, s1)
        end
    | None => None
    end.
Proof.
  unfold scan_nan. destruct (strip_prefix_nocase "nan" s) as [[|c r]|]; try reflexivity.
  destruct c as [[] [] [] [] [] [] [] []]; try reflexivity.
  cbn [scan_open]. destruct (skip_nchars r) as [|c' r']; [reflexivity|].
  destruct c' as [[] [] [] [] [] [] [] []]; reflexivity.
Qed.

Lemma scan_nan_sp pok s :
  scan_nan pok (s ++ sp) = (fun xr => (xr.1, xr.2 ++ sp)) <$> scan_nan pok s.
Proof.
  rewrite !scan_nan_parts. rewrite (strip_prefix_nocase_sp "nan") by no_space.
  destruct (strip_prefix_nocase "nan" s) as [s1|]; [|done].
  cbn [fmap option_fmap option_map].
  rewrite scan_open_sp. destruct (scan_open s1) as [r|]; [|done].
  cbn [fmap option_fmap option_map].
  rewrite skip_nchars_sp, scan_close_sp.
  destruct (scan_close (skip_nchars r)) as [s2|]; [done|].
  by destruct pok.
Qed.

Lemma floatscan_sp pok s :
  floatscan pok (s ++ sp) = (fun xr => (xr.1, xr.2 ++ sp)) <$> floatscan pok s.
Proof.
  assert (Hunfold : forall x, floatscan pok x =
    let '(neg, s1) := scan_sign x in
    match strip_prefix_nocase "0x" s1 with
    | Some s2 =>
        match scan_mantissa xdigit_val 16 "p" 2 pok s2 with
        | Some (q, s3) => Some (NFin (Qsigned neg q), s3)
        | None =>
            match s1 with
            | String _ r => if pok then Some (NFin 0, r) else None
            | EmptyString => None
            end
        end
    | None =>
        match scan_mantissa digit_val 10 "e" 10 pok s1 with
        | Some (q, s3) => Some (NFin (Qsigned neg q), s3)
        | None =>
            match scan_inf pok neg s1 with
            | Some r => Some r
            | None => scan_nan pok s1
            end
        end
    end) by reflexivity.
  rewrite !Hunfold. rewrite scan_sign_sp. destruct (scan_sign s) as [neg s1].
  rewrite (strip_prefix_nocase_sp "0x") by no_space.
  destruct (strip_prefix_nocase "0x" s1) as [s2|] eqn:Hx;
    cbn [fmap option_fmap option_map].
  - rewrite scan_mantissa_sp by done.
    destruct (scan_mantissa xdigit_val 16 "p" 2 pok s2) as [[q s3]|]; [done|].
    cbn [fmap option_fmap option_map].
    destruct s1 as [|c r]; [done|]. app_step. by destruct pok.
  - rewrite scan_mantissa_sp by done.
    destruct (scan_mantissa digit_val 10 "e" 10 pok s1) as [[q s3]|]; [done|].
    cbn [fmap option_fmap option_map].
    rewrite scan_inf_sp.
    destruct (scan_inf pok neg s1) as [[x r]|]; [done|].
    cbn [fmap option_fmap option_map]. apply scan_nan_sp.
Qed.

Lemma skip_space_sp s :
  skip_space s <> EmptyString -> skip_space (s ++ sp) = skip_space s ++ sp.
Proof.
  induction s as [|c r IH]; [done|]. app_step; cbn [skip_space].
  destruct (isspace c); [apply IH|done].
Qed.

(** A number followed by a space. *)
Lemma scan_f_sp s x r :
  scan_f s = inr (x, r) -> scan_f (s ++ sp) = inr (x, r ++ sp).
Proof.
  unfold scan_f. destruct (skip_space s) as [|c s1] eqn:Hs; [done|].
  rewrite skip_space_sp by (by rewrite Hs). rewrite Hs.
  rewrite string_app_cons. cbn iota. rewrite <- (string_app_cons c s1 sp).
  rewrite floatscan_sp.
  destruct (floatscan false (String c s1)) as [[y r']|]; [|done].
  cbn [fmap option_fmap option_map]. by intros [= -> ->].
Qed.

End ScanThenSpace.

Lemma skip_space_twice s : skip_space (skip_space s) = skip_space s.
Proof.
  induction s as [|c r IH]; [done|]. cbn [skip_space].
  destruct (isspace c) eqn:E; [done|]. cbn [skip_space]. by rewrite E.
Qed.

Lemma scan_f_skip_space s : scan_f (skip_space s) = scan_f s.
Proof. unfold scan_f. by rewrite skip_space_twice. Qed.

(** The text "0 v 0", where [v] spells a number and nothing else, scans as
    the three numbers 0, [v] and 0. *)
Lemma sscanf_fff_angle (u : string) (x : number) :
  scan_f u = inr (x, EmptyString) ->
  sscanf_fff ("0 " ++ u ++ " 0") = (3, [NFin 0; to_float x; NFin 0]).
Proof.
  intros Hu. unfold sscanf_fff.
  assert (H0 : exists z, scan_f "0" = inr (z, EmptyString) /\ to_float z = NFin 0).
  { exists (NFin 0). split; vm_compute; reflexivity. }
  destruct H0 as (z & Hz & Hz0).
  change ("0 " ++ u ++ " 0") with ("0" ++ String " " (u ++ " 0")).
  rewrite (scan_f_sp (u ++ " 0") "0" z EmptyString Hz).
  change (EmptyString ++ String " " (u ++ " 0")) with (String " " (u ++ " 0")).
  rewrite scan_f_skip_space.
  assert (H1 : scan_f (String " " (u ++ " 0")) = scan_f (u ++ " 0")) by reflexivity.
  rewrite H1.
  change (u ++ " 0") with (u ++ String " " "0").
  rewrite (scan_f_sp "0" u x EmptyString Hu).
  change (EmptyString ++ String " " "0") with " 0".
  rewrite scan_f_skip_space.
  assert (H2 : scan_f " 0" = scan_f "0") by reflexivity.
  rewrite H2, Hz. by rewrite Hz0.
Qed.

Lemma replace_then_space (t : string) : forall s,
  replace_backslash_n (s ++ String " " t) =
    replace_backslash_n s ++ replace_backslash_n (String " " t) /\
  forall c, replace_backslash_n (String c s ++ String " " t) =
    replace_backslash_n (String c s) ++ replace_backslash_n (String " " t).
Proof.
  induction s as [|c' r IH].
  - split; [done|]. intros c. app_step.
    change (replace_backslash_n (String c (String " " t)))
      with (if Ascii.eqb c backslash && Ascii.eqb " " "n"
            then String newline (replace_backslash_n t)
            else String c (replace_backslash_n (String " " t))).
    change (Ascii.eqb " " "n") with false. by rewrite andb_false_r.
  - destruct IH as [IH1 IH2]. split; [apply IH2|]. intros c.
    app_step.
    change (replace_backslash_n (String c (String c' (r ++ String " " t))))
      with (if Ascii.eqb c backslash && Ascii.eqb c' "n"
            then String newline (replace_backslash_n (r ++ String " " t))
            else String c (replace_backslash_n (String c' (r ++ String " " t)))).
    change (replace_backslash_n (String c (String c' r)))
      with (if Ascii.eqb c backslash && Ascii.eqb c' "n"
            then String newline (replace_backslash_n r)
            else String c (replace_backslash_n (String c' r))).
    destruct (Ascii.eqb c backslash && Ascii.eqb c' "n").
    + by rewrite IH1.
    + change (String c' (r ++ String " " t)) with (String c' r ++ String " " t).
      by rewrite IH2.
Qed.

Lemma unescape_angle (value : string) :
  unescape ("0 " ++ value ++ " 0") = "0 " ++ unescape value ++ " 0".
Proof.
  assert (Hrep : forall s, unescape s = replace_backslash_n s).
  { intros s. unfold unescape. destruct (unescape_loop_spec s []) as [H _].
    by rewrite H. }
  rewrite !Hrep.
  change ("0 " ++ value ++ " 0") with (String "0" (String " " (value ++ " 0"))).
  rewrite !replace_other by done.
  change (value ++ " 0") with (value ++ String " " "0").
  by rewrite (proj1 (replace_then_space "0" value)).
Qed.

(** The key "angles" with the text "0 v 0": the angles of the edict become
    the vector (0, v, 0), [v] as the nearest [float]. *)
Lemma ED_SetField_angle (value : string) (x : number) (e : edict_t) (l : lua_State) :
  scan_f (unescape value) = inr (x, EmptyString) ->
  ED_SetField "angles" ("0 " ++ value ++ " 0") e l =
    Ok (true, set_v (set_vec V.angles (NFin 0, to_float x, NFin 0) (v e)) e, l).
Proof.
  intros Hx. unfold ED_SetField. rewrite unescape_angle.
  change (ED_SetField_native "angles") with (Some (FIELD_VEC V.angles)).
  cbn iota. rewrite (sscanf_fff_angle _ x Hx). cbn [snd assign_vec].
  by destruct (v_vec (v e) V.angles) as [[a b] c].
Qed.

(** C6.  When the tokenizer reads the pairs [ps] and a closing brace, and
    every token fits the array [ED_ParseEdict] copies it into, the loop of
    [ED_ParseEdict] performs the field assignments of [ps] as the design
    words them, in order: the key "angle" is assigned as "angles" with the
    value [v] turned into the text "0 v 0", which sets the angles to the
    vector (0, v, 0) whenever [v] spells a number, the key "light" as
    "light_lev", and a key that starts with an underscore is assigned
    nowhere.  The block of the design gives the class name "foo", the origin
    (1, 2, 3), the angles (0, 90, 0) and no field [_note].  Where the code
    misses: an angle spelled with 32 characters does not fit [temp[32]], and
    [ED_ParseEdict] writes past the array instead of setting the angles
    (0, 90, 0). *)
Theorem C6_legacy_keys (COM_Parse : string -> option string * string)
    (ps : list (string * string)) (fuel : nat) (data : string)
    (data' : option string) (init : bool) (e : edict_t) (l : lua_State) :
  reads_block COM_Parse data ps data' ->
  (length ps < fuel)%nat ->
  fits ps = true ->
  ED_ParseEdict_loop COM_Parse fuel data init e l =
    (el ← assign_pairs ps e l;
     Ok (data', match ps with [] => init | _ => true end, el.1, el.2)) /\
  (forall value, legacy_pair "angle" value = Some ("angles", "0 " ++ value ++ " 0")) /\
  (forall value x e1 l1, scan_f (unescape value) = inr (x, EmptyString) ->
     ED_SetField "angles" ("0 " ++ value ++ " 0") e1 l1 =
       Ok (true,
           set_v (set_vec V.angles (NFin 0, to_float x, NFin 0) (v e1)) e1, l1)) /\
  (forall value, legacy_pair "light" value = Some ("light_lev", value)) /\
  (forall rest value, legacy_pair (String "_" rest) value = None) /\
  reads_block COM_Parse_spec example_block example_pairs (Some EmptyString) /\
  example_parsed (ED_ParseEdict COM_Parse_spec 5 example_block 1 spawned_world) /\
  reads_block COM_Parse_spec long_angle_block [("angle", long_angle)]
    (Some EmptyString) /\
  String.length long_angle = 32%nat /\
  (exists q, atof long_angle = NFin q /\ (q == 90)%Q) /\
  ED_ParseEdict COM_Parse_spec 2 long_angle_block 1 spawned_world = Fault.
Proof.
  intros Hb Hfuel Hfits. split.
  { generalize (ED_ParseEdict_loop_block COM_Parse ps fuel data data' init e l
                  Hb Hfuel).
    by rewrite Hfits. }
  split; [done|]. split; [intros; by apply ED_SetField_angle|].
  split; [done|]. split; [done|].
  split; [vm_compute; repeat split; reflexivity|].
  split; [vm_compute; repeat split; reflexivity|].
  split; [vm_compute; repeat split; reflexivity|].
  split; [vm_compute; reflexivity|].
  split; [eexists; split; [vm_compute; reflexivity|reflexivity]|].
  vm_compute; reflexivity.
Qed.

Lemma C6_legacy_keys_witness :
  ED_ParseEdict_loop COM_Parse_spec 5 example_block false spawned.1 spawned.2 =
    (el ← assign_pairs example_pairs spawned.1 spawned.2;
     Ok (Some EmptyString, true, el.1, el.2)).
Proof.
  refine (proj1 (C6_legacy_keys COM_Parse_spec example_pairs 5 example_block
                   (Some EmptyString) false spawned.1 spawned.2 _ _ _)).
  - vm_compute. repeat split; reflexivity.
  - simpl. lia.
  - vm_compute. reflexivity.
Defined.

(** ** Strings and functions of the program *)

Lemma substring_short n s : (String.length s <= n)%nat -> String.substring 0 n s = s.
Proof.
  revert n. induction s as [|c s IH]; intros [|n] Hn; simpl in *; try done; try lia.
  f_equal. apply IH. lia.
Qed.

Lemma substring_long n s :
  (n <= String.length s)%nat -> String.length (String.substring 0 n s) = n.
Proof.
  revert n. induction s as [|c s IH]; intros [|n] Hn; simpl in *; try done; try lia.
  f_equal. apply IH. lia.
Qed.

Lemma luaL_ref_value x l :
  x <> LNil ->
  luaL_ref (lua_push x l) =
    Ok (Zpos (fresh (dom (registry l))),
        set_registry (<[fresh (dom (registry l)) := x]> (registry l))
          (set_stack (stack l) (lua_push x l))).
Proof. intros Hx. unfold luaL_ref. simpl. by destruct x. Qed.

Lemma PR_GetString_registry (q : positive) s l :
  registry l !! q = Some (LString s) ->
  PR_GetString (Zpos q) l = Ok (snprintf_256 s, set_stack (stack l) l).
Proof.
  intros Hq. unfold PR_GetString, lua_rawgeti_registry, registry_get, luaL_checkstring.
  simpl. rewrite Hq. reflexivity.
Qed.

(** X17.  A string set is the string got.  [PR_SetString] always returns a
    reference, one that was not in use and is never 0, and leaves the stack
    as it was; [PR_GetString] of this reference gives the string back when
    it has at most 255 characters, and its first 255 characters when it is
    longer. *)
Theorem X17_string_round_trip (s : string) (l : lua_State) :
  exists r l1, PR_SetString s l = Ok (r, l1) /\
    0 < r /\ live r l = false /\ stack l1 = stack l /\
    PR_GetString r l1 = Ok (String.substring 0 255 s, l1) /\
    if (String.length s <=? 255)%nat then String.substring 0 255 s = s
    else String.length (String.substring 0 255 s) = 255%nat.
Proof.
  unfold PR_SetString, lua_pushstring. rewrite luaL_ref_value by done.
  eexists _, _. split; [reflexivity|]. split; [done|]. split.
  { simpl. apply bool_decide_eq_false. rewrite fresh_registry_None.
    by intros [? ?]. }
  split; [done|]. split.
  { erewrite PR_GetString_registry; [reflexivity|]. simpl. apply lookup_insert_eq. }
  destruct (String.length s <=? 255)%nat eqn:Hlen.
  - apply substring_short. by apply Nat.leb_le.
  - apply substring_long. apply Nat.leb_gt in Hlen. lia.
Qed.

(** X18.  Strings are not shared and do not disturb each other: a second
    [PR_SetString], be it of the same text, returns another reference, and
    the first string is still got from the first reference. *)
Theorem X18_strings_are_independent (s t : string) (l l1 l2 : lua_State) (r1 r2 : Z) :
  PR_SetString s l = Ok (r1, l1) ->
  PR_SetString t l1 = Ok (r2, l2) ->
  r1 <> r2 /\ PR_GetString r1 l2 = Ok (snprintf_256 s, l2) /\
  PR_GetString r2 l2 = Ok (snprintf_256 t, l2).
Proof.
  unfold PR_SetString, lua_pushstring. rewrite !luaL_ref_value by done.
  intros [= <- <-] [= <- <-]. simpl.
  set (reg1 := <[fresh (dom (registry l)) := LString s]> (registry l)).
  assert (Hne : fresh (dom (registry l)) <> fresh (dom reg1)).
  { intros Heq. pose proof (fresh_registry_None reg1) as Hnone.
    rewrite <- Heq in Hnone. unfold reg1 in Hnone.
    by rewrite lookup_insert_eq in Hnone. }
  split; [congruence|]. split.
  - erewrite PR_GetString_registry; [reflexivity|]. simpl.
    rewrite lookup_insert_ne by done. apply lookup_insert_eq.
  - erewrite PR_GetString_registry; [reflexivity|]. simpl. apply lookup_insert_eq.
Qed.

Lemma X18_strings_are_independent_witness :
  1 <> 2 /\ PR_GetString 1 two_strings = Ok (snprintf_256 "ogre", two_strings) /\
  PR_GetString 2 two_strings = Ok (snprintf_256 "knight", two_strings).
Proof.
  apply (X18_strings_are_independent "ogre" "knight" lua_empty one_string);
    vm_compute; reflexivity.
Defined.

(** X19.  A function the program does not define.  [ED_FindFunction]
    returns [LUA_NOREF], says so on the console and leaves the Lua state as
    it was; running what it returned is fatal. *)
Theorem X19_missing_function (MAX_EDICTS : Z) (lua_call : nat -> World -> result World)
    (name : string) (w : World) :
  (forall f, globals (L w) !! name <> Some (LFunction f)) ->
  exists w', ED_FindFunction name w = Ok (LUA_NOREF, w') /\
    L w' = L w /\ sv w' = sv w /\ pr_global_struct w' = pr_global_struct w /\
    console w' = (console w ++ ["Did not find function '%s'"])%list /\
    is_fatal (PR_ExecuteProgram MAX_EDICTS lua_call LUA_NOREF w') = true.
Proof.
  intros Hno. unfold ED_FindFunction, lua_getglobal, lua_isfunction. simpl.
  destruct (globals (L w) !! name) as [x|] eqn:Hx; simpl.
  - destruct x; try (exfalso; eapply Hno; reflexivity);
      (eexists; split; [reflexivity|]; by destruct w as [[] ? ? ?]).
  - eexists; split; [reflexivity|]; by destruct w as [[] ? ? ?].
Qed.

Lemma X19_missing_function_witness :
  exists w', ED_FindFunction "walk" running_world = Ok (LUA_NOREF, w') /\
    L w' = L running_world /\ sv w' = sv running_world /\
    pr_global_struct w' = pr_global_struct running_world /\
    console w' = (console running_world ++ ["Did not find function '%s'"])%list /\
    is_fatal (PR_ExecuteProgram 2 returns_at_once LUA_NOREF w') = true.
Proof.
  apply (X19_missing_function 2 returns_at_once "walk" running_world).
  intros f. vm_compute. discriminate.
Defined.

(** X20.  A function the program defines.  [ED_FindFunction] returns a
    reference that was not in use, under which the registry now holds the
    function; the stack and the other entries of the registry are as they
    were.  Every call makes a new reference, also for the same name. *)
Theorem X20_found_function (name : string) (f : nat) (w : World) :
  globals (L w) !! name = Some (LFunction f) ->
  exists r w', ED_FindFunction name w = Ok (r, w') /\
    0 < r /\ live r (L w) = false /\
    registry_get r (L w') = LFunction f /\
    stack (L w') = stack (L w) /\
    (forall h, h <> r -> registry_get h (L w') = registry_get h (L w)) /\
    exists r2 w2, ED_FindFunction name w' = Ok (r2, w2) /\ r2 <> r /\
      registry_get r (L w2) = LFunction f.
Proof.
  intros Hf. unfold ED_FindFunction at 1, lua_getglobal, lua_isfunction.
  rewrite Hf. simpl.
  eexists _, _. split; [reflexivity|]. split; [done|]. split.
  { apply bool_decide_eq_false. rewrite fresh_registry_None. by intros [? ?]. }
  split; [simpl; by rewrite lookup_insert_eq|]. split; [done|]. split.
  { intros [|q|q] Hq; simpl; try done. rewrite lookup_insert_ne; [done|congruence]. }
  unfold ED_FindFunction, lua_getglobal, lua_isfunction. simpl.
  rewrite Hf. simpl.
  set (reg1 := <[fresh (dom (registry (L w))) := LFunction f]> (registry (L w))).
  assert (Hne : fresh (dom reg1) <> fresh (dom (registry (L w)))).
  { intros Heq. pose proof (fresh_registry_None reg1) as Hnone.
    rewrite Heq in Hnone. unfold reg1 in Hnone.
    by rewrite lookup_insert_eq in Hnone. }
  eexists _, _. split; [reflexivity|]. split; [congruence|]. simpl.
  fold reg1. rewrite lookup_insert_ne by done. unfold reg1.
  by rewrite lookup_insert_eq.
Qed.

Lemma X20_found_function_witness :
  exists r w', ED_FindFunction "think" running_world = Ok (r, w') /\
    0 < r /\ live r (L running_world) = false /\
    registry_get r (L w') = LFunction 7 /\
    stack (L w') = stack (L running_world) /\
    (forall h, h <> r -> registry_get h (L w') = registry_get h (L running_world)) /\
    exists r2 w2, ED_FindFunction "think" w' = Ok (r2, w2) /\ r2 <> r /\
      registry_get r (L w2) = LFunction 7.
Proof.
  apply (X20_found_function "think" 7 running_world). vm_compute. reflexivity.
Defined.

(** X23.  Numbers and pointers of edicts.  [NUM_FOR_EDICT] gives back the
    number [EDICT_NUM] made a pointer of when the edict is one of the
    [sv.num_edicts] in use; for an edict of the array beyond those, which
    [EDICT_NUM] accepts, it is fatal. *)
Theorem X23_edict_number_round_trip (MAX_EDICTS pr_edict_size n : Z) (p : nat)
    (w : World) :
  0 < pr_edict_size ->
  EDICT_NUM MAX_EDICTS n = Ok p ->
  NUM_FOR_EDICT pr_edict_size p w =
    if n <? num_edicts (sv w) then Ok n else Fatal "NUM_FOR_EDICT: bad pointer".
Proof.
  intros Hsize Hp. apply EDICT_NUM_Ok in Hp as [Hn ->].
  unfold NUM_FOR_EDICT. rewrite Z2Nat.id by lia.
  rewrite Z.quot_mul by lia.
  destruct (n <? num_edicts (sv w)) eqn:Hlt.
  - apply Z.ltb_lt in Hlt.
    destruct (n <? 0) eqn:H0; [lia|]. destruct (n >=? num_edicts (sv w)) eqn:H1; [lia|].
    done.
  - apply Z.ltb_ge in Hlt.
    destruct (n <? 0) eqn:H0; [done|]. destruct (n >=? num_edicts (sv w)) eqn:H1; [done|lia].
Qed.

Lemma X23_edict_number_round_trip_witness :
  NUM_FOR_EDICT 8 3 monster_world =
    if 3 <? num_edicts (sv monster_world) then Ok 3 else Fatal "NUM_FOR_EDICT: bad pointer".
Proof.
  apply (X23_edict_number_round_trip 6 8 3 3 monster_world); [lia|].
  vm_compute. reflexivity.
Defined.

(** What [lua_setglobal] makes of the Lua state once [v] is pushed. *)
Lemma setglobal_pushed name v l :
  lua_setglobal name (lua_push v l) =
    Ok (set_globals (match v with
                     | LNil => delete name (globals l)
                     | _ => <[name := v]> (globals l)
                     end) (set_stack (stack l) (lua_push v l))).
Proof. reflexivity. Qed.

Lemma setglobal_lookup name v (g : gmap string lua_value) :
  default LNil (match v with
                | LNil => delete name g
                | _ => <[name := v]> g
                end !! name) = v.
Proof.
  destruct v; simpl; rewrite ?lookup_delete_eq, ?lookup_insert_eq; done.
Qed.

Lemma setglobal_lookup_ne name name' v (g : gmap string lua_value) :
  name <> name' ->
  match v with
  | LNil => delete name g
  | _ => <[name := v]> g
  end !! name' = g !! name'.
Proof.
  intros Hne. destruct v; simpl; rewrite ?lookup_delete_ne, ?lookup_insert_ne; done.
Qed.

Ltac exec_step :=
  cbn [mbind result_bind pr_global_struct set_L L sv console lua_push set_stack
       stack registry tables vectors globals set_globals].

Section ExecProofs.

Variable MAX_EDICTS : Z.
Variable lua_call : nat -> World -> result World.

Lemma PR_ExecuteProgram_ordinary (fnum : Z) (f : nat) (w : World) :
  0 < MAX_EDICTS ->
  bootstrap w = false ->
  registry_get fnum (L w) = LFunction f ->
  g_int (pr_global_struct w) G.self <> 0 ->
  fnum <> g_int (pr_global_struct w) G.StartFrame ->
  fnum <> g_int (pr_global_struct w) G.PutClientInServer ->
  exists w1,
    sv w1 = sv w /\ pr_global_struct w1 = pr_global_struct w /\
    console w1 = console w /\ stack (L w1) = stack (L w) /\
    registry (L w1) = registry (L w) /\ tables (L w1) = tables (L w) /\
    vectors (L w1) = vectors (L w) /\
    default LNil (globals (L w1) !! "self") =
      registry_get (g_int (pr_global_struct w) G.self) (L w) /\
    default LNil (globals (L w1) !! "other") =
      registry_get (g_int (pr_global_struct w) G.other) (L w) /\
    globals (L w1) !! "force_retouch" =
      Some (LNumber (g_float (pr_global_struct w) G.force_retouch)) /\
    globals (L w1) !! "time" = Some (LNumber (g_float (pr_global_struct w) G.time)) /\
    (forall name, name ∉ published -> globals (L w1) !! name = globals (L w) !! name) /\
    PR_ExecuteProgram MAX_EDICTS lua_call fnum w =
      match lua_call f w1 with
      | Ok w2 =>
          if (fnum =? g_int (pr_global_struct w2) G.SetChangeParms)
             || (fnum =? g_int (pr_global_struct w2) G.SetNewParms)
          then run_all GET_GFLOAT parms w2
          else Ok w2
      | LuaError msg => Fatal msg
      | r => r
      end.
Proof.
  intros Hmax Hboot Hf Hself Hstart Hput.
  assert (Hpos : 0 < fnum) by (destruct fnum; try done).
  unfold PR_ExecuteProgram.
  destruct (fnum =? 0) eqn:H0; [lia|]. destruct (fnum <? 0) eqn:H1; [lia|].
  unfold lua_rawgeti_registry. rewrite Hf.
  destruct w as [[st reg tabs vecs globs] s g con].
  unfold bootstrap in Hboot. cbn [L sv pr_global_struct console] in *.
  change (lua_isfunction _ _) with true. cbn [negb].
  cbn [sv set_L].
  match goal with |- context [mbind _ (if bool_decide ?c then ?a else Ok ?w0)] =>
    assert (Hfirst : (if bool_decide c then a else Ok w0) = Ok w0) end.
  { destruct (bool_decide (state s = ss_loading)) eqn:Hload; [|done].
    unfold EDICT_NUM. destruct (_ || _) eqn:Hr; [apply orb_true_iff in Hr; lia|].
    cbn [mbind result_bind]. change (Z.to_nat 0) with 0%nat.
    unfold edict_at. cbn [sv set_L]. cbn [andb] in Hboot.
    destruct (edicts s !! 0%nat) as [world|]; [|done].
    cbn [mbind result_bind]. by rewrite Hboot. }
  rewrite Hfirst. exec_step.
  destruct (fnum =? g_int g G.StartFrame) eqn:H2; [lia|]. exec_step.
  destruct (g_int g G.self =? 0) eqn:H3; [lia|].
  unfold PUSH_GREF, PUSH_GFLOAT, lua_rawgeti_registry, lua_pushnumber, lua_setglobal.
  exec_step.
  destruct (fnum =? g_int g G.PutClientInServer) eqn:H4; [lia|].
  unfold lua_pcall, registry_get. exec_step.
  match goal with |- context [lua_call f ?w1] => exists w1 end.
  change (G.float_name G.time) with "time".
  change (G.float_name G.force_retouch) with "force_retouch".
  change (G.int_name G.other) with "other".
  change (G.int_name G.self) with "self".
  exec_step. split_and!; try done.
  - rewrite !lookup_insert_ne by done. rewrite setglobal_lookup_ne by done.
    apply setglobal_lookup.
  - rewrite !lookup_insert_ne by done. apply setglobal_lookup.
  - rewrite lookup_insert_ne by done. apply lookup_insert_eq.
  - apply lookup_insert_eq.
  - intros name Hname. unfold published in Hname.
    rewrite !not_elem_of_cons in Hname. destruct Hname as (? & ? & ? & ? & _).
    rewrite !lookup_insert_ne by done. rewrite !setglobal_lookup_ne by done. done.
  - by destruct (lua_call f _).
Qed.

(** X21.  An ordinary call.  When [fnum] refers to a function, [self] is
    set and the call is neither the first one of a loading server nor one of
    [StartFrame] or [PutClientInServer], [PR_ExecuteProgram] calls the
    function in a process that differs from the one it was given only in
    the Lua globals [self], [other], [force_retouch] and [time], which hold
    what [pr_global_struct] has; a Lua error of the function is fatal, with
    the message of the error; and after [SetChangeParms] or [SetNewParms]
    the nine parameters are read back. *)
Theorem X21_ordinary_call (fnum : Z) (f : nat) (w : World) :
  0 < MAX_EDICTS ->
  bootstrap w = false ->
  registry_get fnum (L w) = LFunction f ->
  g_int (pr_global_struct w) G.self <> 0 ->
  fnum <> g_int (pr_global_struct w) G.StartFrame ->
  fnum <> g_int (pr_global_struct w) G.PutClientInServer ->
  exists w1,
    sv w1 = sv w /\ pr_global_struct w1 = pr_global_struct w /\
    console w1 = console w /\ stack (L w1) = stack (L w) /\
    registry (L w1) = registry (L w) /\ tables (L w1) = tables (L w) /\
    vectors (L w1) = vectors (L w) /\
    default LNil (globals (L w1) !! "self") =
      registry_get (g_int (pr_global_struct w) G.self) (L w) /\
    default LNil (globals (L w1) !! "other") =
      registry_get (g_int (pr_global_struct w) G.other) (L w) /\
    globals (L w1) !! "force_retouch" =
      Some (LNumber (g_float (pr_global_struct w) G.force_retouch)) /\
    globals (L w1) !! "time" = Some (LNumber (g_float (pr_global_struct w) G.time)) /\
    (forall name, name ∉ published -> globals (L w1) !! name = globals (L w) !! name) /\
    PR_ExecuteProgram MAX_EDICTS lua_call fnum w =
      match lua_call f w1 with
      | Ok w2 =>
          if (fnum =? g_int (pr_global_struct w2) G.SetChangeParms)
             || (fnum =? g_int (pr_global_struct w2) G.SetNewParms)
          then run_all GET_GFLOAT parms w2
          else Ok w2
      | LuaError msg => Fatal msg
      | r => r
      end.
Proof. apply PR_ExecuteProgram_ordinary. Qed.

(** X22.  [PR_ExecuteProgram] calls nothing but a function: a positive
    [fnum] under which the registry holds no function, as a reference that
    was released or one to a string, is fatal, whatever [self] is. *)
Theorem X22_not_a_function_is_fatal (fnum : Z) (w : World) :
  0 < fnum ->
  (forall f, registry_get fnum (L w) <> LFunction f) ->
  PR_ExecuteProgram MAX_EDICTS lua_call fnum w =
    Fatal "PR_ExecuteProgram(%d) did not get a function, got '%s' instead".
Proof.
  intros Hpos Hno. unfold PR_ExecuteProgram.
  destruct (fnum =? 0) eqn:H0; [lia|]. destruct (fnum <? 0) eqn:H1; [lia|].
  unfold lua_rawgeti_registry.
  assert (Hi : lua_isfunction (-1)
                 (L (set_L (lua_push (registry_get fnum (L w)) (L w)) w)) = false).
  { unfold lua_isfunction.
    change (lua_index (-1) (L (set_L (lua_push (registry_get fnum (L w)) (L w)) w)))
      with (Some (registry_get fnum (L w))).
    destruct (registry_get fnum (L w)) eqn:Hx; try done.
    exfalso. eapply Hno. reflexivity. }
  by rewrite Hi.
Qed.

End ExecProofs.

Lemma X21_ordinary_call_witness :
  exists w1,
    sv w1 = sv running_world /\ pr_global_struct w1 = pr_global_struct running_world /\
    console w1 = console running_world /\ stack (L w1) = stack (L running_world) /\
    registry (L w1) = registry (L running_world) /\
    tables (L w1) = tables (L running_world) /\
    vectors (L w1) = vectors (L running_world) /\
    default LNil (globals (L w1) !! "self") =
      registry_get (g_int (pr_global_struct running_world) G.self) (L running_world) /\
    default LNil (globals (L w1) !! "other") =
      registry_get (g_int (pr_global_struct running_world) G.other) (L running_world) /\
    globals (L w1) !! "force_retouch" =
      Some (LNumber (g_float (pr_global_struct running_world) G.force_retouch)) /\
    globals (L w1) !! "time" =
      Some (LNumber (g_float (pr_global_struct running_world) G.time)) /\
    (forall name, name ∉ published ->
       globals (L w1) !! name = globals (L running_world) !! name) /\
    PR_ExecuteProgram 2 returns_at_once 1 running_world =
      match returns_at_once 7 w1 with
      | Ok w2 =>
          if (1 =? g_int (pr_global_struct w2) G.SetChangeParms)
             || (1 =? g_int (pr_global_struct w2) G.SetNewParms)
          then run_all GET_GFLOAT parms w2
          else Ok w2
      | LuaError msg => Fatal msg
      | r => r
      end.
Proof.
  apply (X21_ordinary_call 2 returns_at_once 1 7 running_world).
  - lia.
  - vm_compute. reflexivity.
  - vm_compute. reflexivity.
  - vm_compute. discriminate.
  - vm_compute. discriminate.
  - vm_compute. discriminate.
Defined.

Lemma X22_not_a_function_is_fatal_witness :
  PR_ExecuteProgram 2 returns_at_once 2 running_world =
    Fatal "PR_ExecuteProgram(%d) did not get a function, got '%s' instead".
Proof.
  apply (X22_not_a_function_is_fatal 2 returns_at_once 2 running_world); [lia|].
  intros f. vm_compute. discriminate.
Defined.

(** ** The first call of a loading server *)

Lemma same_but_globals_trans w1 w2 w3 :
  same_but_globals w1 w2 -> same_but_globals w2 w3 -> same_but_globals w1 w3.
Proof. unfold same_but_globals. intuition congruence. Qed.

Lemma PUSH_GREF_spec s w :
  exists w', PUSH_GREF s w = Ok w' /\ same_but_globals w w' /\
    default LNil (globals (L w') !! G.int_name s) =
      registry_get (g_int (pr_global_struct w) s) (L w) /\
    forall name, name <> G.int_name s -> globals (L w') !! name = globals (L w) !! name.
Proof.
  unfold PUSH_GREF, lua_rawgeti_registry. rewrite setglobal_pushed.
  cbn [mbind result_bind]. eexists. split; [reflexivity|]. split; [done|].
  simpl. split; [apply setglobal_lookup|].
  intros name Hname. by apply setglobal_lookup_ne.
Qed.

Lemma PUSH_GFLOAT_spec s w :
  exists w', PUSH_GFLOAT s w = Ok w' /\ same_but_globals w w' /\
    globals (L w') !! G.float_name s = Some (LNumber (g_float (pr_global_struct w) s)) /\
    forall name, name <> G.float_name s -> globals (L w') !! name = globals (L w) !! name.
Proof.
  unfold PUSH_GFLOAT, lua_pushnumber. rewrite setglobal_pushed.
  cbn [mbind result_bind]. eexists. split; [reflexivity|]. split; [done|].
  simpl. split; [apply lookup_insert_eq|].
  intros name Hname. by apply lookup_insert_ne.
Qed.

Lemma ED_EnsureFields_fresh p e l :
  ref e = 0 ->
  exists e' l', ED_EnsureFields p e l = Ok (e', l') /\
    ref e' = Z.pos (fresh (dom (registry l))) /\ fields e' <> 0 /\ v e' = v e /\
    free e' = free e /\
    stack l' = stack l /\ globals l' = globals l /\
    registry_get (ref e') l' = LEdict p.
Proof.
  intros Href. unfold ED_EnsureFields. rewrite Href. change (0 =? 0) with true.
  cbn iota. rewrite luaL_ref_value by done. cbn [mbind result_bind].
  change (fields (set_ref _ e)) with (fields e).
  destruct (fields e =? 0) eqn:Hf.
  - unfold lua_newtable. rewrite luaL_ref_value by done. cbn [mbind result_bind].
    eexists _, _. split; [reflexivity|]. simpl. split_and!; try done.
    set (reg1 := <[fresh (dom (registry l)) := LEdict p]> (registry l)).
    assert (Hne : fresh (dom reg1) <> fresh (dom (registry l))).
    { intros Heq. pose proof (fresh_registry_None reg1) as Hnone.
      rewrite Heq in Hnone. unfold reg1 in Hnone.
      by rewrite lookup_insert_eq in Hnone. }
    rewrite lookup_insert_ne by done. unfold reg1. by rewrite lookup_insert_eq.
  - eexists _, _. split; [reflexivity|]. simpl. split_and!; try done; [lia|].
    by rewrite lookup_insert_eq.
Qed.

Lemma GET_GFLOAT_spec s w :
  exists w', GET_GFLOAT s w = Ok w' /\ sv w' = sv w /\ console w' = console w /\
    stack (L w') = stack (L w) /\ registry (L w') = registry (L w) /\
    globals (L w') = globals (L w) /\
    g_int (pr_global_struct w') = g_int (pr_global_struct w).
Proof. unfold GET_GFLOAT. eexists. split; [reflexivity|]. done. Qed.

Lemma maybe_GET_GFLOAT (b : bool) s w :
  exists w', (if b then GET_GFLOAT s w else Ok w) = Ok w' /\
    sv w' = sv w /\ console w' = console w /\
    stack (L w') = stack (L w) /\ registry (L w') = registry (L w) /\
    globals (L w') = globals (L w) /\
    g_int (pr_global_struct w') = g_int (pr_global_struct w).
Proof. destruct b; [apply GET_GFLOAT_spec|by exists w]. Qed.

Lemma run_all_stops {A} (f : A -> World -> result World) ms (r : result World) :
  is_ok r = false -> foldl (fun r m => w ← r; f m w) r ms = r.
Proof.
  revert r. induction ms as [|m ms IH]; intros r Hr; [done|].
  simpl. destruct r; try done; by apply IH.
Qed.

Lemma run_all_cons {A} (f : A -> World -> result World) m ms w :
  run_all f (m :: ms) w = (w' ← f m w; run_all f ms w').
Proof.
  unfold run_all. simpl.
  destruct (f m w) as [w'| | | |] eqn:Hf; [done|..]; by apply run_all_stops.
Qed.

Lemma PUSH_GFLOAT_all ms : forall w,
  exists w', run_all PUSH_GFLOAT ms w = Ok w' /\ same_but_globals w w' /\
    forall name, name ∉ map G.float_name ms ->
      globals (L w') !! name = globals (L w) !! name.
Proof.
  induction ms as [|m ms IH]; intros w.
  { exists w. by repeat split. }
  rewrite run_all_cons.
  destruct (PUSH_GFLOAT_spec m w) as (w1 & -> & S1 & _ & N1).
  cbn [mbind result_bind].
  destruct (IH w1) as (w2 & -> & S2 & N2).
  exists w2. split; [done|]. split; [by eapply same_but_globals_trans|].
  intros name Hname. cbn [map] in Hname.
  apply not_elem_of_cons in Hname as [Hne Hname].
  rewrite N2 by done. by apply N1.
Qed.

Lemma maybe_PUSH_parms (b : bool) w :
  exists w', (if b then run_all PUSH_GFLOAT parms w else Ok w) = Ok w' /\
    same_but_globals w w' /\
    globals (L w') !! "self" = globals (L w) !! "self" /\
    globals (L w') !! "other" = globals (L w) !! "other" /\
    globals (L w') !! "world" = globals (L w) !! "world".
Proof.
  destruct b; [|exists w; by repeat split].
  destruct (PUSH_GFLOAT_all parms w) as (w' & -> & S & N).
  exists w'. split; [done|]. split; [done|].
  split_and!; apply N; apply (bool_decide_unpack _); vm_compute; exact I.
Qed.

(** While the server is loading and the world has no userdata,
    [PR_ExecuteProgram] on a function of the program makes the world [self]
    and calls the function. *)
Lemma PR_ExecuteProgram_bootstrap (MAX_EDICTS : Z)
    (lua_call : nat -> World -> result World) (fnum : Z) (f : nat) (w : World)
    (world : edict_t) :
  0 < MAX_EDICTS ->
  bootstrap w = true ->
  edicts (sv w) !! 0%nat = Some world ->
  registry_get fnum (L w) = LFunction f ->
  exists r w1 world',
    made_self w world r world' w1 /\
    PR_ExecuteProgram MAX_EDICTS lua_call fnum w =
      match lua_call f w1 with
      | Ok w2 =>
          if (fnum =? g_int (pr_global_struct w2) G.SetChangeParms)
             || (fnum =? g_int (pr_global_struct w2) G.SetNewParms)
          then run_all GET_GFLOAT parms w2
          else Ok w2
      | LuaError msg => Fatal msg
      | x => x
      end.
Proof.
  intros Hmax Hboot Hworld Hf.
  assert (Hpos : 0 < fnum) by (destruct fnum; try done).
  unfold bootstrap in Hboot. rewrite Hworld in Hboot.
  apply andb_true_iff in Hboot as [Hload Href]. apply Z.eqb_eq in Href.
  unfold PR_ExecuteProgram.
  destruct (fnum =? 0) eqn:H0; [lia|]. destruct (fnum <? 0) eqn:H1; [lia|].
  unfold lua_rawgeti_registry. rewrite Hf.
  set (w0 := set_L (lua_push (LFunction f) (L w)) w).
  change (lua_isfunction (-1) (L w0)) with true. cbn [negb].
  change (state (sv w0)) with (state (sv w)). rewrite Hload.
  rewrite EDICT_NUM_in by lia. cbn [mbind result_bind].
  change (Z.to_nat 0) with 0%nat.
  assert (Hw0 : edicts (sv w0) !! 0%nat = Some world) by exact Hworld.
  assert (Hat0 : edict_at 0 w0 = Ok world) by (unfold edict_at; by rewrite Hw0).
  rewrite Hat0. cbn [mbind result_bind].
  rewrite Href. change (0 =? 0) with true. cbn iota.
  destruct (ED_EnsureFields_fresh 0 world (L w0) Href)
    as (e' & l' & Hens & Hr & Hfi & Hv & Hfree & Hstk & Hglob & Hreg).
  rewrite (on_edict_total _ _ _ _ _ _ Hw0 Hens). cbn [mbind result_bind].
  set (wa := put_edict 0 e' (set_L l' w0)).
  assert (Hwa : edicts (sv wa) !! 0%nat = Some e').
  { simpl. apply list_lookup_insert_eq. by eapply lookup_lt_Some. }
  assert (Hata : edict_at 0 wa = Ok e') by (unfold edict_at; by rewrite Hwa).
  rewrite Hata. cbn [mbind result_bind]. cbn zeta.
  match goal with |- context [PUSH_GREF G.world ?x] => set (wb := x) end.
  destruct (PUSH_GREF_spec G.world wb) as (c1 & -> & S1 & G1 & _).
  cbn [mbind result_bind].
  destruct (PUSH_GREF_spec G.mapname c1) as (c2 & -> & S2 & _ & N2).
  cbn [mbind result_bind].
  destruct (PUSH_GFLOAT_spec G.serverflags c2) as (c3 & -> & S3 & _ & N3).
  cbn [mbind result_bind].
  destruct (PUSH_GFLOAT_spec G.total_secrets c3) as (c4 & -> & S4 & _ & N4).
  cbn [mbind result_bind].
  destruct (PUSH_GFLOAT_spec G.total_monsters c4) as (c5 & -> & S5 & _ & N5).
  cbn [mbind result_bind].
  destruct (PUSH_GFLOAT_spec G.found_secrets c5) as (c6 & -> & S6 & _ & N6).
  cbn [mbind result_bind].
  destruct (PUSH_GFLOAT_spec G.killed_monsters c6) as (c7 & -> & S7 & _ & N7).
  cbn [mbind result_bind].
  assert (Sc : same_but_globals wb c7) by eauto 10 using same_but_globals_trans.
  destruct Sc as (Csv & Cg & Ccon & Cstk & Creg & _ & _).
  (* the value StartFrame reads back *)
  match goal with |- context [if ?b then GET_GFLOAT ?s c7 else Ok c7] =>
    destruct (maybe_GET_GFLOAT b s c7)
      as (c8 & -> & Esv & Econ & Estk & Ereg & Eglob & Eg) end.
  cbn [mbind result_bind].
  assert (Hint8 : g_int (pr_global_struct c8) = g_int (pr_global_struct wb))
    by (by rewrite Eg, Cg).
  rewrite Hint8.
  change (g_int (pr_global_struct wb) G.self) with (ref e').
  rewrite Hr. change (Z.pos _ =? 0) with false. cbn iota.
  destruct (PUSH_GREF_spec G.self c8) as (d1 & -> & T1 & K1 & M1).
  cbn [mbind result_bind].
  destruct (PUSH_GREF_spec G.other d1) as (d2 & -> & T2 & K2 & M2).
  cbn [mbind result_bind].
  destruct (PUSH_GFLOAT_spec G.force_retouch d2) as (d3 & -> & T3 & _ & M3).
  cbn [mbind result_bind].
  destruct (PUSH_GFLOAT_spec G.time d3) as (d4 & -> & T4 & _ & M4).
  cbn [mbind result_bind].
  assert (Sd : same_but_globals c8 d4) by eauto 10 using same_but_globals_trans.
  match goal with |- context [if ?b then run_all PUSH_GFLOAT parms d4 else Ok d4] =>
    destruct (maybe_PUSH_parms b d4) as (d5 & -> & T5 & P1 & P2 & P3) end.
  cbn [mbind result_bind].
  assert (Se : same_but_globals c8 d5) by eauto using same_but_globals_trans.
  destruct Se as (Dsv & Dg & Dcon & Dstk & Dreg & _ & _).
  assert (Hstack : stack (L d5) = LFunction f :: stack (L w)).
  { rewrite Dstk, Estk, Cstk. simpl. by rewrite Hstk. }
  unfold lua_pcall. rewrite Hstack.
  assert (Hget : forall x, registry (L x) = registry (L wb) ->
                   registry_get (ref e') (L x) = LEdict 0).
  { intros x Hx. rewrite <- Hreg. unfold registry_get. by rewrite Hx. }
  assert (Hget8 : registry_get (ref e') (L c8) = LEdict 0).
  { apply Hget. by rewrite Ereg, Creg. }
  assert (Hd1 : registry (L d1) = registry (L c8)) by apply T1.
  exists (ref e'), (set_L (set_stack (stack (L w)) (L d5)) d5), e'.
  split; [|by destruct (lua_call f _)].
  unfold made_self. split_and!.
  - lia.
  - rewrite Hr. simpl. apply bool_decide_eq_false. rewrite fresh_registry_None.
    by intros [? ?].
  - apply Hget. simpl. by rewrite Dreg, Ereg, Creg.
  - simpl. by rewrite Dsv, Esv, Csv.
  - done.
  - done.
  - done.
  - done.
  - simpl. by rewrite Dg, Hint8.
  - simpl. by rewrite Dg, Hint8.
  - simpl. by rewrite Dg, Hint8.
  - simpl. rewrite P1, M4, M3, M2 by done.
    rewrite Hint8 in K1.
    change (g_int (pr_global_struct wb) G.self) with (ref e') in K1.
    rewrite Hget8 in K1. change (G.int_name G.self) with "self" in K1.
    by destruct (globals (L d1) !! "self"); simpl in K1; subst.
  - simpl. rewrite P2, M4, M3 by done.
    assert (Hint1 : g_int (pr_global_struct d1) = g_int (pr_global_struct wb)).
    { destruct T1 as (_ & -> & _). exact Hint8. }
    rewrite Hint1 in K2.
    change (g_int (pr_global_struct wb) G.other) with (ref e') in K2.
    assert (Hgetd1 : registry_get (ref e') (L d1) = LEdict 0).
    { apply Hget. by rewrite Hd1, Ereg, Creg. }
    rewrite Hgetd1 in K2. change (G.int_name G.other) with "other" in K2.
    by destruct (globals (L d2) !! "other"); simpl in K2; subst.
  - simpl. rewrite P3, M4, M3, M2, M1 by done. rewrite Eglob.
    rewrite N7, N6, N5, N4, N3, N2 by done.
    change (g_int (pr_global_struct wb) G.world) with (ref e') in G1.
    rewrite Hget in G1 by done.
    change (G.int_name G.world) with "world" in G1.
    by destruct (globals (L c1) !! "world"); simpl in G1; subst.
  - done.
Qed.

(** Without a userdata to make [self], a call with [self] unset is fatal. *)
Lemma PR_ExecuteProgram_zero_self (MAX_EDICTS : Z)
    (lua_call : nat -> World -> result World) (fnum : Z) (w : World) :
  0 < fnum ->
  g_int (pr_global_struct w) G.self = 0 ->
  bootstrap w = false ->
  is_fatal (PR_ExecuteProgram MAX_EDICTS lua_call fnum w) = true.
Proof.
  intros Hpos Hself Hboot. unfold PR_ExecuteProgram.
  destruct (fnum =? 0) eqn:H0; [lia|]. destruct (fnum <? 0) eqn:H1; [lia|].
  apply Z.eqb_eq in Hself. unfold bootstrap in Hboot.
  set (w1 := set_L (lua_rawgeti_registry fnum (L w)) w).
  destruct (lua_isfunction (-1) (L w1)); [|done]. cbn [negb].
  assert (Hself1 : (g_int (pr_global_struct w1) G.self =? 0) = true) by done.
  (* the first call while loading does not apply *)
  change (state (sv w1)) with (state (sv w)).
  destruct (bool_decide (state (sv w) = ss_loading)) eqn:Hload.
  - unfold EDICT_NUM. destruct (_ || _) eqn:Hrange; [done|].
    cbn [mbind result_bind]. change (Z.to_nat 0) with 0%nat.
    assert (Hat : edict_at 0 w1 = match edicts (sv w) !! 0%nat with
                                  | Some e => Ok e
                                  | None => Fault
                                  end) by reflexivity.
    rewrite Hat. simpl in Hboot.
    destruct (edicts (sv w) !! 0%nat) as [world|]; [|done].
    cbn [mbind result_bind]. rewrite Hboot. cbn [mbind result_bind].
    destruct (fnum =? g_int (pr_global_struct w1) G.StartFrame);
      unfold GET_GFLOAT;
      cbn [mbind result_bind pr_global_struct set_pr_global_struct set_g_float
           g_int set_L];
      by rewrite Hself1.
  - cbn [mbind result_bind].
    destruct (fnum =? g_int (pr_global_struct w1) G.StartFrame);
      unfold GET_GFLOAT;
      cbn [mbind result_bind pr_global_struct set_pr_global_struct set_g_float
           g_int set_L];
      by rewrite Hself1.
Qed.

(** C7, as the source has it.  [PR_ExecuteProgram(fnum)] returns at once,
    changing nothing, when [fnum] is zero; it is fatal when [fnum] is
    negative; and for a positive [fnum] it is fatal when [self] is unset,
    unless the server is loading and the world has no userdata yet: in that
    case the call on a function of the program first gives the world its
    userdata, under a reference that was not in use, makes it [self],
    [other] and [world], publishes it under these names, and then calls
    the function. *)
Theorem C7_execute_program (MAX_EDICTS : Z) (lua_call : nat -> World -> result World)
    (fnum : Z) (w : World) :
  (fnum = 0 -> PR_ExecuteProgram MAX_EDICTS lua_call fnum w = Ok w) /\
  (fnum < 0 -> is_fatal (PR_ExecuteProgram MAX_EDICTS lua_call fnum w) = true) /\
  (0 < fnum -> g_int (pr_global_struct w) G.self = 0 -> bootstrap w = false ->
   is_fatal (PR_ExecuteProgram MAX_EDICTS lua_call fnum w) = true) /\
  (0 < fnum -> bootstrap w = true -> 0 < MAX_EDICTS ->
   forall (world : edict_t) (f : nat),
     edicts (sv w) !! 0%nat = Some world ->
     registry_get fnum (L w) = LFunction f ->
     exists r w1 world',
       made_self w world r world' w1 /\
       PR_ExecuteProgram MAX_EDICTS lua_call fnum w =
         match lua_call f w1 with
         | Ok w2 =>
             if (fnum =? g_int (pr_global_struct w2) G.SetChangeParms)
                || (fnum =? g_int (pr_global_struct w2) G.SetNewParms)
             then run_all GET_GFLOAT parms w2
             else Ok w2
         | LuaError msg => Fatal msg
         | x => x
         end).
Proof.
  split_and!.
  - intros ->. reflexivity.
  - intros Hneg. unfold PR_ExecuteProgram.
    destruct (fnum =? 0) eqn:H0; [lia|]. by destruct (fnum <? 0) eqn:H1; [|lia].
  - apply PR_ExecuteProgram_zero_self.
  - intros _ Hboot Hmax world f Hworld Hf.
    by apply PR_ExecuteProgram_bootstrap.
Qed.

Lemma C7_execute_program_witness :
  exists r w1 world',
    made_self loading_world edict_zero r world' w1 /\
    PR_ExecuteProgram 2 returns_at_once 1 loading_world =
      match returns_at_once 0 w1 with
      | Ok w2 =>
          if (1 =? g_int (pr_global_struct w2) G.SetChangeParms)
             || (1 =? g_int (pr_global_struct w2) G.SetNewParms)
          then run_all GET_GFLOAT parms w2
          else Ok w2
      | LuaError msg => Fatal msg
      | x => x
      end.
Proof.
  destruct (C7_execute_program 2 returns_at_once 1 loading_world)
    as (_ & _ & _ & H).
  apply (H ltac:(lia) ltac:(vm_compute; reflexivity) ltac:(lia) edict_zero 0%nat);
    vm_compute; reflexivity.
Defined.

(** C7 as stated fails: while the server is loading and the world has no
    userdata, a call with [self] unset is not fatal. *)
Lemma C7_counterexample :
  g_int (pr_global_struct loading_world) G.self = 0 /\
  is_fatal (PR_ExecuteProgram 2 returns_at_once 1 loading_world) = false /\
  is_ok (PR_ExecuteProgram 2 returns_at_once 1 loading_world) = true.
Proof. repeat split; vm_compute; reflexivity. Qed.

(** ** Loading the entities of a map *)

Lemma live_weaken h l l' :
  registry l ⊆ registry l' -> live h l' = false -> live h l = false.
Proof.
  destruct h as [|q|q]; simpl; try done. intros Hsub H.
  apply bool_decide_eq_false in H. apply bool_decide_eq_false.
  intros [x Hx]. apply H. exists x. by eapply lookup_weaken.
Qed.

Lemma registry_get_weaken h l l' x :
  registry l ⊆ registry l' -> registry_get h l = x -> x <> LNil ->
  registry_get h l' = x.
Proof.
  destruct h as [|q|q]; simpl; try (intros; congruence). intros Hsub Hx Hne.
  destruct (registry l !! q) as [y|] eqn:E; simpl in Hx; [|congruence].
  subst. by rewrite (lookup_weaken _ _ _ _ E Hsub).
Qed.

Lemma fresh_table_None (t : gmap nat (gmap string lua_value)) :
  t !! fresh (dom t) = None.
Proof. apply not_elem_of_dom. apply is_fresh. Qed.

Lemma not_live_fresh l : live (Z.pos (fresh (dom (registry l)))) l = false.
Proof.
  simpl. apply bool_decide_eq_false. rewrite fresh_registry_None. by intros [? ?].
Qed.

(** [ED_EnsureFields] makes the userdata and the table the edict has not,
    under references that were not in use, and keeps everything else. *)
Lemma ED_EnsureFields_makes p e l :
  exists e' l', ED_EnsureFields p e l = Ok (e', l') /\
    free e' = free e /\ area_linked e' = area_linked e /\
    freetime e' = freetime e /\ v e' = v e /\
    stack l' = stack l /\ vectors l' = vectors l /\ globals l' = globals l /\
    registry l ⊆ registry l' /\ tables l ⊆ tables l' /\
    (if ref e =? 0
     then live (ref e') l = false /\ registry_get (ref e') l' = LEdict p
     else ref e' = ref e) /\
    (if fields e =? 0
     then live (fields e') l = false /\
          exists a, registry_get (fields e') l' = LTable a /\
            tables l !! a = None /\ tables l' !! a = Some ∅
     else fields e' = fields e).
Proof.
  unfold ED_EnsureFields.
  destruct (ref e =? 0) eqn:Hr.
  - rewrite luaL_ref_value by done. cbn [mbind result_bind].
    change (fields (set_ref _ e)) with (fields e).
    set (r1 := fresh (dom (registry l))).
    set (reg1 := <[r1 := LEdict p]> (registry l)).
    assert (H1 : registry l !! r1 = None) by apply fresh_registry_None.
    destruct (fields e =? 0) eqn:Hf.
    + unfold lua_newtable. rewrite luaL_ref_value by done.
      cbn [mbind result_bind].
      eexists _, _. split; [reflexivity|]. simpl. fold r1. fold reg1.
      set (r2 := fresh (dom reg1)).
      assert (H2 : reg1 !! r2 = None) by apply fresh_registry_None.
      assert (H12 : r2 <> r1).
      { intros E. rewrite E in H2. unfold reg1 in H2.
        by rewrite lookup_insert_eq in H2. }
      assert (H2' : registry l !! r2 = None).
      { unfold reg1 in H2. by rewrite lookup_insert_ne in H2. }
      split_and!; try done.
      * etrans; [apply (insert_subseteq _ r1 (LEdict p)); exact H1|].
        by apply insert_subseteq.
      * apply insert_subseteq. apply fresh_table_None.
      * apply not_live_fresh.
      * rewrite lookup_insert_ne by done. unfold reg1. by rewrite lookup_insert_eq.
      * apply bool_decide_eq_false. rewrite H2'. by intros [? ?].
      * eexists. rewrite lookup_insert_eq. split; [reflexivity|].
        split; [apply fresh_table_None|]. by rewrite lookup_insert_eq.
    + eexists _, _. split; [reflexivity|]. simpl. fold r1.
      split_and!; try done.
      * by apply insert_subseteq.
      * apply not_live_fresh.
      * unfold reg1. by rewrite lookup_insert_eq.
  - cbn [mbind result_bind].
    destruct (fields e =? 0) eqn:Hf.
    + unfold lua_newtable. rewrite luaL_ref_value by done.
      cbn [mbind result_bind].
      eexists _, _. split; [reflexivity|]. simpl.
      split_and!; try done.
      * apply insert_subseteq. apply fresh_registry_None.
      * apply insert_subseteq. apply fresh_table_None.
      * apply not_live_fresh.
      * eexists. rewrite lookup_insert_eq. split; [reflexivity|].
        split; [apply fresh_table_None|]. by rewrite lookup_insert_eq.
    + eexists _, _. split; [reflexivity|]. by split_and!.
Qed.

Lemma clients_ensured_refl w : clients_ensured 0 w w.
Proof.
  unfold clients_ensured. split_and!; try done.
  - by destruct (sv w).
  - intros i e He. exists e. split; [done|].
    rewrite bool_decide_eq_false_2; [done|lia].
  - intros; lia.
Qed.

Lemma run_all_snoc {A} (f : A -> World -> result World) ms m w :
  run_all f (ms ++ [m]) w = (w ← run_all f ms w; f m w).
Proof. unfold run_all. by rewrite foldl_app. Qed.

Section LoaderProofs.

Variables MAX_CLIENTS MAX_EDICTS : Z.

Lemma ED_LoadFromFile_clients_upto (k : nat) (w : World) :
  Z.of_nat k < MAX_EDICTS ->
  (k < length (edicts (sv w)))%nat ->
  exists w',
    run_all (fun i w => p ← EDICT_NUM MAX_EDICTS i; on_edict (ED_EnsureFields p) p w)
      (map Z.of_nat (seq 1 k)) w = Ok w' /\
    clients_ensured k w w'.
Proof.
  induction k as [|k IH]; intros Hmax Hlen.
  { exists w. split; [done|]. apply clients_ensured_refl. }
  destruct IH as (w1 & Hrun & Hsv & Hn & Hg & Hc & Hs & Hvec & Hgl & Hreg & Htab &
                  Hed & Hdis); [lia..|].
  rewrite seq_S, map_app.
  change (map Z.of_nat [(1 + k)%nat]) with [Z.of_nat (S k)].
  rewrite run_all_snoc, Hrun. cbn [mbind result_bind].
  rewrite EDICT_NUM_in by lia. cbn [mbind result_bind].
  rewrite Nat2Z.id.
  assert (Hlt : (S k < length (edicts (sv w)))%nat) by lia.
  destruct (lookup_lt_is_Some_2 _ _ Hlt) as [e He].
  destruct (Hed _ _ He) as (e1 & He1 & Hsame).
  rewrite bool_decide_eq_false_2 in Hsame by lia. subst e1.
  destruct (ED_EnsureFields_makes (S k) e (L w1))
    as (e' & l' & Hens & Hfree & Harea & Htime & Hv & Hstk & Hvc & Hglob &
        Hreg' & Htab' & Href & Hfields).
  rewrite (on_edict_total _ _ _ _ _ _ He1 Hens).
  eexists. split; [reflexivity|].
  assert (Hregs : registry (L w) ⊆ registry l') by (by etrans).
  assert (Htabs : tables (L w) ⊆ tables l') by (by etrans).
  (* what the clients before this one got is kept *)
  assert (Hkept : forall i x x', (1 <= i <= k)%nat ->
            edicts (sv w) !! i = Some x -> edicts (sv w1) !! i = Some x' ->
            fields x = 0 ->
            exists a, registry_get (fields x') (L w1) = LTable a /\
              registry_get (fields x') l' = LTable a /\
              tables (L w1) !! a = Some ∅).
  { intros i x x' Hi Hx Hx' Hfx.
    destruct (Hed _ _ Hx) as (y & Hy & Hcase).
    assert (y = x') as -> by congruence.
    rewrite bool_decide_eq_true_2 in Hcase by done.
    destruct Hcase as (_ & _ & _ & _ & _ & Hcase).
    rewrite Hfx in Hcase. change (0 =? 0) with true in Hcase.
    destruct Hcase as (_ & a & Ha & _ & Hta).
    exists a. split; [done|]. split; [|done].
    by apply (registry_get_weaken _ (L w1)). }
  unfold clients_ensured. simpl. split_and!; try done.
  - by rewrite Hsv.
  - by rewrite length_insert.
  - congruence.
  - congruence.
  - congruence.
  - intros i x Hx. destruct (decide (i = S k)) as [->|Hne].
    + assert (x = e) as -> by congruence. exists e'.
      split; [apply list_lookup_insert_eq; by eapply lookup_lt_Some|].
      rewrite bool_decide_eq_true_2 by lia.
      split_and!; try done.
      * destruct (ref e =? 0); [|done]. destruct Href as [Hl Hget].
        split; [by apply (live_weaken _ _ (L w1))|done].
      * destruct (fields e =? 0); [|done].
        destruct Hfields as (Hl & a & Hget & Hnone & Hsome).
        split; [by apply (live_weaken _ _ (L w1))|].
        exists a. split; [done|]. split; [|done].
        by eapply lookup_weaken_None.
    + rewrite list_lookup_insert_ne by done.
      destruct (Hed _ _ Hx) as (x' & Hx' & Hcase). exists x'.
      split; [done|].
      destruct (bool_decide (1 <= i <= k)%nat) eqn:Hb.
      * apply bool_decide_eq_true in Hb. rewrite bool_decide_eq_true_2 by lia.
        destruct Hcase as (? & ? & ? & ? & Hr & Hf).
        split_and!; try done.
        -- destruct (ref x =? 0); [|done]. destruct Hr as [Hl Hget].
           split; [done|]. by apply (registry_get_weaken _ (L w1)).
        -- destruct (fields x =? 0); [|done].
           destruct Hf as (Hl & a & Hget & Hnone & Hsome).
           split; [done|]. exists a. split_and!; try done.
           ++ by apply (registry_get_weaken _ (L w1)).
           ++ by eapply lookup_weaken.
      * apply bool_decide_eq_false in Hb. rewrite bool_decide_eq_false_2 by lia.
        done.
  - intros i j ei ej ei' ej' a Hi Hj Hij Hei Hej Hfi Hfj Hei' Hej' Hget.
    destruct (decide (i = S k)) as [->|Hik]; destruct (decide (j = S k)) as [->|Hjk];
      try done.
    + (* the new table against an earlier one *)
      rewrite list_lookup_insert_eq in Hei' by (by eapply lookup_lt_Some).
      rewrite list_lookup_insert_ne in Hej' by done.
      assert (ei = e) as -> by congruence. assert (ei' = e') as -> by congruence.
      rewrite Hfi in Hfields. change (0 =? 0) with true in Hfields.
      destruct Hfields as (_ & a' & Hget' & Hnone & _).
      assert (a' = a) as -> by congruence.
      destruct (Hkept j ej ej' ltac:(lia) Hej Hej' Hfj) as (b & _ & Hb & Htb).
      rewrite Hb. intros [= ->]. congruence.
    + (* an earlier table against the new one *)
      rewrite list_lookup_insert_ne in Hei' by done.
      rewrite list_lookup_insert_eq in Hej' by (by eapply lookup_lt_Some).
      assert (ej = e) as -> by congruence. assert (ej' = e') as -> by congruence.
      rewrite Hfj in Hfields. change (0 =? 0) with true in Hfields.
      destruct Hfields as (_ & a' & Hget' & Hnone & _).
      destruct (Hkept i ei ei' ltac:(lia) Hei Hei' Hfi) as (b & _ & Hb & Htb).
      assert (b = a) as -> by congruence.
      rewrite Hget'. intros [= ->]. congruence.
    + rewrite list_lookup_insert_ne in Hei' by done.
      rewrite list_lookup_insert_ne in Hej' by done.
      destruct (Hkept i ei ei' ltac:(lia) Hei Hei' Hfi) as (b & Hb1 & Hb & _).
      assert (b = a) as -> by congruence.
      destruct (Hkept j ej ej' ltac:(lia) Hej Hej' Hfj) as (c & Hc1 & Hc' & _).
      rewrite Hc'. intros [= ->].
      by apply (Hdis i j ei ej ei' ej' a ltac:(lia) ltac:(lia) Hij Hei Hej Hfi Hfj
                  Hei' Hej' Hb1).
Qed.

Variable COM_Parse : string -> option string * string.
Variable lua_call : nat -> World -> result World.
Variable deathmatch : bool.
Variables NOT_EASY NOT_MEDIUM NOT_HARD NOT_DEATHMATCH : Z.

(** X24.  A map without entity.  When every client has an edict in the
    array, [ED_LoadFromFile] first gives every client the userdata and the
    overflow table it has not yet, under references that were not in use:
    the one holds the userdata of the edict, the other a new, empty table
    that no other client has.  Nothing else changes: not the other members
    of these edicts, not the other edicts, not what the registry and the
    tables held, not the rest of the process.  Then a text in which the
    tokenizer finds no token makes it return with nothing inhibited and no
    edict taken, and a text whose first token does not start with an
    opening brace is fatal. *)
Theorem X24_map_without_entity (fuel : nat) (data : string) (w : World) :
  0 <= MAX_CLIENTS < MAX_EDICTS ->
  (Z.to_nat MAX_CLIENTS < length (edicts (sv w)))%nat ->
  exists w',
    clients_ensured (Z.to_nat MAX_CLIENTS) (Con_Printf "ED_LoadFromFile(data=%p)" w) w' /\
    ((COM_Parse data).1 = None ->
     ED_LoadFromFile MAX_CLIENTS MAX_EDICTS COM_Parse lua_call deathmatch
       NOT_EASY NOT_MEDIUM NOT_HARD NOT_DEATHMATCH (S fuel) data w = Ok (0, w')) /\
    (forall d tok, COM_Parse data = (Some d, tok) -> first_char_is "{" tok = false ->
     ED_LoadFromFile MAX_CLIENTS MAX_EDICTS COM_Parse lua_call deathmatch
       NOT_EASY NOT_MEDIUM NOT_HARD NOT_DEATHMATCH (S fuel) data w =
       Fatal "ED_LoadFromFile: found %s when expecting {").
Proof.
  intros Hmax Hlen.
  destruct (ED_LoadFromFile_clients_upto (Z.to_nat MAX_CLIENTS)
              (Con_Printf "ED_LoadFromFile(data=%p)" w)) as (w' & Hrun & Hens);
    [lia|done|].
  exists w'. split; [done|].
  unfold ED_LoadFromFile, ED_LoadFromFile_clients. rewrite Hrun.
  cbn [mbind result_bind ED_LoadFromFile_loop]. split.
  - intros Hnone. destruct (COM_Parse data) as [[d|] tok]; done.
  - intros d tok -> Htok. by rewrite Htok.
Qed.

End LoaderProofs.

Lemma X24_map_without_entity_witness :
  exists w',
    clients_ensured (Z.to_nat 1)
      (Con_Printf "ED_LoadFromFile(data=%p)" loading_world) w' /\
    ((COM_Parse_spec " ").1 = None ->
     ED_LoadFromFile 1 2 COM_Parse_spec returns_at_once false 256 512 1024 2048 1 " "
       loading_world = Ok (0, w')) /\
    (forall d tok, COM_Parse_spec " " = (Some d, tok) -> first_char_is "{" tok = false ->
     ED_LoadFromFile 1 2 COM_Parse_spec returns_at_once false 256 512 1024 2048 1 " "
       loading_world = Fatal "ED_LoadFromFile: found %s when expecting {").
Proof.
  apply (X24_map_without_entity 1 2 COM_Parse_spec returns_at_once false
           256 512 1024 2048 0 " " loading_world).
  - lia.
  - vm_compute. lia.
Defined.

(** *** No call of the loader runs out of rounds *)

Lemma bind_not_NoFuel {A B} (m : result A) (k : A -> result B) :
  m <> NoFuel -> (forall a, k a <> NoFuel) -> (m ≫= k) <> NoFuel.
Proof. intros Hm Hk. destruct m; simpl; auto. Qed.

Ltac nofuel_step tac :=
  first
    [ match goal with
      | |- Ok _ <> NoFuel => discriminate
      | |- Fatal _ <> NoFuel => discriminate
      | |- LuaError _ <> NoFuel => discriminate
      | |- Fault <> NoFuel => discriminate
      end
    | tac
    | match goal with
      | |- (_ ≫= _) <> NoFuel => apply bind_not_NoFuel; [|intros]
      | |- (let '(_, _) := ?x in _) <> NoFuel => destruct x
      | |- (if ?b then _ else _) <> NoFuel => destruct b
      | |- match ?x with _ => _ end <> NoFuel => destruct x
      end ].

Ltac nofuel_with tac := repeat nofuel_step tac.

Ltac nofuel := nofuel_with fail.

Lemma EDICT_NUM_not_NoFuel MAXE i : EDICT_NUM MAXE i <> NoFuel.
Proof. unfold EDICT_NUM. nofuel. Qed.

Lemma edict_at_not_NoFuel p w : edict_at p w <> NoFuel.
Proof. unfold edict_at. nofuel. Qed.

Lemma luaL_ref_not_NoFuel l : luaL_ref l <> NoFuel.
Proof. unfold luaL_ref. nofuel. Qed.

Lemma on_edict_not_NoFuel f p w :
  (forall e l, f e l <> NoFuel) -> on_edict f p w <> NoFuel.
Proof.
  intros Hf. unfold on_edict.
  nofuel_with ltac:(first [match goal with |- edict_at _ _ <> NoFuel => apply edict_at_not_NoFuel end | match goal with |- f _ _ <> NoFuel => apply Hf end]).
Qed.

Lemma ED_EnsureFields_not_NoFuel p e l : ED_EnsureFields p e l <> NoFuel.
Proof. destruct (ED_EnsureFields_spec p e l) as (? & ? & -> & _). done. Qed.

Lemma ED_ClearEdict_not_NoFuel p e l : ED_ClearEdict p e l <> NoFuel.
Proof. destruct (ED_ClearEdict_spec p e l) as (? & ? & -> & _). done. Qed.

Lemma ED_Free_not_NoFuel p w : ED_Free p w <> NoFuel.
Proof.
  unfold ED_Free. apply on_edict_not_NoFuel. intros e l. unfold ED_Free_edict.
  by destruct (free_refs _ _).
Qed.

Lemma PUSH_GREF_not_NoFuel s w : PUSH_GREF s w <> NoFuel.
Proof. unfold PUSH_GREF, lua_setglobal. nofuel. Qed.

Lemma PUSH_GFLOAT_not_NoFuel s w : PUSH_GFLOAT s w <> NoFuel.
Proof. unfold PUSH_GFLOAT, lua_setglobal. nofuel. Qed.

Lemma GET_GFLOAT_not_NoFuel s w : GET_GFLOAT s w <> NoFuel.
Proof. done. Qed.

Lemma PR_GetString_not_NoFuel n l : PR_GetString n l <> NoFuel.
Proof. unfold PR_GetString, luaL_checkstring. nofuel. Qed.

Lemma run_all_not_NoFuel {A} (f : A -> World -> result World) ms : forall w,
  (forall m w, f m w <> NoFuel) -> run_all f ms w <> NoFuel.
Proof.
  induction ms as [|m ms IH] using rev_ind; intros w Hf; [done|].
  rewrite run_all_snoc. apply bind_not_NoFuel; auto.
Qed.

Lemma spawnflag_not_NoFuel flag e : spawnflag flag e <> NoFuel.
Proof. unfold spawnflag. by destruct (int_of_number _). Qed.

(** The calls that are known to return. *)
Ltac returns :=
  match goal with
  | |- spawnflag _ _ <> NoFuel => apply spawnflag_not_NoFuel
  | |- EDICT_NUM _ _ <> NoFuel => apply EDICT_NUM_not_NoFuel
  | |- edict_at _ _ <> NoFuel => apply edict_at_not_NoFuel
  | |- luaL_ref _ <> NoFuel => apply luaL_ref_not_NoFuel
  | |- on_edict _ _ _ <> NoFuel => apply on_edict_not_NoFuel; intros
  | |- ED_EnsureFields _ _ _ <> NoFuel => apply ED_EnsureFields_not_NoFuel
  | |- ED_ClearEdict _ _ _ <> NoFuel => apply ED_ClearEdict_not_NoFuel
  | |- ED_Free _ _ <> NoFuel => apply ED_Free_not_NoFuel
  | |- PUSH_GREF _ _ <> NoFuel => apply PUSH_GREF_not_NoFuel
  | |- PUSH_GFLOAT _ _ <> NoFuel => apply PUSH_GFLOAT_not_NoFuel
  | |- GET_GFLOAT _ _ <> NoFuel => apply GET_GFLOAT_not_NoFuel
  | |- PR_GetString _ _ <> NoFuel => apply PR_GetString_not_NoFuel
  | |- run_all _ _ _ <> NoFuel => apply run_all_not_NoFuel; intros
  end.

Lemma ED_Alloc_scan_not_NoFuel MAXE n : forall i w, ED_Alloc_scan MAXE n i w <> NoFuel.
Proof.
  induction n as [|n IH]; intros i w; cbn [ED_Alloc_scan]; [done|].
  nofuel_with ltac:(first [returns | match goal with |- ED_Alloc_scan _ _ _ _ <> NoFuel => apply IH end]).
Qed.

Lemma ED_Alloc_not_NoFuel MAXC MAXE w : ED_Alloc MAXC MAXE w <> NoFuel.
Proof.
  unfold ED_Alloc.
  nofuel_with ltac:(first [returns | match goal with |- ED_Alloc_scan _ _ _ _ <> NoFuel => apply ED_Alloc_scan_not_NoFuel end]).
Qed.

Section LoaderTermination.

Variables MAX_CLIENTS MAX_EDICTS : Z.
Variable COM_Parse : string -> option string * string.
Variable lua_call : nat -> World -> result World.
Variable deathmatch : bool.
Variables NOT_EASY NOT_MEDIUM NOT_HARD NOT_DEATHMATCH : Z.

Hypothesis COM_Parse_consumes : consumes COM_Parse.
Hypothesis lua_call_returns : forall f w, lua_call f w <> NoFuel.

Lemma lua_pcall_not_NoFuel w :
  match lua_pcall lua_call w with
  | LuaError msg => Fatal msg
  | r => r
  end <> NoFuel.
Proof.
  unfold lua_pcall. destruct (stack (L w)) as [|[| | | |f| | |] s]; try done.
  pose proof (lua_call_returns f (set_L (set_stack s (L w)) w)).
  by destruct (lua_call _ _).
Qed.

Lemma PR_ExecuteProgram_not_NoFuel fnum w :
  PR_ExecuteProgram MAX_EDICTS lua_call fnum w <> NoFuel.
Proof.
  unfold PR_ExecuteProgram.
  nofuel_with ltac:(first [returns | match goal with |- match lua_pcall _ _ with _ => _ end <> NoFuel => apply lua_pcall_not_NoFuel end]).
Qed.

Lemma ED_LoadFromFile_spawn_not_NoFuel ent inhibit w :
  ED_LoadFromFile_spawn MAX_EDICTS lua_call deathmatch NOT_EASY NOT_MEDIUM NOT_HARD
    NOT_DEATHMATCH ent inhibit w <> NoFuel.
Proof.
  unfold ED_LoadFromFile_spawn.
  nofuel_with ltac:(first [returns | match goal with |- PR_ExecuteProgram _ _ _ _ <> NoFuel => apply PR_ExecuteProgram_not_NoFuel end]).
Qed.

Lemma ED_ParseEdict_loop_shorter fuel : forall data init e l d' init' e' l',
  ED_ParseEdict_loop COM_Parse fuel data init e l = Ok (Some d', init', e', l') ->
  (String.length d' < String.length data)%nat.
Proof.
  induction fuel as [|fuel IH]; intros data init e l d' init' e' l'; [done|].
  cbn [ED_ParseEdict_loop].
  destruct (COM_Parse data) as [[d1|] tok] eqn:H1;
    [|by destruct (first_char_is "}" tok)].
  apply COM_Parse_consumes in H1.
  destruct (first_char_is "}" tok); [by intros [= <- _ _ _]|].
  destruct (String.eqb tok "angle"); cbn beta iota zeta;
    (match goal with |- context [(256 <=? ?n)%nat] =>
       destruct (256 <=? n)%nat end; [done|]);
    (destruct (COM_Parse d1) as [[d2|] x] eqn:H2; [|done]);
    apply COM_Parse_consumes in H2;
    (destruct (first_char_is "}" x); [done|]);
    (destruct (first_char_is "_" _); [intros H; apply IH in H; lia|]);
    try (match goal with |- context [(32 <=? ?n)%nat] =>
           destruct (32 <=? n)%nat end; [done|]);
    cbn [mbind result_bind];
    match goal with |- context [ED_SetField ?k ?y e l] =>
      destruct (ED_SetField k y e l) as [[[b e1] l1]| | | |] end; try done;
    cbn; (destruct b; [|done]); intros H; apply IH in H; lia.
Qed.

Lemma ED_ParseEdict_shorter pfuel data ent w d' w' :
  ED_ParseEdict COM_Parse pfuel data ent w = Ok (Some d', w') ->
  (String.length d' < String.length data)%nat.
Proof.
  unfold ED_ParseEdict, edict_at.
  destruct (edicts (sv w) !! ent) as [e|]; cbn; [|done].
  match goal with |- context [ED_ParseEdict_loop COM_Parse pfuel data false ?e1 ?l1] =>
    pose proof (ED_ParseEdict_loop_shorter pfuel data false e1 l1) as Hs;
    destruct (ED_ParseEdict_loop COM_Parse pfuel data false e1 l1)
      as [[[[d i] e2] l2]| | | |] end; cbn; try done.
  intros [= -> _]. by eapply Hs.
Qed.

Lemma ED_ParseEdict_not_NoFuel pfuel data ent w :
  (String.length data < pfuel)%nat ->
  ED_ParseEdict COM_Parse pfuel data ent w <> NoFuel.
Proof.
  intros Hfuel. unfold ED_ParseEdict, edict_at.
  destruct (edicts (sv w) !! ent) as [e|]; cbn; try done.
  match goal with |- context [ED_ParseEdict_loop COM_Parse pfuel data false ?e1 ?l1] =>
    pose proof (ED_ParseEdict_loop_fuel COM_Parse COM_Parse_consumes pfuel data false
                  e1 l1 Hfuel) as H;
    destruct (ED_ParseEdict_loop COM_Parse pfuel data false e1 l1)
      as [[[[d i] e2] l2]| | | |] end; cbn; done.
Qed.

Lemma ED_LoadFromFile_loop_fuel fuel : forall pfuel data first inhibit w,
  match data with
  | Some d => (String.length d < fuel)%nat /\ (String.length d < pfuel)%nat
  | None => (0 < fuel)%nat
  end ->
  ED_LoadFromFile_loop MAX_CLIENTS MAX_EDICTS COM_Parse lua_call deathmatch
    NOT_EASY NOT_MEDIUM NOT_HARD NOT_DEATHMATCH fuel pfuel data first inhibit w <> NoFuel.
Proof.
  induction fuel as [|fuel IH]; intros pfuel data first inhibit w Hfuel.
  { destruct data; lia. }
  cbn [ED_LoadFromFile_loop]. destruct data as [data|]; [|done].
  destruct Hfuel as [Hfuel Hpfuel].
  destruct (COM_Parse data) as [[d1|] tok] eqn:H1; [|done].
  apply COM_Parse_consumes in H1.
  destruct (negb _); [done|].
  apply bind_not_NoFuel.
  { destruct first; [|apply ED_Alloc_not_NoFuel].
    apply bind_not_NoFuel; [apply EDICT_NUM_not_NoFuel|done]. }
  intros [ent w1].
  pose proof (ED_ParseEdict_not_NoFuel pfuel d1 ent w1) as Hp.
  pose proof (ED_ParseEdict_shorter pfuel d1 ent w1) as Hs.
  destruct (ED_ParseEdict COM_Parse pfuel d1 ent w1) as [[d2 w2]| | | |];
    cbn [mbind result_bind]; try done; [|exfalso; apply Hp; [lia|done]].
  apply bind_not_NoFuel; [apply ED_LoadFromFile_spawn_not_NoFuel|].
  intros [inhibit' w3]. apply IH.
  destruct d2 as [d2|]; [|lia].
  specialize (Hs d2 w2 eq_refl). lia.
Qed.

End LoaderTermination.

(** X25.  Loading ends.  With a tokenizer that moves forward at every token
    and spawn functions that return, [ED_LoadFromFile] run with more rounds
    than the text has characters does not run out of rounds: it returns, or
    stops on an error. *)
Theorem X25_loader_terminates (MAX_CLIENTS MAX_EDICTS : Z)
    (COM_Parse : string -> option string * string)
    (lua_call : nat -> World -> result World) (deathmatch : bool)
    (NOT_EASY NOT_MEDIUM NOT_HARD NOT_DEATHMATCH : Z)
    (fuel : nat) (data : string) (w : World) :
  consumes COM_Parse ->
  (forall f w, lua_call f w <> NoFuel) ->
  (String.length data < fuel)%nat ->
  ED_LoadFromFile MAX_CLIENTS MAX_EDICTS COM_Parse lua_call deathmatch
    NOT_EASY NOT_MEDIUM NOT_HARD NOT_DEATHMATCH fuel data w <> NoFuel.
Proof.
  intros Hc Hcall Hfuel. unfold ED_LoadFromFile, ED_LoadFromFile_clients.
  apply bind_not_NoFuel.
  - apply run_all_not_NoFuel. intros i w1.
    apply bind_not_NoFuel; [apply EDICT_NUM_not_NoFuel|].
    intros p. apply on_edict_not_NoFuel. apply ED_EnsureFields_not_NoFuel.
  - intros w1. by apply ED_LoadFromFile_loop_fuel.
Qed.

Lemma X25_loader_terminates_witness :
  ED_LoadFromFile 1 2 COM_Parse_spec returns_at_once false 256 512 1024 2048
    (S (String.length example_map)) example_map loading_world <> NoFuel.
Proof.
  apply (X25_loader_terminates 1 2 COM_Parse_spec returns_at_once false
           256 512 1024 2048).
  - exact COM_Parse_spec_consumes.
  - intros f w. discriminate.
  - lia.
Defined.

(** *** Entities that are not spawned *)

Lemma ED_Free_frame p w e :
  edicts (sv w) !! p = Some e ->
  exists e' l', ED_Free p w = Ok (put_edict p e' (set_L l' w)) /\
    free e' = true /\ freetime e' = to_float (NFin (time (sv w))) /\
    stack l' = stack (L w) /\ globals l' = globals (L w).
Proof.
  intros He. unfold ED_Free, on_edict, edict_at. rewrite He. cbn [mbind result_bind].
  unfold ED_Free_edict.
  pose proof (free_refs_lua_frame ED_Free_refs (SV_UnlinkEdict e) (L w)) as Hl.
  destruct (free_refs ED_Free_refs (SV_UnlinkEdict e, L w)) as [e1 l1].
  simpl in Hl. destruct Hl as (Hs & _ & _ & Hg).
  cbn [mbind result_bind]. eexists _, _. split; [reflexivity|]. done.
Qed.

(** With [current_skill] 0, the test of the spawn flags is the one of
    [NOT_DEATHMATCH] in a deathmatch, and of [NOT_EASY] otherwise. *)
Lemma remove_is_filtered (deathmatch : bool)
    (NOT_EASY NOT_MEDIUM NOT_HARD NOT_DEATHMATCH : Z) (e : edict_t) :
  (if deathmatch then spawnflag NOT_DEATHMATCH e
   else
     easy ← (if current_skill =? 0 then spawnflag NOT_EASY e else Ok false);
     if (easy : bool) then Ok true
     else
       medium ← (if current_skill =? 1 then spawnflag NOT_MEDIUM e else Ok false);
       if (medium : bool) then Ok true
       else if current_skill >=? 2 then spawnflag NOT_HARD e else Ok false) =
  filtered deathmatch NOT_EASY NOT_DEATHMATCH e.
Proof.
  unfold filtered, current_skill. destruct deathmatch; [done|].
  change (0 =? 0) with true. change (0 =? 1) with false.
  change (0 >=? 2) with false. cbn iota.
  by destruct (spawnflag NOT_EASY e) as [[]| | | |].
Qed.

(** X26.  An entity that is not spawned.  The spawn flags of the entity
    being in the range of [int], an entity removed for its spawn flags, one
    without class name and one whose class name is not the name of a
    function end the round of [ED_LoadFromFile] in the same way: the edict
    is freed, stamped with the time of the server as a [float], no function
    of the program is called, the stack and the globals of Lua and
    [pr_global_struct] are as before, and [sv.num_edicts] is not lowered.
    Only the first is counted as inhibited.  As [current_skill] is 0, the
    flags [NOT_MEDIUM] and [NOT_HARD] remove nothing.  Spawn flags outside
    the range of [int], such as 2147483904, have no defined conversion. *)
Theorem X26_entity_not_spawned (MAX_EDICTS : Z) (deathmatch : bool)
    (NOT_EASY NOT_MEDIUM NOT_HARD NOT_DEATHMATCH : Z)
    (ent : nat) (inhibit : Z) (w : World) (e : edict_t) (removed : bool) :
  edicts (sv w) !! ent = Some e ->
  filtered deathmatch NOT_EASY NOT_DEATHMATCH e = Ok removed ->
  removed = true \/ no_spawn_function e (L w) ->
  (exists w' e',
    (forall lua_call,
       ED_LoadFromFile_spawn MAX_EDICTS lua_call deathmatch NOT_EASY NOT_MEDIUM
         NOT_HARD NOT_DEATHMATCH ent inhibit w =
       Ok (if removed then inhibit + 1 else inhibit, w')) /\
    edicts (sv w') = <[ent := e']> (edicts (sv w)) /\
    free e' = true /\ freetime e' = to_float (NFin (time (sv w))) /\
    num_edicts (sv w') = num_edicts (sv w) /\
    stack (L w') = stack (L w) /\ globals (L w') = globals (L w) /\
    pr_global_struct w' = pr_global_struct w) /\
  int_of_number (NFin 2147483904) = None /\
  int_of_number (NFin 2147483647) = Some 2147483647 /\
  int_of_number (NFin (-2147483648)) = Some (-2147483648) /\
  int_of_number (NFin 256.75) = Some 256.
Proof.
  intros He Hfilt Hd. split; [|repeat split; vm_compute; reflexivity].
  unfold ED_LoadFromFile_spawn, edict_at. rewrite He.
  cbn [mbind result_bind].
  rewrite remove_is_filtered, Hfilt. cbn [mbind result_bind].
  destruct removed.
  { destruct (ED_Free_frame ent w e He) as (e' & l' & Hfree & ? & ? & ? & ?).
    rewrite Hfree. cbn [mbind result_bind]. by eexists _, e'. }
  destruct Hd as [Hd|Hno]; [done|].
  destruct (v_int (v e) V.classname =? 0) eqn:Hclass.
  { destruct (ED_Free_frame ent (Con_Printf "No classname for:" w) e He)
      as (e' & l' & Hfree & ? & ? & ? & ?).
    rewrite Hfree. cbn [mbind result_bind]. by eexists _, e'. }
  destruct Hno as [Hz|(s & Hs & Hglob)]; [lia|].
  destruct (v_int (v e) V.classname) as [|q|q] eqn:Hq; try done.
  assert (Hreg : registry (L w) !! q = Some (LString s)).
  { simpl in Hs. destruct (registry (L w) !! q); simpl in Hs; congruence. }
  set (name := snprintf_256 s) in *.
  set (l1 := lua_getglobal name (set_stack (stack (L w)) (L w))).
  assert (Hnot : lua_isfunction (-1) l1 = false).
  { unfold l1, lua_isfunction, lua_getglobal. simpl.
    destruct (globals (L w) !! name) as [[]|] eqn:Hx; try done.
    exfalso. eapply Hglob. reflexivity. }
  set (w2 := Con_Printf "No spawn function for '%s'"
               (set_L (set_stack (stack l1) l1) w)).
  destruct (ED_Free_frame ent w2 e He) as (e' & l' & Hfree & ? & ? & Hstk & Hg).
  exists (set_L (lua_pop 1 l') (put_edict ent e' (set_L l' w2))), e'. split.
  { intros lua_call.
    rewrite (PR_GetString_registry q s (L w) Hreg). cbn [mbind result_bind].
    fold name. fold l1. rewrite Hnot. cbn [negb].
    rewrite (PR_GetString_registry q s l1 Hreg). cbn [mbind result_bind].
    fold w2. rewrite Hfree. reflexivity. }
  simpl in Hstk, Hg. simpl. rewrite Hstk. done.
Qed.

Lemma X26_entity_not_spawned_witness :
  (exists w' e',
    (forall lua_call,
       ED_LoadFromFile_spawn 6 lua_call false 256 512 1024 2048 3 0 monster_world =
       Ok (if false then 0 + 1 else 0, w')) /\
    edicts (sv w') = <[3%nat := e']> (edicts (sv monster_world)) /\
    free e' = true /\ freetime e' = to_float (NFin (time (sv monster_world))) /\
    num_edicts (sv w') = num_edicts (sv monster_world) /\
    stack (L w') = stack (L monster_world) /\
    globals (L w') = globals (L monster_world) /\
    pr_global_struct w' = pr_global_struct monster_world) /\
  int_of_number (NFin 2147483904) = None /\
  int_of_number (NFin 2147483647) = Some 2147483647 /\
  int_of_number (NFin (-2147483648)) = Some (-2147483648) /\
  int_of_number (NFin 256.75) = Some 256.
Proof.
  apply (X26_entity_not_spawned 6 false 256 512 1024 2048 3 0 monster_world
           monster_edict false).
  - vm_compute. reflexivity.
  - vm_compute. reflexivity.
  - right. right. exists "monster_dog". split.
    + vm_compute. reflexivity.
    + intros f. vm_compute. discriminate.
Defined.

(** *** Entities that are spawned *)

Lemma held_not_fresh r l : held r l -> Z.pos (fresh (dom (registry l))) <> r.
Proof.
  intros [Hr|Hr] Heq; subst r; [lia|]. simpl in Hr.
  apply bool_decide_eq_true in Hr. rewrite fresh_registry_None in Hr.
  by destruct Hr.
Qed.

(** X27.  An entity that is spawned.  When its spawn flags do not remove
    the entity (in a deathmatch it has not the flag [NOT_DEATHMATCH],
    otherwise not the flag [NOT_EASY]) and its class name is the name of a
    function, [ED_LoadFromFile] makes the entity [self],
    takes a reference [r] to the function that was not in use, and has
    [PR_ExecuteProgram] call the function once: in a process whose Lua
    global [self] is the userdata of the entity and whose edicts are as
    [ED_ParseEdict] left them.  After the call it releases [r].  A Lua
    error of the spawn function is fatal.  This is the round of every
    entity but the first of a map, for which the world has no userdata
    yet: the entity has a userdata, and the references [StartFrame] and
    [PutClientInServer] are [LUA_NOREF] or held by the registry, as
    [ED_FindFunction] returns them. *)
Theorem X27_entity_spawned (MAX_EDICTS : Z) (lua_call : nat -> World -> result World)
    (deathmatch : bool) (NOT_EASY NOT_MEDIUM NOT_HARD NOT_DEATHMATCH : Z)
    (ent : nat) (inhibit : Z) (w : World) (e : edict_t) (s : string) (f : nat) :
  0 < MAX_EDICTS ->
  bootstrap w = false ->
  edicts (sv w) !! ent = Some e ->
  filtered deathmatch NOT_EASY NOT_DEATHMATCH e = Ok false ->
  registry_get (v_int (v e) V.classname) (L w) = LString s ->
  globals (L w) !! snprintf_256 s = Some (LFunction f) ->
  live (ref e) (L w) = true ->
  held (g_int (pr_global_struct w) G.StartFrame) (L w) ->
  held (g_int (pr_global_struct w) G.PutClientInServer) (L w) ->
  exists r w1,
    0 < r /\ live r (L w) = false /\
    registry_get r (L w1) = LFunction f /\
    (forall h, h <> r -> registry_get h (L w1) = registry_get h (L w)) /\
    sv w1 = sv w /\ console w1 = console w /\ stack (L w1) = stack (L w) /\
    pr_global_struct w1 = set_g_int G.self (ref e) (pr_global_struct w) /\
    default LNil (globals (L w1) !! "self") = registry_get (ref e) (L w) /\
    ED_LoadFromFile_spawn MAX_EDICTS lua_call deathmatch NOT_EASY NOT_MEDIUM NOT_HARD
      NOT_DEATHMATCH ent inhibit w =
      (w3 ← match lua_call f w1 with
            | Ok w2 =>
                if (r =? g_int (pr_global_struct w2) G.SetChangeParms)
                   || (r =? g_int (pr_global_struct w2) G.SetNewParms)
                then run_all GET_GFLOAT parms w2
                else Ok w2
            | LuaError msg => Fatal msg
            | x => x
            end;
       Ok (inhibit, set_L (luaL_unref r (L w3)) w3)).
Proof.
  intros Hmax Hboot He Hfilt Hs Hglob Hlive Hstart Hput.
  unfold ED_LoadFromFile_spawn, edict_at. rewrite He. cbn [mbind result_bind].
  rewrite remove_is_filtered, Hfilt. cbn [mbind result_bind].
  destruct (v_int (v e) V.classname) as [|q|q] eqn:Hq; try done.
  assert (Hreg : registry (L w) !! q = Some (LString s)).
  { simpl in Hs. destruct (registry (L w) !! q); simpl in Hs; congruence. }
  change (Z.pos q =? 0) with false. cbn iota.
  rewrite (PR_GetString_registry q s (L w) Hreg). cbn [mbind result_bind].
  set (name := snprintf_256 s) in *.
  set (l1 := lua_getglobal name (set_stack (stack (L w)) (L w))).
  assert (Hl1 : l1 = lua_push (LFunction f) (set_stack (stack (L w)) (L w))).
  { unfold l1, lua_getglobal. simpl. by rewrite Hglob. }
  assert (Hfun : lua_isfunction (-1) l1 = true) by by rewrite Hl1.
  rewrite Hfun. cbn [negb]. cbn [L set_pr_global_struct set_L].
  rewrite Hl1. rewrite luaL_ref_value by done. cbn [mbind result_bind].
  change (registry (set_stack (stack (L w)) (L w))) with (registry (L w)).
  set (r := fresh (dom (registry (L w)))).
  match goal with |- context [PR_ExecuteProgram MAX_EDICTS lua_call (Z.pos _) ?wA] =>
    set (w0 := wA) end.
  destruct (PR_ExecuteProgram_ordinary MAX_EDICTS lua_call (Z.pos r) f w0)
    as (w1 & Hsv & Hg & Hcon & Hstk & Hregs & _ & _ & Hself & _ & _ & _ & _ & Hrun).
  - done.
  - exact Hboot.
  - simpl. fold r. by rewrite lookup_insert_eq.
  - simpl. rewrite fn_lookup_insert. intros Hz. by rewrite Hz in Hlive.
  - simpl. rewrite fn_lookup_insert_ne by done. by apply held_not_fresh.
  - simpl. rewrite fn_lookup_insert_ne by done. by apply held_not_fresh.
  - exists (Z.pos r), w1. rewrite Hrun.
    assert (Hne : ref e <> Z.pos r).
    { intros Heq. rewrite Heq in Hlive. simpl in Hlive.
      apply bool_decide_eq_true in Hlive. unfold r in Hlive.
      rewrite fresh_registry_None in Hlive. by destruct Hlive. }
    split_and!; try done.
    + simpl. apply bool_decide_eq_false. unfold r. rewrite fresh_registry_None.
      by intros [? ?].
    + unfold registry_get. rewrite Hregs. simpl. fold r. by rewrite lookup_insert_eq.
    + intros [|h|h] Hh; try done. unfold registry_get. rewrite Hregs. simpl. fold r.
      rewrite lookup_insert_ne; [done|congruence].
    + rewrite Hself. simpl. rewrite fn_lookup_insert.
      destruct (ref e) as [|p|p] eqn:Hp; try done. simpl. fold r.
      rewrite lookup_insert_ne by congruence. done.
Qed.

Lemma X27_entity_spawned_witness :
  exists r w1,
    0 < r /\ live r (L spawning_world) = false /\
    registry_get r (L w1) = LFunction 7 /\
    (forall h, h <> r -> registry_get h (L w1) = registry_get h (L spawning_world)) /\
    sv w1 = sv spawning_world /\ console w1 = console spawning_world /\
    stack (L w1) = stack (L spawning_world) /\
    pr_global_struct w1 =
      set_g_int G.self (ref spawning_edict) (pr_global_struct spawning_world) /\
    default LNil (globals (L w1) !! "self") =
      registry_get (ref spawning_edict) (L spawning_world) /\
    ED_LoadFromFile_spawn 2 returns_at_once false 256 512 1024 2048 1 0 spawning_world =
      (w3 ← match returns_at_once 7 w1 with
            | Ok w2 =>
                if (r =? g_int (pr_global_struct w2) G.SetChangeParms)
                   || (r =? g_int (pr_global_struct w2) G.SetNewParms)
                then run_all GET_GFLOAT parms w2
                else Ok w2
            | LuaError msg => Fatal msg
            | x => x
            end;
       Ok (0, set_L (luaL_unref r (L w3)) w3)).
Proof.
  apply (X27_entity_spawned 2 returns_at_once false 256 512 1024 2048 1 0
           spawning_world spawning_edict "monster_dog" 7).
  - lia.
  - vm_compute. reflexivity.
  - vm_compute. reflexivity.
  - vm_compute. reflexivity.
  - vm_compute. reflexivity.
  - vm_compute. reflexivity.
  - vm_compute. reflexivity.
  - left. vm_compute. discriminate.
  - left. vm_compute. discriminate.
Defined.

(** *** The first call of a loading server *)

(** X28.  The first call while the server is loading, which is the one of
    [StartFrame]: the first frame is run before the other edicts are
    initialized.  When the world has no userdata yet, [PR_ExecuteProgram]
    on a function of the program, whichever it is, gives the world a
    userdata, under a reference that was not in use, together with its
    overflow table, makes the world [self], [other] and [world], and
    publishes it under these names before it calls the function: the call
    is not fatal for want of [self]. *)
Theorem X28_first_call_makes_world_self (MAX_EDICTS : Z)
    (lua_call : nat -> World -> result World) (fnum : Z) (f : nat) (w : World)
    (world : edict_t) :
  0 < MAX_EDICTS ->
  bootstrap w = true ->
  edicts (sv w) !! 0%nat = Some world ->
  registry_get fnum (L w) = LFunction f ->
  exists r w1 world',
    0 < r /\ live r (L w) = false /\
    registry_get r (L w1) = LEdict 0 /\
    edicts (sv w1) = <[0%nat := world']> (edicts (sv w)) /\
    ref world' = r /\ fields world' <> 0 /\ v world' = v world /\
    g_int (pr_global_struct w1) G.self = r /\
    g_int (pr_global_struct w1) G.other = r /\
    g_int (pr_global_struct w1) G.world = r /\
    globals (L w1) !! "self" = Some (LEdict 0) /\
    globals (L w1) !! "world" = Some (LEdict 0) /\
    stack (L w1) = stack (L w) /\
    PR_ExecuteProgram MAX_EDICTS lua_call fnum w =
      match lua_call f w1 with
      | Ok w2 =>
          if (fnum =? g_int (pr_global_struct w2) G.SetChangeParms)
             || (fnum =? g_int (pr_global_struct w2) G.SetNewParms)
          then run_all GET_GFLOAT parms w2
          else Ok w2
      | LuaError msg => Fatal msg
      | x => x
      end.
Proof.
  intros Hmax Hboot Hworld Hf.
  destruct (PR_ExecuteProgram_bootstrap MAX_EDICTS lua_call fnum f w world
              Hmax Hboot Hworld Hf) as (r & w1 & world' & Hmade & Hrun).
  unfold made_self in Hmade.
  destruct Hmade as (? & ? & ? & ? & ? & ? & ? & ? & ? & ? & ? & ? & ? & ? & ?).
  exists r, w1, world'. by split_and!.
Qed.

Lemma X28_first_call_makes_world_self_witness :
  1 = g_int (pr_global_struct first_frame_world) G.StartFrame /\
  exists r w1 world',
    0 < r /\ live r (L first_frame_world) = false /\
    registry_get r (L w1) = LEdict 0 /\
    edicts (sv w1) = <[0%nat := world']> (edicts (sv first_frame_world)) /\
    ref world' = r /\ fields world' <> 0 /\ v world' = v edict_zero /\
    g_int (pr_global_struct w1) G.self = r /\
    g_int (pr_global_struct w1) G.other = r /\
    g_int (pr_global_struct w1) G.world = r /\
    globals (L w1) !! "self" = Some (LEdict 0) /\
    globals (L w1) !! "world" = Some (LEdict 0) /\
    stack (L w1) = stack (L first_frame_world) /\
    PR_ExecuteProgram 2 returns_at_once 1 first_frame_world =
      match returns_at_once 0 w1 with
      | Ok w2 =>
          if (1 =? g_int (pr_global_struct w2) G.SetChangeParms)
             || (1 =? g_int (pr_global_struct w2) G.SetNewParms)
          then run_all GET_GFLOAT parms w2
          else Ok w2
      | LuaError msg => Fatal msg
      | x => x
      end.
Proof.
  split; [vm_compute; reflexivity|].
  apply (X28_first_call_makes_world_self 2 returns_at_once 1 0 first_frame_world
           edict_zero).
  - lia.
  - vm_compute. reflexivity.
  - vm_compute. reflexivity.
  - vm_compute. reflexivity.
Defined.
